(** * Scan reconciliation and drift analysis: a shallow embedding

    The development follows the three scripts of the repository that make up
    the reconciliation and drift engine:

    - [scripts/scan.py]               (module [Scan]): severity counting and
      the snapshot written by [save_results_to_json];
    - [scripts/merge-scan-results.py] (module [Merge]): normalisation of
      scanner output and [merge_vulnerabilities];
    - [scripts/compare.py]            (module [Compare]): [calculate_diff] and
      [generate_markdown_report].

    Python integers are unbounded and are embedded as [Z]; Python dictionaries
    keep insertion order and are embedded as association lists (module
    [PyDict]); Python objects that the code mutates through aliases live in an
    explicit store (module [Merge]). *)

From Stdlib Require Import ZArith String Ascii List Floats.
From stdpp Require Import base decidable option list functions gmap sets strings sorting pretty.

Local Open Scope string_scope.
Local Open Scope Z_scope.
Local Open Scope list_scope.
Local Set Warnings "-register-all".

(** ** Text helpers *)

(** [str.upper] and [str.lower] on ASCII text: the letters a-z and A-Z are
    mapped, every other byte is kept.  On text that is ASCII only this is what
    Python computes; Python also maps letters outside ASCII, which a byte
    string does not see. *)
Definition upper_ascii (c : ascii) : ascii :=
  let n := N_of_ascii c in
  if ((97 <=? n) && (n <=? 122))%N then ascii_of_N (n - 32) else c.

Definition lower_ascii (c : ascii) : ascii :=
  let n := N_of_ascii c in
  if ((65 <=? n) && (n <=? 90))%N then ascii_of_N (n + 32) else c.

Fixpoint upper (s : string) : string :=
  match s with
  | EmptyString => EmptyString
  | String c s' => String (upper_ascii c) (upper s')
  end.

Fixpoint lower (s : string) : string :=
  match s with
  | EmptyString => EmptyString
  | String c s' => String (lower_ascii c) (lower s')
  end.

(** Every byte of the text is below 128. *)
Fixpoint ascii_only (s : string) : bool :=
  match s with
  | EmptyString => true
  | String c s' => (N_of_ascii c <? 128)%N && ascii_only s'
  end.

(** [len(s)]: the number of code points of the text.  The text is held as its
    UTF-8 bytes, of which every code point has exactly one that is not a
    continuation byte (a byte from 128 to 191). *)
Definition is_continuation (c : ascii) : bool :=
  let n := N_of_ascii c in ((128 <=? n) && (n <? 192))%N.

Fixpoint py_len (s : string) : nat :=
  match s with
  | EmptyString => O
  | String c s' => ((if is_continuation c then 0 else 1) + py_len s')%nat
  end.

(** Python's built-in [sum]: a left fold from 0. *)
Definition py_sum (l : list Z) : Z := foldl Z.add 0 l.

Lemma foldl_add_shift (a : Z) (l : list Z) : foldl Z.add a l = a + py_sum l.
Proof.
  unfold py_sum. revert a. induction l as [|x l IH]; intros a; simpl; [lia|].
  rewrite (IH (a + x)), (IH (0 + x)). lia.
Qed.

Lemma py_sum_cons (x : Z) (l : list Z) : py_sum (x :: l) = x + py_sum l.
Proof. unfold py_sum at 1. simpl. apply foldl_add_shift. Qed.

Lemma py_sum_ones {A} (l : list A) : py_sum ((λ _, 1) <$> l) = Z.of_nat (length l).
Proof.
  induction l as [|x l IH]; [done|].
  rewrite fmap_cons, py_sum_cons, IH. simpl length. lia.
Qed.

Lemma py_sum_app (l k : list Z) : py_sum (l ++ k) = py_sum l + py_sum k.
Proof.
  induction l as [|x l IH]; simpl; [done|]. rewrite !py_sum_cons, IH. lia.
Qed.

#[global] Instance py_sum_Permutation : Proper ((≡ₚ) ==> (=)) py_sum.
Proof.
  induction 1 as [|x l k _ IH|x y l|l k m _ IH1 _ IH2];
    rewrite ?py_sum_cons; [done | by rewrite IH | lia | congruence].
Qed.

Lemma py_sum_fmap_sub {A} (f g : A → Z) (l : list A) :
  py_sum ((λ x, f x - g x) <$> l) = py_sum (f <$> l) - py_sum (g <$> l).
Proof.
  induction l as [|x l IH]; [done|]. rewrite !fmap_cons, !py_sum_cons, IH. lia.
Qed.

Lemma py_sum_fmap_ext {A} (f g : A → Z) (l : list A) :
  (∀ x, x ∈ l → f x = g x) → py_sum (f <$> l) = py_sum (g <$> l).
Proof.
  intros Hfg. f_equal. apply list_fmap_ext. intros i x Hx. apply Hfg.
  by eapply list_elem_of_lookup_2.
Qed.

Lemma py_sum_fmap_zero {A} (f : A → Z) (l : list A) :
  (∀ x, x ∈ l → f x = 0) → py_sum (f <$> l) = 0.
Proof.
  induction l as [|x l IH]; intros Hl; [done|].
  rewrite fmap_cons, py_sum_cons, IH, Hl; [done | left |].
  intros y Hy. apply Hl. by right.
Qed.

(** ** Python dictionaries *)

Module PyDict.
Section dict.
Context {K V : Type} `{EqDecision K}.

(** [d.get(k)] *)
Fixpoint get (k : K) (d : list (K * V)) : option V :=
  match d with
  | [] => None
  | (k', v) :: d' => if decide (k' = k) then Some v else get k d'
  end.

(** [d[k] = v]: an existing key keeps its place, a new key goes last. *)
Fixpoint set (k : K) (v : V) (d : list (K * V)) : list (K * V) :=
  match d with
  | [] => [(k, v)]
  | (k', v') :: d' =>
      if decide (k' = k) then (k', v) :: d' else (k', v') :: set k v d'
  end.

(** [k in d] *)
Definition mem (k : K) (d : list (K * V)) : bool :=
  match get k d with Some _ => true | None => false end.

Definition keys (d : list (K * V)) : list K := d.*1.
Definition values (d : list (K * V)) : list V := d.*2.

Lemma get_set_eq k v d : get k (set k v d) = Some v.
Proof.
  induction d as [|[k' v'] d IH]; simpl.
  - by rewrite decide_True.
  - destruct (decide (k' = k)) as [->|Hne]; simpl.
    + by rewrite decide_True.
    + by rewrite decide_False.
Qed.

Lemma get_set_ne k k' v d : k ≠ k' → get k' (set k v d) = get k' d.
Proof.
  intros Hne. induction d as [|[k0 v0] d IH]; simpl.
  - by rewrite decide_False.
  - destruct (decide (k0 = k)) as [->|Hne0]; simpl.
    + by rewrite !decide_False.
    + by rewrite IH.
Qed.

Lemma get_None k d : get k d = None ↔ k ∉ keys d.
Proof.
  unfold keys. induction d as [|[k' v'] d IH]; simpl.
  - split; [intros _; apply not_elem_of_nil | done].
  - rewrite not_elem_of_cons. destruct (decide (k' = k)) as [->|Hne].
    + split; [done | by intros [? _]].
    + rewrite IH. split; [intros ?; split; [congruence | done] | by intros [_ ?]].
Qed.

Lemma get_Some_elem_of k v d : get k d = Some v → (k, v) ∈ d.
Proof.
  induction d as [|[k' v'] d IH]; simpl; [done|].
  destruct (decide (k' = k)) as [->|Hne].
  - intros [= ->]. apply list_elem_of_here.
  - intros H. apply list_elem_of_further. auto.
Qed.

Lemma elem_of_get k v d : NoDup (keys d) → (k, v) ∈ d → get k d = Some v.
Proof.
  unfold keys. induction d as [|[k' v'] d IH]; simpl.
  - intros _ H. by apply elem_of_nil in H.
  - rewrite NoDup_cons. intros [Hk Hd] [[= -> ->]|Hin]%elem_of_cons.
    + by rewrite decide_True.
    + rewrite decide_False; [auto|].
      intros ->. apply Hk. apply list_elem_of_fmap. by exists (k, v).
Qed.

Lemma keys_set k v d :
  keys (set k v d) = if mem k d then keys d else keys d ++ [k].
Proof.
  unfold mem, keys. induction d as [|[k' v'] d IH]; simpl; [done|].
  destruct (decide (k' = k)) as [->|Hne]; simpl; [done|].
  destruct (get k d); simpl in *; by f_equal.
Qed.

Lemma keys_set_NoDup k v d : NoDup (keys d) → NoDup (keys (set k v d)).
Proof.
  intros Hd. rewrite keys_set. unfold mem.
  destruct (get k d) eqn:Hg; [done|].
  apply NoDup_app. split_and!; [done | | apply NoDup_singleton].
  intros x Hx ->%list_elem_of_singleton. by apply get_None in Hg.
Qed.

Lemma elem_of_keys_set k k' v d :
  k' ∈ keys (set k v d) ↔ k' = k ∨ k' ∈ keys d.
Proof.
  rewrite keys_set. unfold mem. destruct (get k d) eqn:Hg.
  - split; [auto|]. intros [->|]; [|done].
    destruct (decide (k ∈ keys d)) as [|Hn]; [done|].
    apply get_None in Hn. congruence.
  - rewrite elem_of_app, list_elem_of_singleton. tauto.
Qed.

Lemma set_absent k v d : get k d = None → set k v d = d ++ [(k, v)].
Proof.
  induction d as [|[k' v'] d IH]; simpl; [done|].
  destruct (decide (k' = k)); [done|]. intros Hg. by rewrite IH.
Qed.

Lemma elem_of_set k v kv d :
  kv ∈ set k v d → kv = (k, v) ∨ kv ∈ d.
Proof.
  induction d as [|[k' v'] d IH]; simpl.
  - intros ->%list_elem_of_singleton. by left.
  - destruct (decide (k' = k)) as [->|Hne];
      intros [->|Hin]%elem_of_cons; rewrite ?elem_of_cons; auto.
    destruct (IH Hin); auto.
Qed.

Lemma Forall_set (P : K * V → Prop) k v d :
  P (k, v) → Forall P d → Forall P (set k v d).
Proof.
  intros Hkv Hd. apply Forall_forall. intros kv [->|Hin]%elem_of_set; [done|].
  by eapply Forall_forall in Hd.
Qed.

Lemma elem_of_keys_get k d : k ∈ keys d ↔ is_Some (get k d).
Proof.
  destruct (get k d) eqn:Hg.
  - split; [eauto|]. intros _. destruct (decide (k ∈ keys d)) as [|Hn]; [done|].
    apply get_None in Hn. congruence.
  - apply get_None in Hg. split; [done | by intros [? [=]]].
Qed.

Lemma elem_of_values_set k v x d :
  get k d = None → x ∈ values (set k v d) ↔ x = v ∨ x ∈ values d.
Proof.
  intros Hg. rewrite (set_absent _ _ _ Hg). unfold values.
  rewrite fmap_app, elem_of_app. simpl. rewrite list_elem_of_singleton. tauto.
Qed.

End dict.
End PyDict.

(** ** The snapshot document *)

(** The six severities, as the scripts spell their lower-case keys. *)
Definition severities : list string :=
  ["critical"; "high"; "medium"; "low"; "negligible"; "unknown"].

(** The JSON document that [scan.py] writes and [compare.py] reads.  A level
    ([os_level], [app_level], [total]) is a JSON object from severity name to
    count.  [compare.py] reads every level with [.get(key, {})] and the image
    list with [.get("images", [])], so an absent key is the empty dictionary
    or list here. *)
Module Snapshot.
Record image_entry := {
  image : string;
  os_level : list (string * Z);
  app_level : list (string * Z);
  total : list (string * Z)
}.
Record t := {
  timestamp : option string;
  images : list image_entry;
  summary : list (string * list (string * Z))
}.
End Snapshot.

(** ** scripts/scan.py *)

Module Scan.

Record VulnerabilityStats := mkStats {
  critical : Z;
  high : Z;
  medium : Z;
  low : Z;
  negligible : Z;
  unknown : Z
}.

(** [VulnerabilityStats()] *)
Definition new_stats : VulnerabilityStats := mkStats 0 0 0 0 0 0.

Definition total (s : VulnerabilityStats) : Z :=
  critical s + high s + medium s + low s + negligible s + unknown s.

Record ImageVulnerabilities := {
  image_name : string;
  os_level : VulnerabilityStats;
  app_level : VulnerabilityStats
}.

(** One entry of Grype's [matches] array, with the two fields the script
    reads: [vulnerability.severity] and [artifact.type].  [None] is an absent
    key (or an absent enclosing object), for which the script substitutes its
    default. *)
Record grype_match := {
  severity : option string;
  artifact_type : option string
}.

Definition os_level_types : list string := ["deb"; "rpm"; "apk"; "jar"; "rpm"].

Definition app_level_types : list string :=
  ["npm"; "pip"; "gem"; "maven"; "composer"; "cargo"; "nuget"; "go"].

Definition categorize_vulnerability (vuln : grype_match) : string * string :=
  let package_type := lower (default "" (artifact_type vuln)) in
  if bool_decide (package_type ∈ os_level_types) then ("os_level", package_type)
  else if bool_decide (package_type ∈ app_level_types) then ("app_level", package_type)
  else ("app_level", package_type).

(** The [if]/[elif] chain that increments one severity counter of [stats]. *)
Definition increment (severity : string) (stats : VulnerabilityStats) : VulnerabilityStats :=
  let '(mkStats c h m l n u) := stats in
  if (severity =? "critical")%string then mkStats (c + 1) h m l n u
  else if (severity =? "high")%string then mkStats c (h + 1) m l n u
  else if (severity =? "medium")%string then mkStats c h (m + 1) l n u
  else if (severity =? "low")%string then mkStats c h m (l + 1) n u
  else if (severity =? "negligible")%string then mkStats c h m l (n + 1) u
  else mkStats c h m l n (u + 1).

(** The body of the loop over [matches]; the state is the pair
    [(os_stats, app_stats)], and [stats] aliases one of the two. *)
Definition process_match (st : VulnerabilityStats * VulnerabilityStats)
    (vuln : grype_match) : VulnerabilityStats * VulnerabilityStats :=
  let '(os_stats, app_stats) := st in
  let severity := lower (default "unknown" (severity vuln)) in
  let '(category, _) := categorize_vulnerability vuln in
  if (category =? "os_level")%string
  then (increment severity os_stats, app_stats)
  else (os_stats, increment severity app_stats).

(** The argument is [grype_output.get('matches', [])]. *)
Definition process_grype_results (matches : list grype_match)
    : VulnerabilityStats * VulnerabilityStats :=
  foldl process_match (new_stats, new_stats) matches.

(** The twelve severity counters of the two records, OS level first. *)
Definition counters (st : VulnerabilityStats * VulnerabilityStats) : list Z :=
  let '(o, a) := st in
  [critical o; high o; medium o; low o; negligible o; unknown o;
   critical a; high a; medium a; low a; negligible a; unknown a].

(** The JSON object written for one level. *)
Definition level_json (c h m l n u t : Z) : list (string * Z) :=
  [("critical", c); ("high", h); ("medium", m); ("low", l);
   ("negligible", n); ("unknown", u); ("total", t)].

Definition image_data (result : ImageVulnerabilities) : Snapshot.image_entry :=
  let o := os_level result in
  let a := app_level result in
  {| Snapshot.image := image_name result;
     Snapshot.os_level :=
       level_json (critical o) (high o) (medium o) (low o) (negligible o)
         (unknown o) (total o);
     Snapshot.app_level :=
       level_json (critical a) (high a) (medium a) (low a) (negligible a)
         (unknown a) (total a);
     Snapshot.total :=
       level_json (critical o + critical a) (high o + high a)
         (medium o + medium a) (low o + low a) (negligible o + negligible a)
         (unknown o + unknown a) (total o + total a) |}.

(** [sum(f(r) for r in results)] *)
Definition sum_over (f : ImageVulnerabilities → Z) (results : list ImageVulnerabilities) : Z :=
  py_sum (f <$> results).

(** The document [save_results_to_json] dumps to the output file; [now] is
    [datetime.now().isoformat()]. *)
Definition save_results_to_json (now : string) (results : list ImageVulnerabilities)
    : Snapshot.t :=
  {| Snapshot.timestamp := Some now;
     Snapshot.images := image_data <$> results;
     Snapshot.summary :=
       [("os_level",
         level_json
           (sum_over (λ r, critical (os_level r)) results)
           (sum_over (λ r, high (os_level r)) results)
           (sum_over (λ r, medium (os_level r)) results)
           (sum_over (λ r, low (os_level r)) results)
           (sum_over (λ r, negligible (os_level r)) results)
           (sum_over (λ r, unknown (os_level r)) results)
           (sum_over (λ r, total (os_level r)) results));
        ("app_level",
         level_json
           (sum_over (λ r, critical (app_level r)) results)
           (sum_over (λ r, high (app_level r)) results)
           (sum_over (λ r, medium (app_level r)) results)
           (sum_over (λ r, low (app_level r)) results)
           (sum_over (λ r, negligible (app_level r)) results)
           (sum_over (λ r, unknown (app_level r)) results)
           (sum_over (λ r, total (app_level r)) results));
        ("total",
         level_json
           (sum_over (λ r, critical (os_level r) + critical (app_level r)) results)
           (sum_over (λ r, high (os_level r) + high (app_level r)) results)
           (sum_over (λ r, medium (os_level r) + medium (app_level r)) results)
           (sum_over (λ r, low (os_level r) + low (app_level r)) results)
           (sum_over (λ r, negligible (os_level r) + negligible (app_level r)) results)
           (sum_over (λ r, unknown (os_level r) + unknown (app_level r)) results)
           (sum_over (λ r, total (os_level r) + total (app_level r)) results))] |}.

(** *** Sums *)

Lemma sum_over_nil f : sum_over f [] = 0.
Proof. reflexivity. Qed.

Lemma sum_over_cons f r results :
  sum_over f (r :: results) = f r + sum_over f results.
Proof. unfold sum_over. rewrite fmap_cons. apply py_sum_cons. Qed.

Lemma sum_over_add f g results :
  sum_over (λ r, f r + g r) results = sum_over f results + sum_over g results.
Proof.
  induction results as [|r results IH]; [reflexivity|].
  rewrite !sum_over_cons, IH. lia.
Qed.

(** *** Counting Grype matches *)

Example process_grype_results_sample :
  process_grype_results
    [ {| severity := Some "High"; artifact_type := Some "deb" |};
      {| severity := Some "Critical"; artifact_type := Some "binary" |};
      {| severity := Some "weird"; artifact_type := Some "NPM" |};
      {| severity := None; artifact_type := None |} ]
  = (mkStats 0 1 0 0 0 0, mkStats 1 0 0 0 0 2).
Proof. reflexivity. Qed.

Lemma increment_total severity stats :
  total (increment severity stats) = total stats + 1.
Proof.
  destruct stats as [c h m l n u]. unfold increment.
  repeat case_match; unfold total; simpl; lia.
Qed.

(** [increment] adds one to exactly one of the six counters. *)
Lemma increment_one_counter severity stats :
  ∃ i, (i < 6)%nat ∧
    counters (increment severity stats, new_stats) =
    alter Z.succ i (counters (stats, new_stats)).
Proof.
  destruct stats as [c h m l n u]. unfold increment.
  repeat case_match;
    [exists 0%nat | exists 1%nat | exists 2%nat | exists 3%nat | exists 4%nat | exists 5%nat];
    (split; [lia | reflexivity]).
Qed.

Lemma process_match_one_counter st vuln :
  ∃ i, (i < 12)%nat ∧
    counters (process_match st vuln) = alter Z.succ i (counters st).
Proof.
  destruct st as [o a]. unfold process_match.
  destruct (categorize_vulnerability vuln) as [category ty].
  set (sev := lower (default "unknown" (severity vuln))).
  destruct (category =? "os_level")%string.
  - destruct (increment_one_counter sev o) as (i & Hi & Heq).
    exists i. split; [lia|].
    destruct o as [c h m l n u], a as [c' h' m' l' n' u'].
    destruct (increment sev _) as [c1 h1 m1 l1 n1 u1].
    simpl in Heq |- *.
    do 6 (destruct i as [|i]; [simpl in Heq |- *; congruence|]). lia.
  - destruct (increment_one_counter sev a) as (i & Hi & Heq).
    exists (6 + i)%nat. split; [lia|].
    destruct o as [c h m l n u], a as [c' h' m' l' n' u'].
    destruct (increment sev _) as [c1 h1 m1 l1 n1 u1].
    simpl in Heq |- *.
    do 6 (destruct i as [|i]; [simpl in Heq |- *; congruence|]). lia.
Qed.

Lemma process_match_total st vuln :
  total (process_match st vuln).1 + total (process_match st vuln).2 =
  total st.1 + total st.2 + 1.
Proof.
  destruct st as [o a]. unfold process_match.
  destruct (categorize_vulnerability vuln) as [category ty].
  destruct (category =? "os_level")%string; simpl;
    rewrite increment_total; lia.
Qed.

Lemma process_grype_results_snoc matches vuln :
  process_grype_results (matches ++ [vuln]) =
  process_match (process_grype_results matches) vuln.
Proof. unfold process_grype_results. by rewrite foldl_app. Qed.

Lemma process_grype_results_total matches :
  total (process_grype_results matches).1 + total (process_grype_results matches).2 =
  Z.of_nat (length matches).
Proof.
  induction matches as [|vuln matches IH] using rev_ind; [reflexivity|].
  rewrite process_grype_results_snoc, process_match_total, IH, length_app.
  simpl. lia.
Qed.

Lemma categorize_unrecognized vuln :
  let package_type := lower (default "" (artifact_type vuln)) in
  package_type ∉ os_level_types →
  categorize_vulnerability vuln = ("app_level", package_type).
Proof.
  intros package_type Hos. unfold categorize_vulnerability.
  fold package_type. rewrite bool_decide_eq_false_2 by done.
  by destruct (bool_decide _).
Qed.

(** C10.  [process_grype_results] counts every entry of [matches] exactly
    once: the twelve severity counters of the two records add up to the number
    of matches; processing one more match adds one to exactly one of the
    twelve counters and leaves the other eleven alone; and a match whose
    package type lies outside both the OS set and the application set is
    counted in the [app_level] record, the [os_level] record staying as it
    was. *)
Theorem process_grype_results_counts_each_match_once
    (matches : list grype_match) (vuln : grype_match) :
  let st := process_grype_results matches in
  let st' := process_grype_results (matches ++ [vuln]) in
  let package_type := lower (default "" (artifact_type vuln)) in
  total st.1 + total st.2 = Z.of_nat (length matches)
  ∧ (∃ i, (i < 12)%nat ∧ counters st' = alter Z.succ i (counters st))
  ∧ (package_type ∉ os_level_types → package_type ∉ app_level_types →
     (categorize_vulnerability vuln).1 = "app_level"
     ∧ st'.1 = st.1 ∧ total st'.2 = total st.2 + 1).
Proof.
  intros st st' package_type. subst st st'. split_and!.
  - apply process_grype_results_total.
  - rewrite process_grype_results_snoc. apply process_match_one_counter.
  - intros Hos _. rewrite process_grype_results_snoc.
    pose proof (categorize_unrecognized vuln Hos) as Hcat.
    destruct (process_grype_results matches) as [o a].
    unfold process_match. fold package_type in Hcat. rewrite Hcat. simpl.
    split_and!; [done..|]. apply increment_total.
Qed.

(** A match of package type [binary] (in neither set) after one Debian
    match. *)
Lemma process_grype_results_counts_each_match_once_witness :
  let m1 := {| severity := Some "High"; artifact_type := Some "deb" |} in
  let m2 := {| severity := Some "Medium"; artifact_type := Some "binary" |} in
  (categorize_vulnerability m2).1 = "app_level"
  ∧ (process_grype_results ([m1] ++ [m2])).1 = (process_grype_results [m1]).1
  ∧ total (process_grype_results ([m1] ++ [m2])).2 =
    total (process_grype_results [m1]).2 + 1.
Proof.
  intros m1 m2.
  apply (process_grype_results_counts_each_match_once [m1] m2);
    apply (bool_decide_eq_false_1 _); reflexivity.
Defined.

(** *** The snapshot written by [save_results_to_json] *)

Example save_results_to_json_sample :
  Snapshot.total <$> Snapshot.images (save_results_to_json "t"
    [ {| image_name := "app:1"; os_level := mkStats 1 2 0 0 0 0;
         app_level := mkStats 4 0 0 0 0 1 |} ])
  = [ level_json 5 2 0 0 0 1 8 ].
Proof. reflexivity. Qed.

(** The three levels of one JSON object agree on every severity: each key is
    present and the total is the sum of the two components. *)
Definition total_is_sum (os app tot : list (string * Z)) : Prop :=
  Forall (λ sev, ∃ o a,
            PyDict.get sev os = Some o ∧ PyDict.get sev app = Some a
            ∧ PyDict.get sev tot = Some (o + a)) severities.

Lemma image_data_total_is_sum result :
  total_is_sum (Snapshot.os_level (image_data result))
    (Snapshot.app_level (image_data result))
    (Snapshot.total (image_data result)).
Proof.
  unfold total_is_sum, severities. repeat constructor; simpl; eauto.
Qed.

(** C2.  In the snapshot that [save_results_to_json] writes, every image
    entry and the summary block carry, for each of the six severities, a total
    equal to the OS-level count plus the application-level count.  The input
    records ([ImageVulnerabilities]) hold the two components only, so the
    total is computed from them each time. *)
Theorem save_results_to_json_total_invariant
    (now : string) (results : list ImageVulnerabilities) :
  let snap := save_results_to_json now results in
  Forall (λ e, total_is_sum (Snapshot.os_level e) (Snapshot.app_level e)
                 (Snapshot.total e)) (Snapshot.images snap)
  ∧ ∃ os app tot,
      PyDict.get "os_level" (Snapshot.summary snap) = Some os
      ∧ PyDict.get "app_level" (Snapshot.summary snap) = Some app
      ∧ PyDict.get "total" (Snapshot.summary snap) = Some tot
      ∧ total_is_sum os app tot.
Proof.
  simpl. split.
  - apply Forall_fmap, Forall_forall. intros r _.
    apply image_data_total_is_sum.
  - do 3 eexists. split_and!; [reflexivity..|].
    unfold total_is_sum, severities.
    repeat constructor; simpl; do 2 eexists;
      (split_and!; [reflexivity..|]); f_equal; apply sum_over_add.
Qed.

(** *** Counting is additive *)

(** Field-wise sum of two statistics records. *)
Definition add_stats (a b : VulnerabilityStats) : VulnerabilityStats :=
  mkStats (critical a + critical b) (high a + high b) (medium a + medium b)
    (low a + low b) (negligible a + negligible b) (unknown a + unknown b).

Definition add_pair (s t : VulnerabilityStats * VulnerabilityStats)
    : VulnerabilityStats * VulnerabilityStats :=
  (add_stats s.1 t.1, add_stats s.2 t.2).

Lemma stats_eq a b :
  critical a = critical b → high a = high b → medium a = medium b →
  low a = low b → negligible a = negligible b → unknown a = unknown b → a = b.
Proof. destruct a, b. simpl. by intros -> -> -> -> -> ->. Qed.

Lemma add_stats_new_l a : add_stats new_stats a = a.
Proof. by destruct a. Qed.

Lemma add_stats_new_r a : add_stats a new_stats = a.
Proof. destruct a. unfold add_stats. simpl. by rewrite !Z.add_0_r. Qed.

Lemma add_stats_comm a b : add_stats a b = add_stats b a.
Proof. apply stats_eq; simpl; lia. Qed.

Lemma add_stats_assoc a b c :
  add_stats a (add_stats b c) = add_stats (add_stats a b) c.
Proof. apply stats_eq; simpl; lia. Qed.

Lemma add_pair_comm s t : add_pair s t = add_pair t s.
Proof. unfold add_pair. by rewrite (add_stats_comm s.1), (add_stats_comm s.2). Qed.

Lemma add_pair_assoc s t u : add_pair s (add_pair t u) = add_pair (add_pair s t) u.
Proof. unfold add_pair. simpl. by rewrite !add_stats_assoc. Qed.

Lemma increment_add severity a b :
  increment severity (add_stats a b) = add_stats a (increment severity b).
Proof.
  destruct a, b. unfold increment, add_stats. simpl.
  repeat case_match; apply stats_eq; simpl; lia.
Qed.

(** What one match contributes, whatever was counted before. *)
Lemma process_match_add st vuln :
  process_match st vuln = add_pair st (process_match (new_stats, new_stats) vuln).
Proof.
  destruct st as [o a]. unfold process_match, add_pair.
  destruct (categorize_vulnerability vuln) as [category ty].
  destruct (category =? "os_level")%string; cbn [fst snd].
  - by rewrite <- increment_add, !add_stats_new_r.
  - by rewrite <- increment_add, !add_stats_new_r.
Qed.

Lemma process_grype_results_cons vuln matches :
  process_grype_results (vuln :: matches) =
  add_pair (process_match (new_stats, new_stats) vuln) (process_grype_results matches).
Proof.
  unfold process_grype_results. cbn [foldl].
  generalize (process_match (new_stats, new_stats) vuln). intros s.
  induction matches as [|m matches IH] using rev_ind.
  - unfold add_pair. cbn [foldl fst snd]. rewrite !add_stats_new_r. by destruct s.
  - rewrite !foldl_app. cbn [foldl]. rewrite IH, (process_match_add (add_pair _ _)).
    rewrite (process_match_add (foldl _ _ _)). by rewrite add_pair_assoc.
Qed.

Lemma process_grype_results_app matches1 matches2 :
  process_grype_results (matches1 ++ matches2) =
  add_pair (process_grype_results matches1) (process_grype_results matches2).
Proof.
  induction matches1 as [|vuln matches1 IH].
  - unfold add_pair. cbn [app process_grype_results foldl fst snd].
    change (foldl process_match (new_stats, new_stats) matches2)
      with (process_grype_results matches2).
    rewrite !add_stats_new_l. by destruct (process_grype_results matches2).
  - rewrite <- app_comm_cons, !process_grype_results_cons, IH.
    by rewrite add_pair_assoc.
Qed.

Definition nonneg_stats (s : VulnerabilityStats) : Prop :=
  0 ≤ critical s ∧ 0 ≤ high s ∧ 0 ≤ medium s ∧ 0 ≤ low s
  ∧ 0 ≤ negligible s ∧ 0 ≤ unknown s.

Lemma counters_nonneg o a :
  Forall (λ c, 0 ≤ c) (counters (o, a)) ↔ nonneg_stats o ∧ nonneg_stats a.
Proof.
  unfold counters, nonneg_stats. rewrite !Forall_cons, Forall_nil. tauto.
Qed.

Lemma increment_nonneg severity stats :
  nonneg_stats stats → nonneg_stats (increment severity stats).
Proof.
  destruct stats as [c h m l n u]. unfold increment, nonneg_stats. simpl.
  intros. destruct_and!. repeat case_match; simpl; lia.
Qed.

(** X11.  The counts do not depend on how the matches are split or ordered:
    the statistics of two lists of matches put together are the field-wise
    sums of their statistics, two lists with the same matches in a different
    order give the same statistics, no match gives all zeros, and no counter
    is ever negative. *)
Theorem process_grype_results_additive (matches1 matches2 : list grype_match) :
  process_grype_results [] = (new_stats, new_stats)
  ∧ process_grype_results (matches1 ++ matches2) =
    (add_stats (process_grype_results matches1).1 (process_grype_results matches2).1,
     add_stats (process_grype_results matches1).2 (process_grype_results matches2).2)
  ∧ (matches1 ≡ₚ matches2 →
     process_grype_results matches1 = process_grype_results matches2)
  ∧ Forall (λ c, 0 ≤ c) (counters (process_grype_results matches1)).
Proof.
  split_and!.
  - done.
  - apply process_grype_results_app.
  - induction 1 as [|x l k _ IH|x y l|l k m _ IH1 _ IH2].
    + done.
    + by rewrite !process_grype_results_cons, IH.
    + rewrite !process_grype_results_cons, !add_pair_assoc.
      by rewrite (add_pair_comm (process_match _ y)).
    + congruence.
  - induction matches1 as [|vuln matches IH] using rev_ind.
    + apply counters_nonneg. unfold nonneg_stats. simpl. lia.
    + rewrite process_grype_results_snoc.
      destruct (process_grype_results matches) as [o a].
      apply counters_nonneg in IH as [Ho Ha].
      unfold process_match. destruct (categorize_vulnerability vuln) as [category ty].
      destruct (category =? "os_level")%string; apply counters_nonneg;
        (split; [|done]) || (split; [done|]); by apply increment_nonneg.
Qed.

Lemma process_grype_results_additive_witness :
  let m1 := {| severity := Some "High"; artifact_type := Some "deb" |} in
  let m2 := {| severity := Some "low"; artifact_type := Some "npm" |} in
  process_grype_results [m1; m2; m1] = process_grype_results [m1; m1; m2].
Proof.
  intros m1 m2.
  destruct (process_grype_results_additive [m1; m2; m1] [m1; m1; m2])
    as (_ & _ & Hperm & _).
  apply Hperm. apply perm_skip, perm_swap.
Defined.

(** *** From the scans to the snapshot *)

(** What [scan_image_with_grype] returns for an image, as [main] uses it:
    [None] is the empty dictionary (the scanner's output did not parse), and
    [Some matches] a document whose [matches] array, empty when the key is
    absent, is [matches]. *)
Definition grype_output := option (list grype_match).

(** The loop of [main] that builds [results]: an image whose scan gave the
    empty dictionary is skipped. *)
Definition collect_results (scans : list (string * grype_output))
    : list ImageVulnerabilities :=
  omap (λ scan,
          match scan.2 with
          | Some matches =>
              let '(os_stats, app_stats) := process_grype_results matches in
              Some {| image_name := scan.1; os_level := os_stats;
                      app_level := app_stats |}
          | None => None
          end) scans.

(** A level object with its seven keys, whose [total] is the sum of the six
    severity counts. *)
Definition level_complete (level : list (string * Z)) : Prop :=
  ∃ c h m l n u, level = level_json c h m l n u (c + h + m + l + n + u).

Lemma level_json_complete c h m l n u t :
  t = c + h + m + l + n + u → level_complete (level_json c h m l n u t).
Proof. intros ->. by exists c, h, m, l, n, u. Qed.

(** X12.  Every level object of a written snapshot (the three levels of each
    image and the three levels of the summary) has all seven keys, the six
    severities and [total], and its [total] is the sum of its six severity
    counts. *)
Theorem save_results_to_json_levels_complete
    (now : string) (results : list ImageVulnerabilities) :
  let snap := save_results_to_json now results in
  Forall (λ e, level_complete (Snapshot.os_level e)
               ∧ level_complete (Snapshot.app_level e)
               ∧ level_complete (Snapshot.total e)) (Snapshot.images snap)
  ∧ PyDict.keys (Snapshot.summary snap) = ["os_level"; "app_level"; "total"]
  ∧ Forall (λ item, level_complete item.2) (Snapshot.summary snap).
Proof.
  simpl. split_and!; [|done|].
  - apply Forall_fmap, Forall_forall. intros r _.
    split_and!; apply level_json_complete; unfold total; lia.
  - repeat constructor; apply level_json_complete;
      (induction results as [|r results IH]; [done|]);
      rewrite !sum_over_cons; unfold total in *; lia.
Qed.

Lemma collect_results_cons_Some name matches scans :
  collect_results ((name, Some matches) :: scans) =
  {| image_name := name; os_level := (process_grype_results matches).1;
     app_level := (process_grype_results matches).2 |} :: collect_results scans.
Proof.
  unfold collect_results. simpl. by destruct (process_grype_results matches).
Qed.

(** The images whose scan produced a document, with their matches. *)
Definition scanned (scans : list (string * grype_output))
    : list (string * list grype_match) :=
  omap (λ scan, pair scan.1 <$> scan.2) scans.

Lemma scanned_cons_Some name matches scans :
  scanned ((name, Some matches) :: scans) = (name, matches) :: scanned scans.
Proof. reflexivity. Qed.

Lemma scanned_cons_None name scans :
  scanned ((name, None) :: scans) = scanned scans.
Proof. reflexivity. Qed.

Lemma collect_results_cons_None name scans :
  collect_results ((name, None) :: scans) = collect_results scans.
Proof. reflexivity. Qed.

(** X13.  From the scans to the snapshot: the snapshot has one entry for
    each image whose scan produced a document, in scan order, and none for an
    image whose scan produced nothing; the entry's grand total
    ([total.total]) is the number of matches of that image, and the grand
    total of the summary is the number of matches of all these images. *)
Theorem snapshot_counts_all_matches
    (now : string) (scans : list (string * grype_output)) :
  let snap := save_results_to_json now (collect_results scans) in
  (λ e, (Snapshot.image e, PyDict.get "total" (Snapshot.total e)))
    <$> Snapshot.images snap
  = (λ s, (s.1, Some (Z.of_nat (length s.2)))) <$> scanned scans
  ∧ ∃ tot, PyDict.get "total" (Snapshot.summary snap) = Some tot
      ∧ PyDict.get "total" tot = Some (Z.of_nat (length (scanned scans ≫= snd))).
Proof.
  cbv zeta. split.
  - cbn [save_results_to_json Snapshot.images]. rewrite <- list_fmap_compose.
    induction scans as [|[name [matches|]] scans IH]; [done| |].
    + rewrite collect_results_cons_Some, scanned_cons_Some, !fmap_cons, IH.
      f_equal. cbn. f_equal. f_equal. apply process_grype_results_total.
    + by rewrite collect_results_cons_None, scanned_cons_None.
  - eexists. split; [reflexivity|]. cbn [PyDict.get level_json]. simpl decide.
    f_equal.
    induction scans as [|[name [matches|]] scans IH]; [done| |].
    + rewrite collect_results_cons_Some, scanned_cons_Some, sum_over_cons, IH.
      rewrite bind_cons, length_app. cbn [os_level app_level snd].
      rewrite process_grype_results_total. lia.
    + by rewrite collect_results_cons_None, scanned_cons_None.
Qed.

Example snapshot_counts_sample :
  let m := {| severity := Some "High"; artifact_type := Some "deb" |} in
  let snap := save_results_to_json "t"
                (collect_results [("a:1", Some [m; m]); ("b:1", None); ("c:1", Some [])]) in
  Snapshot.image <$> Snapshot.images snap = ["a:1"; "c:1"]
  ∧ PyDict.get "os_level" (Snapshot.summary snap)
    = Some (level_json 0 2 0 0 0 0 2).
Proof. by split. Qed.

End Scan.

(** ** scripts/merge-scan-results.py *)

Module Merge.

(** *** JSON values *)

(** What [json.load] returns.  A JSON number without fraction or exponent is a
    Python [int], any other number a [float] (IEEE binary64, as Rocq's
    primitive floats); an object is a dictionary in document order. *)
Inductive json :=
| JNull
| JBool (b : bool)
| JInt (z : Z)
| JFloat (f : float)
| JStr (s : string)
| JList (l : list json)
| JDict (d : list (string * json)).

(** Python's truth value of an object ([bool(v)]). *)
Definition truthy (v : json) : bool :=
  match v with
  | JNull => false
  | JBool b => b
  | JInt z => negb (z =? 0)
  | JFloat f => negb (PrimFloat.eqb f 0%float)
  | JStr s => negb (s =? "")%string
  | JList l => match l with [] => false | _ => true end
  | JDict d => match d with [] => false | _ => true end
  end.

(** [a or b] *)
Definition py_or (a b : json) : json := if truthy a then a else b.

(** [d[k]] for a key that is present. *)
Definition index (k : string) (d : list (string * json)) : json :=
  default JNull (PyDict.get k d).

(** *** Severity *)

(** The fixed enumeration of the data model. *)
Definition severity_enum : list string :=
  ["CRITICAL"; "HIGH"; "MEDIUM"; "LOW"; "NEGLIGIBLE"; "UNKNOWN"].

(** [severity.upper() if severity else "UNKNOWN"]; [None] is a JSON [null]. *)
Definition normalize_severity (severity : option string) : string :=
  match severity with
  | Some s => if negb (s =? "")%string then upper s else "UNKNOWN"
  | None => "UNKNOWN"
  end.

(** *** Findings *)

Record finding := mkFinding {
  id : string;
  package : string;
  version : string;
  severity : string;
  title : string;
  description : string;
  fixed_version : string;
  cvss_score : json;
  cvss_v2_score : json;
  cvss_v3_score : json;
  cvss_vector : json;
  references : list string;
  target : string;
  type : string;
  source : string;
  (** The key [found_by] is absent until the merge assigns it; the merge
      never reads it before that, and the empty list stands for the absent
      key. *)
  found_by : list string
}.

(** One entry of a Trivy [Vulnerabilities] array.  A text field that is
    absent in the document holds the default [""] that [.get] substitutes, an
    absent [References] is [[]] and an absent [CVSS] is the empty
    dictionary. *)
Record trivy_vuln := {
  VulnerabilityID : string;
  PkgName : string;
  InstalledVersion : string;
  Severity : option string;
  Title : string;
  Description : string;
  FixedVersion : string;
  References : list string;
  CVSS : list (string * json)
}.

Record trivy_result := {
  Target : string;
  Type_ : string;
  Vulnerabilities : list trivy_vuln
}.

(** The body of the loop over [cvss_data.values()]; the state is
    [(cvss_v2_score, cvss_v3_score, cvss_vector)]. *)
Definition cvss_step (acc : json * json * json) (source_data : json)
    : json * json * json :=
  let '(cvss_v2_score, cvss_v3_score, cvss_vector) := acc in
  match source_data with
  | JDict d =>
      let cvss_v2_score :=
        if negb (truthy cvss_v2_score) && PyDict.mem "V2Score" d
        then index "V2Score" d else cvss_v2_score in
      let cvss_v3_score :=
        if negb (truthy cvss_v3_score) && PyDict.mem "V3Score" d
        then index "V3Score" d else cvss_v3_score in
      let cvss_vector :=
        if negb (truthy cvss_vector) && PyDict.mem "V3Vector" d
        then index "V3Vector" d
        else if negb (truthy cvss_vector) && PyDict.mem "V2Vector" d
        then index "V2Vector" d else cvss_vector in
      (cvss_v2_score, cvss_v3_score, cvss_vector)
  | _ => acc
  end.

Definition select_cvss (sources : list json) : json * json * json :=
  foldl cvss_step (JNull, JNull, JNull) sources.

(** The dictionary [normalized] built for one vulnerability. *)
Definition normalize_trivy (target vuln_type : string) (vuln : trivy_vuln) : finding :=
  let '(cvss_v2_score, cvss_v3_score, cvss_vector) :=
    select_cvss (PyDict.values (CVSS vuln)) in
  let cvss_score := py_or cvss_v3_score cvss_v2_score in
  {| id := VulnerabilityID vuln;
     package := PkgName vuln;
     version := InstalledVersion vuln;
     severity := normalize_severity (Severity vuln);
     title := Title vuln;
     description := Description vuln;
     fixed_version := FixedVersion vuln;
     cvss_score := cvss_score;
     cvss_v2_score := cvss_v2_score;
     cvss_v3_score := cvss_v3_score;
     cvss_vector := cvss_vector;
     references := References vuln;
     target := target;
     type := vuln_type;
     source := "trivy";
     found_by := [] |}.

(** The argument is [trivy_data.get("Results", [])]. *)
Definition parse_trivy_results (results : list trivy_result) : list finding :=
  mjoin ((λ result,
             normalize_trivy (Target result) (Type_ result) <$> Vulnerabilities result)
          <$> results).

(** *** The selection rule in the words of the specification *)

(** The values of one score key that the sources hold, in source order. *)
Definition score_values (k : string) (sources : list json) : list json :=
  omap (λ source_data,
          match source_data with JDict d => PyDict.get k d | _ => None end)
       sources.

(** The vectors that the sources hold, in source order, the V3 vector of a
    source before its V2 vector. *)
Definition vector_values (sources : list json) : list json :=
  concat ((λ source_data,
             match source_data with
             | JDict d =>
                 option_list (PyDict.get "V3Vector" d)
                 ++ option_list (PyDict.get "V2Vector" d)
             | _ => []
             end) <$> sources).

(** "The first non-empty value encountered": whenever the values hold a
    non-empty one, [chosen] is the first such. *)
Definition first_nonempty_selected (values : list json) (chosen : json) : Prop :=
  ∀ x, find truthy values = Some x → chosen = x.

(** The vector that one source offers to the loop: its V3 vector when that
    key is present, and its V2 vector otherwise. *)
Definition offered_vector (source_data : json) : option json :=
  match source_data with
  | JDict d =>
      match PyDict.get "V3Vector" d with
      | Some x => Some x
      | None => PyDict.get "V2Vector" d
      end
  | _ => None
  end.

(** *** Case folding *)

Lemma upper_lower_ascii c : upper_ascii (lower_ascii c) = upper_ascii c.
Proof. by destruct c as [[] [] [] [] [] [] [] []]. Qed.

Lemma lower_upper_ascii c : lower_ascii (upper_ascii c) = lower_ascii c.
Proof. by destruct c as [[] [] [] [] [] [] [] []]. Qed.

Lemma upper_lower s : upper (lower s) = upper s.
Proof. induction s as [|c s IH]; simpl; [done|]. by rewrite upper_lower_ascii, IH. Qed.

Lemma lower_upper s : lower (upper s) = lower s.
Proof. induction s as [|c s IH]; simpl; [done|]. by rewrite lower_upper_ascii, IH. Qed.

Lemma severity_enum_upper v : v ∈ severity_enum → upper v = v.
Proof.
  unfold severity_enum. rewrite !elem_of_cons, elem_of_nil.
  intros [->|[->|[->|[->|[->|[->|[]]]]]]]; reflexivity.
Qed.

Lemma severity_enum_nonempty v : v ∈ severity_enum → v ≠ "".
Proof.
  unfold severity_enum. rewrite !elem_of_cons, elem_of_nil.
  intros [->|[->|[->|[->|[->|[->|[]]]]]]]; discriminate.
Qed.

Lemma normalize_severity_nonempty s :
  s ≠ "" → normalize_severity (Some s) = upper s.
Proof. intros Hs. simpl. by destruct s. Qed.

Example normalize_severity_samples :
  normalize_severity (Some "high") = "HIGH"
  ∧ normalize_severity (Some "Critical") = "CRITICAL"
  ∧ normalize_severity (Some "") = "UNKNOWN"
  ∧ normalize_severity None = "UNKNOWN"
  ∧ normalize_severity (Some "moderate") = "MODERATE".
Proof. by repeat split. Qed.

(** C3, as stated, fails: an unrecognized severity is upper-cased, it is not
    mapped to UNKNOWN, and the result lies outside the six-value
    enumeration. *)
Lemma normalize_severity_unrecognized_kept :
  normalize_severity (Some "moderate") = "MODERATE"
  ∧ normalize_severity (Some "moderate") ∉ severity_enum.
Proof.
  split; [reflexivity|]. apply (bool_decide_eq_false_1 _). reflexivity.
Qed.

(** C3, amended.  For a severity of ASCII characters, and for the absent
    severity, [normalize_severity] never fails: it maps the absent and the
    empty severity to UNKNOWN and every other severity to its upper-case
    form; a severity that equals one of the six names up to letter case is
    mapped to that name; and the result is one of the six names exactly when
    the input is empty or equals one of them up to letter case, any other
    severity being returned in upper case and not as UNKNOWN.  Nothing is
    stated of text outside ASCII, where [str.upper] and [str.lower] map more
    than the 26 letters. *)
Theorem normalize_severity_case_normalizes (s : string) :
  ascii_only s = true →
  normalize_severity None = "UNKNOWN"
  ∧ normalize_severity (Some "") = "UNKNOWN"
  ∧ (s ≠ "" → normalize_severity (Some s) = upper s)
  ∧ (∀ v, v ∈ severity_enum → lower s = lower v → normalize_severity (Some s) = v)
  ∧ (normalize_severity (Some s) ∈ severity_enum ↔
     s = "" ∨ ∃ v, v ∈ severity_enum ∧ lower s = lower v).
Proof.
  intros _.
  assert (Hrec : ∀ v, v ∈ severity_enum → lower s = lower v →
                      normalize_severity (Some s) = v).
  { intros v Hv Hlow.
    assert (s ≠ "") as Hs.
    { intros ->. apply (severity_enum_nonempty v Hv). by destruct v. }
    rewrite (normalize_severity_nonempty s Hs).
    by rewrite <- upper_lower, Hlow, upper_lower, severity_enum_upper. }
  split_and!; [done | done | apply normalize_severity_nonempty | done |].
  split.
  - intros Hin. destruct (decide (s = "")) as [|Hs]; [by left | right].
    rewrite (normalize_severity_nonempty s Hs) in Hin.
    exists (upper s). split; [done|]. by rewrite lower_upper.
  - intros [->|(v & Hv & Hlow)].
    + apply (bool_decide_eq_true_1 _). reflexivity.
    + by rewrite (Hrec v Hv Hlow).
Qed.

Lemma normalize_severity_case_normalizes_witness :
  normalize_severity (Some "hIgH") = "HIGH"
  ∧ normalize_severity (Some "hIgH") ∈ severity_enum.
Proof.
  destruct (normalize_severity_case_normalizes "hIgH" eq_refl)
    as (_ & _ & _ & Hrec & Hiff).
  split.
  - apply Hrec; [apply (bool_decide_eq_true_1 _)|]; reflexivity.
  - apply Hiff. right. exists "HIGH".
    split; [apply (bool_decide_eq_true_1 _)|]; reflexivity.
Defined.

(** *** CVSS selection *)

(** What one source holds under a score key. *)
Definition offered_score (k : string) (source_data : json) : option json :=
  match source_data with JDict d => PyDict.get k d | _ => None end.

(** One slot of the loop state, seen on its own: an offered value is taken
    when the slot is still empty. *)
Definition slot_step (cur : json) (offer : option json) : json :=
  match offer with
  | Some y => if truthy cur then cur else y
  | None => cur
  end.

Definition slot_run (offer : json → option json) (cur : json) (sources : list json) : json :=
  foldl (λ cur source_data, slot_step cur (offer source_data)) cur sources.

Lemma slot_run_cons offer cur x sources :
  slot_run offer cur (x :: sources) =
  slot_run offer (slot_step cur (offer x)) sources.
Proof. reflexivity. Qed.

Lemma index_get k d y : PyDict.get k d = Some y → index k d = y.
Proof. unfold index. by intros ->. Qed.

Lemma cvss_step_slots acc source_data :
  cvss_step acc source_data =
  (slot_step acc.1.1 (offered_score "V2Score" source_data),
   slot_step acc.1.2 (offered_score "V3Score" source_data),
   slot_step acc.2 (offered_vector source_data)).
Proof.
  destruct acc as [[v2 v3] vec]. destruct source_data as [| | | | | |d]; try done.
  unfold cvss_step, slot_step, offered_score, offered_vector, PyDict.mem, index.
  simpl.
  destruct (PyDict.get "V2Score" d), (PyDict.get "V3Score" d),
    (PyDict.get "V3Vector" d), (PyDict.get "V2Vector" d),
    (truthy v2), (truthy v3), (truthy vec); reflexivity.
Qed.

Lemma foldl_cvss_step_slots sources acc :
  foldl cvss_step acc sources =
  (slot_run (offered_score "V2Score") acc.1.1 sources,
   slot_run (offered_score "V3Score") acc.1.2 sources,
   slot_run offered_vector acc.2 sources).
Proof.
  revert acc. induction sources as [|x sources IH]; intros acc.
  - by destruct acc as [[? ?] ?].
  - rewrite !slot_run_cons. simpl. by rewrite IH, cvss_step_slots.
Qed.

(** A slot that holds a non-empty value keeps it. *)
Lemma slot_run_set offer cur sources :
  truthy cur = true → slot_run offer cur sources = cur.
Proof.
  intros Hcur. induction sources as [|x sources IH]; [done|].
  rewrite slot_run_cons. unfold slot_step.
  destruct (offer x); rewrite ?Hcur; apply IH.
Qed.

(** An empty slot ends with the first non-empty value that is offered. *)
Lemma slot_run_first offer cur sources :
  truthy cur = false →
  first_nonempty_selected (omap offer sources) (slot_run offer cur sources).
Proof.
  revert cur. induction sources as [|x sources IH]; intros cur Hcur y.
  - discriminate.
  - rewrite slot_run_cons. unfold slot_step. simpl.
    destruct (offer x) as [v|]; simpl.
    + rewrite Hcur. destruct (truthy v) eqn:Hv.
      * intros [= <-]. by apply slot_run_set.
      * by apply IH.
    + by apply IH.
Qed.

(** An empty slot stays empty while no non-empty value is offered. *)
Lemma slot_run_none offer cur sources :
  truthy cur = false → find truthy (omap offer sources) = None →
  truthy (slot_run offer cur sources) = false.
Proof.
  revert cur. induction sources as [|x sources IH]; intros cur Hcur; [done|].
  rewrite slot_run_cons. unfold slot_step. simpl.
  destruct (offer x) as [v|]; simpl.
  - rewrite Hcur. destruct (truthy v) eqn:Hv; [done|]. by apply IH.
  - by apply IH.
Qed.

Lemma slot_run_app offer cur earlier later :
  slot_run offer cur (earlier ++ later) =
  slot_run offer (slot_run offer cur earlier) later.
Proof. unfold slot_run. by rewrite foldl_app. Qed.

Lemma select_cvss_slots sources :
  select_cvss sources =
  (slot_run (offered_score "V2Score") JNull sources,
   slot_run (offered_score "V3Score") JNull sources,
   slot_run offered_vector JNull sources).
Proof. unfold select_cvss. by rewrite foldl_cvss_step_slots. Qed.

(** Where every V3 vector that is present is non-empty, the first non-empty
    vector of the sources is the first non-empty offered one. *)
Lemma find_vector_values sources :
  Forall (λ source_data, ∀ d x, source_data = JDict d →
            PyDict.get "V3Vector" d = Some x → truthy x = true) sources →
  find truthy (vector_values sources) = find truthy (omap offered_vector sources).
Proof.
  induction 1 as [|source_data sources Hx _ IH]; [done|].
  change (vector_values (source_data :: sources)) with
    (match source_data with
     | JDict d =>
         option_list (PyDict.get "V3Vector" d)
         ++ option_list (PyDict.get "V2Vector" d)
     | _ => []
     end ++ vector_values sources).
  change (omap offered_vector (source_data :: sources)) with
    (match offered_vector source_data with
     | Some y => y :: omap offered_vector sources
     | None => omap offered_vector sources
     end).
  destruct source_data as [| | | | | |d]; try done.
  unfold offered_vector.
  destruct (PyDict.get "V3Vector" d) as [x|] eqn:H3; simpl.
  - by rewrite (Hx d x eq_refl H3).
  - destruct (PyDict.get "V2Vector" d) as [y|]; simpl; [|done].
    by rewrite IH.
Qed.

Lemma normalize_trivy_cvss target vuln_type vuln :
  let f := normalize_trivy target vuln_type vuln in
  (cvss_v2_score f, cvss_v3_score f, cvss_vector f) =
    select_cvss (PyDict.values (CVSS vuln))
  ∧ cvss_score f = py_or (cvss_v3_score f) (cvss_v2_score f).
Proof.
  unfold normalize_trivy.
  by destruct (select_cvss (PyDict.values (CVSS vuln))) as [[v2 v3] vec].
Qed.

Lemma elem_of_parse_trivy_results results f :
  f ∈ parse_trivy_results results ↔
  ∃ result vuln, result ∈ results ∧ vuln ∈ Vulnerabilities result
    ∧ f = normalize_trivy (Target result) (Type_ result) vuln.
Proof.
  unfold parse_trivy_results. rewrite list_elem_of_join. split.
  - intros (l & Hf & (result & -> & Hres)%list_elem_of_fmap).
    apply list_elem_of_fmap in Hf as (vuln & -> & Hv). eauto.
  - intros (result & vuln & Hres & Hvuln & ->).
    exists (normalize_trivy (Target result) (Type_ result) <$> Vulnerabilities result).
    split; apply list_elem_of_fmap; eauto.
Qed.

(** Two named sources: the first holds an empty V3 vector next to a V2
    vector, the second a V3 score and a V2 vector of its own. *)
Definition sample_cvss : list (string * json) :=
  [("nvd", JDict [("V3Vector", JStr ""); ("V2Vector", JStr "AV:N/AC:L/Au:N/C:P/I:P/A:P");
                  ("V2Score", JFloat 7.5%float)]);
   ("redhat", JDict [("V3Score", JFloat 9.5%float);
                     ("V2Vector", JStr "AV:L/AC:H/Au:N/C:N/I:N/A:P")])].

Definition sample_trivy_vuln (cvss : list (string * json)) : trivy_vuln :=
  {| VulnerabilityID := "CVE-2024-1"; PkgName := "foo"; InstalledVersion := "1.0";
     Severity := Some "HIGH"; Title := "t"; Description := "d"; FixedVersion := "";
     References := []; CVSS := cvss |}.

Definition sample_trivy_results (cvss : list (string * json)) : list trivy_result :=
  [ {| Target := "app"; Type_ := "debian";
       Vulnerabilities := [sample_trivy_vuln cvss] |} ].

(** C4, as stated, fails for the vector: a source whose [V3Vector] key is
    present but empty makes the loop skip the V2 vector of that source, so the
    first non-empty vector of the sources is not the one selected; here the
    V2 vector of the second source is selected instead. *)
Lemma parse_trivy_results_vector_not_first_nonempty :
  let f := normalize_trivy "app" "debian" (sample_trivy_vuln sample_cvss) in
  parse_trivy_results (sample_trivy_results sample_cvss) = [f]
  ∧ find truthy (vector_values (PyDict.values sample_cvss))
    = Some (JStr "AV:N/AC:L/Au:N/C:P/I:P/A:P")
  ∧ cvss_vector f = JStr "AV:L/AC:H/Au:N/C:N/I:N/A:P"
  ∧ ¬ first_nonempty_selected (vector_values (PyDict.values sample_cvss))
        (cvss_vector f).
Proof.
  split_and!; [reflexivity..|].
  intros H. specialize (H _ eq_refl). discriminate H.
Qed.

(** C4, amended.  For every vulnerability entry of the document, the finding
    that [parse_trivy_results] builds from it is in the returned list, and in
    that finding: the V2 score and the V3 score are each the first non-empty
    value of their key across the sources of the entry, and are empty when
    the sources hold no non-empty value of the key; the vector is the first
    non-empty one among the vectors the sources offer, a source offering its
    V3 vector when that key is present and its V2 vector otherwise, and is
    empty when no non-empty vector is offered (so it is the first non-empty
    vector of the sources whenever no source holds an empty V3 vector); the
    main score is the V3 score when that is non-empty and the V2 score
    otherwise; and a score or vector that is non-empty after some of the
    sources is what the finding carries, whatever the later sources hold.
    The returned list holds no other finding. *)
Theorem parse_trivy_results_cvss_selection
    (results : list trivy_result) (result : trivy_result) (vuln : trivy_vuln) :
  result ∈ results → vuln ∈ Vulnerabilities result →
  let f := normalize_trivy (Target result) (Type_ result) vuln in
  let sources := PyDict.values (CVSS vuln) in
  f ∈ parse_trivy_results results
  ∧ first_nonempty_selected (score_values "V2Score" sources) (cvss_v2_score f)
  ∧ (find truthy (score_values "V2Score" sources) = None →
     truthy (cvss_v2_score f) = false)
  ∧ first_nonempty_selected (score_values "V3Score" sources) (cvss_v3_score f)
  ∧ (find truthy (score_values "V3Score" sources) = None →
     truthy (cvss_v3_score f) = false)
  ∧ first_nonempty_selected (omap offered_vector sources) (cvss_vector f)
  ∧ (find truthy (omap offered_vector sources) = None →
     truthy (cvss_vector f) = false)
  ∧ (Forall (λ source_data, ∀ d x, source_data = JDict d →
               PyDict.get "V3Vector" d = Some x → truthy x = true) sources →
     first_nonempty_selected (vector_values sources) (cvss_vector f))
  ∧ cvss_score f =
      (if truthy (cvss_v3_score f) then cvss_v3_score f else cvss_v2_score f)
  ∧ (∀ earlier later, sources = earlier ++ later →
       let '(v2, v3, vec) := select_cvss earlier in
       (truthy v2 = true → cvss_v2_score f = v2)
       ∧ (truthy v3 = true → cvss_v3_score f = v3)
       ∧ (truthy vec = true → cvss_vector f = vec))
  ∧ (∀ g, g ∈ parse_trivy_results results →
       ∃ result' vuln', result' ∈ results ∧ vuln' ∈ Vulnerabilities result'
         ∧ g = normalize_trivy (Target result') (Type_ result') vuln').
Proof.
  intros Hres Hvuln f sources.
  destruct (normalize_trivy_cvss (Target result) (Type_ result) vuln) as [Hsel Hscore].
  fold f sources in Hsel, Hscore. rewrite select_cvss_slots in Hsel.
  injection Hsel as Hv2 Hv3 Hvec.
  assert (Hoffered : first_nonempty_selected (omap offered_vector sources)
                       (cvss_vector f)).
  { rewrite Hvec. by apply slot_run_first. }
  split_and!.
  - apply elem_of_parse_trivy_results. by exists result, vuln.
  - rewrite Hv2. by apply (slot_run_first (offered_score "V2Score")).
  - rewrite Hv2. by apply (slot_run_none (offered_score "V2Score")).
  - rewrite Hv3. by apply (slot_run_first (offered_score "V3Score")).
  - rewrite Hv3. by apply (slot_run_none (offered_score "V3Score")).
  - done.
  - rewrite Hvec. by apply slot_run_none.
  - intros Hall x. rewrite (find_vector_values _ Hall). apply Hoffered.
  - done.
  - intros earlier later Heq. rewrite select_cvss_slots.
    rewrite Hv2, Hv3, Hvec, Heq, !slot_run_app.
    split_and!; intros Hset; by apply slot_run_set.
  - intros g Hg. by apply elem_of_parse_trivy_results.
Qed.

Lemma parse_trivy_results_cvss_selection_witness :
  let vuln := sample_trivy_vuln sample_cvss in
  let f := normalize_trivy "app" "debian" vuln in
  f ∈ parse_trivy_results (sample_trivy_results sample_cvss)
  ∧ cvss_v2_score f = JFloat 7.5%float
  ∧ cvss_v3_score f = JFloat 9.5%float
  ∧ cvss_score f = JFloat 9.5%float
  ∧ cvss_vector f = JStr "AV:L/AC:H/Au:N/C:N/I:N/A:P".
Proof.
  intros vuln f.
  destruct (parse_trivy_results_cvss_selection (sample_trivy_results sample_cvss)
              {| Target := "app"; Type_ := "debian"; Vulnerabilities := [vuln] |}
              vuln (list_elem_of_here _ _) (list_elem_of_here _ _))
    as (Hin & Hv2 & _ & Hv3 & _ & Hvec & _ & _ & Hscore & _).
  split_and!.
  - exact Hin.
  - by apply Hv2.
  - by apply Hv3.
  - etrans; [exact Hscore | reflexivity].
  - by apply Hvec.
Defined.

(** *** The merge *)

(** The normalized findings are Python dictionaries, and the merge reads and
    writes them through the two input lists and through [merged].  The store
    maps an object identity to the dictionary it currently is; the input
    lists and [merged] hold identities. *)
Abbreviation loc := nat (only parsing).

Definition create_vuln_key (vuln : finding) : string * string * string :=
  (id vuln, lower (package vuln), version vuln).

(** [vuln["found_by"] = v] and the three other assignments of the merge. *)
Definition set_found_by (v : list string) (f : finding) : finding :=
  mkFinding (id f) (package f) (version f) (severity f) (title f) (description f)
    (fixed_version f) (cvss_score f) (cvss_v2_score f) (cvss_v3_score f)
    (cvss_vector f) (references f) (target f) (type f) (source f) v.

Definition set_description (v : string) (f : finding) : finding :=
  mkFinding (id f) (package f) (version f) (severity f) (title f) v
    (fixed_version f) (cvss_score f) (cvss_v2_score f) (cvss_v3_score f)
    (cvss_vector f) (references f) (target f) (type f) (source f) (found_by f).

Definition set_fixed_version (v : string) (f : finding) : finding :=
  mkFinding (id f) (package f) (version f) (severity f) (title f) (description f)
    v (cvss_score f) (cvss_v2_score f) (cvss_v3_score f)
    (cvss_vector f) (references f) (target f) (type f) (source f) (found_by f).

Definition set_references (v : list string) (f : finding) : finding :=
  mkFinding (id f) (package f) (version f) (severity f) (title f) (description f)
    (fixed_version f) (cvss_score f) (cvss_v2_score f) (cvss_v3_score f)
    (cvss_vector f) v (target f) (type f) (source f) (found_by f).

(** Truth value of a string: non-empty. *)
Definition nonempty (s : string) : bool := negb (s =? "")%string.

(** [list(set(a) | set(b))].  Python leaves the order of the result open;
    here each URL stands where it first occurs in [a ++ b]. *)
Definition union_refs (a b : list string) : list string :=
  reverse (remove_dups (reverse (a ++ b))).

Record merge_stats := {
  trivy_only : Z;
  grype_only : Z;
  both : Z
}.

Record merge_state := {
  heap : loc → finding;
  merged : list ((string * string * string) * loc);
  stats : merge_stats
}.

(** Body of the loop over [trivy_vulns]. *)
Definition add_trivy (st : merge_state) (vuln : loc) : merge_state :=
  let key := create_vuln_key (heap st vuln) in
  {| heap := <[vuln := set_found_by ["trivy"] (heap st vuln)]> (heap st);
     merged := PyDict.set key vuln (merged st);
     stats := stats st |}.

(** The four updates of [existing] in the branch [key in merged].  Every read
    goes through the store, so the case where [vuln] and [existing] are the
    same object is covered.  [len] counts bytes here and code points in
    Python; on ASCII text the two agree. *)
Definition merge_into (h : loc → finding) (existing vuln : loc) : loc → finding :=
  let h := <[existing := set_found_by (found_by (h existing) ++ ["grype"]) (h existing)]> h in
  let h :=
    if (py_len (description (h existing)) <? py_len (description (h vuln)))%nat
    then <[existing := set_description (description (h vuln)) (h existing)]> h
    else h in
  let h :=
    if negb (nonempty (fixed_version (h existing))) && nonempty (fixed_version (h vuln))
    then <[existing := set_fixed_version (fixed_version (h vuln)) (h existing)]> h
    else h in
  <[existing :=
      set_references (union_refs (references (h existing)) (references (h vuln)))
        (h existing)]> h.

(** Body of the loop over [grype_vulns]. *)
Definition merge_grype (st : merge_state) (vuln : loc) : merge_state :=
  let key := create_vuln_key (heap st vuln) in
  match PyDict.get key (merged st) with
  | Some existing =>
      {| heap := merge_into (heap st) existing vuln;
         merged := merged st;
         stats := {| trivy_only := trivy_only (stats st);
                     grype_only := grype_only (stats st);
                     both := both (stats st) + 1 |} |}
  | None =>
      {| heap := <[vuln := set_found_by ["grype"] (heap st vuln)]> (heap st);
         merged := PyDict.set key vuln (merged st);
         stats := {| trivy_only := trivy_only (stats st);
                     grype_only := grype_only (stats st) + 1;
                     both := both (stats st) |} |}
  end.

Definition initial_state (h : loc → finding) : merge_state :=
  {| heap := h; merged := [];
     stats := {| trivy_only := 0; grype_only := 0; both := 0 |} |}.

(** [merge_vulnerabilities(trivy_vulns, grype_vulns)] run in the store [h]:
    the store after the call, the returned list [list(merged.values())] and
    the returned statistics. *)
Definition merge_vulnerabilities (h : loc → finding) (trivy_vulns grype_vulns : list loc)
    : (loc → finding) * list loc * merge_stats :=
  let st := foldl add_trivy (initial_state h) trivy_vulns in
  let st := foldl merge_grype st grype_vulns in
  let values := PyDict.values (merged st) in
  let trivy_only :=
    py_sum ((λ _, 1) <$>
            filter (λ v, found_by (heap st v) = ["trivy"]) values) in
  (heap st, values,
   {| trivy_only := trivy_only;
      grype_only := grype_only (stats st);
      both := both (stats st) |}).

(** **** Sample runs *)

Definition sample_finding (pkg desc src : string) : finding :=
  {| id := "CVE-2024-1"; package := pkg; version := "1.0"; severity := "HIGH";
     title := ""; description := desc; fixed_version := "";
     cvss_score := JNull; cvss_v2_score := JNull; cvss_v3_score := JNull;
     cvss_vector := JNull; references := []; target := "app"; type := "deb";
     source := src; found_by := [] |}.

(** Object 0 is a Trivy finding; objects 1 and 2 are two Grype findings of
    the same vulnerability and package, with a longer description. *)
Definition sample_store (l : loc) : finding :=
  match l with
  | 0%nat => sample_finding "foo" "short" "trivy"
  | 1%nat => sample_finding "Foo" "a longer description" "grype"
  | _ => sample_finding "foo" "the longest description of all" "grype"
  end.

Example merge_sample_both :
  let '(h, out, st) := merge_vulnerabilities sample_store [0%nat] [1%nat] in
  out = [0%nat]
  ∧ found_by (h 0%nat) = ["trivy"; "grype"]
  ∧ description (h 0%nat) = "a longer description"
  ∧ st = {| trivy_only := 0; grype_only := 0; both := 1 |}.
Proof. vm_compute. by repeat split. Qed.

(** **** What the in-place updates leave alone *)

(** The fields that the merge never assigns. *)
Definition same_core (f g : finding) : Prop :=
  id f = id g ∧ package f = package g ∧ version f = version g
  ∧ severity f = severity g ∧ title f = title g
  ∧ cvss_score f = cvss_score g ∧ cvss_v2_score f = cvss_v2_score g
  ∧ cvss_v3_score f = cvss_v3_score g ∧ cvss_vector f = cvss_vector g
  ∧ target f = target g ∧ type f = type g ∧ source f = source g.

Lemma same_core_refl f : same_core f f.
Proof. by repeat split. Qed.

Lemma same_core_trans f g k : same_core f g → same_core g k → same_core f k.
Proof. unfold same_core. intros H1 H2. destruct_and!. split_and!; congruence. Qed.

Lemma same_core_key f g : same_core f g → create_vuln_key f = create_vuln_key g.
Proof. unfold same_core, create_vuln_key. intros H. destruct_and!. congruence. Qed.

Lemma merge_into_other h existing vuln l :
  l ≠ existing → merge_into h existing vuln l = h l.
Proof.
  intros Hne. unfold merge_into. cbv zeta.
  rewrite fn_lookup_insert_ne by done.
  repeat case_match; rewrite ?fn_lookup_insert_ne by done; done.
Qed.

Lemma merge_into_found_by h existing vuln :
  found_by (merge_into h existing vuln existing) = found_by (h existing) ++ ["grype"].
Proof.
  unfold merge_into. cbv zeta. rewrite fn_lookup_insert.
  repeat case_match; rewrite ?fn_lookup_insert; simpl; done.
Qed.

Lemma merge_into_core h existing vuln l :
  same_core (merge_into h existing vuln l) (h l).
Proof.
  destruct (decide (l = existing)) as [->|Hne].
  - unfold merge_into. cbv zeta. rewrite fn_lookup_insert.
    repeat case_match; rewrite ?fn_lookup_insert; by repeat split.
  - rewrite merge_into_other by done. apply same_core_refl.
Qed.

(** **** The loop over the first scanner's findings *)

Abbreviation key_in h l := (create_vuln_key (h l)).

Lemma foldl_snoc {A B} (f : A → B → A) a l x :
  foldl f a (l ++ [x]) = f (foldl f a l) x.
Proof. by rewrite foldl_app. Qed.

(** The state after the first loop has run over [seen]. *)
Record trivy_inv (h0 : loc → finding) (seen : list loc) (st : merge_state) : Prop := {
  t_core : ∀ l, same_core (heap st l) (h0 l);
  t_keys : Forall (λ ke, key_in h0 ke.2 = ke.1) (merged st);
  t_nodup : NoDup (PyDict.keys (merged st));
  t_values : ∀ e, e ∈ PyDict.values (merged st) → e ∈ seen;
  t_frame : ∀ l, l ∉ seen → heap st l = h0 l;
  t_found : Forall (λ ke, found_by (heap st ke.2) = ["trivy"]) (merged st);
  t_cover : ∀ k, k ∈ PyDict.keys (merged st) ↔ k ∈ (λ l, key_in h0 l) <$> seen;
  t_stats : stats st = {| trivy_only := 0; grype_only := 0; both := 0 |}
}.

Lemma elem_of_values {K V} (d : list (K * V)) e :
  e ∈ PyDict.values d ↔ ∃ k, (k, e) ∈ d.
Proof.
  unfold PyDict.values. rewrite list_elem_of_fmap. split.
  - intros ([k e'] & -> & Hin). by exists k.
  - intros (k & Hin). by exists (k, e).
Qed.

Lemma trivy_inv_init h0 : trivy_inv h0 [] (initial_state h0).
Proof.
  split; simpl; try done.
  all: try apply NoDup_nil_2.
  all: try (intros; apply same_core_refl).
Qed.

Lemma trivy_inv_step h0 seen st vuln :
  trivy_inv h0 seen st → trivy_inv h0 (seen ++ [vuln]) (add_trivy st vuln).
Proof.
  intros [Hcore Hkeys Hnodup Hvalues Hframe Hfound Hcover Hstats].
  assert (Hkey : key_in (heap st) vuln = key_in h0 vuln)
    by apply same_core_key, Hcore.
  split; simpl.
  - intros l. destruct (decide (l = vuln)) as [->|Hne].
    + rewrite fn_lookup_insert. eapply same_core_trans; [|apply Hcore].
      by repeat split.
    + rewrite fn_lookup_insert_ne by done. apply Hcore.
  - apply PyDict.Forall_set; [by simpl | done].
  - by apply PyDict.keys_set_NoDup.
  - intros e (k & [[= -> ->]|Hin]%PyDict.elem_of_set)%elem_of_values;
      rewrite elem_of_app, list_elem_of_singleton; [by right | left].
    apply Hvalues, elem_of_values. eauto.
  - intros l [Hl Hv]%not_elem_of_app. apply not_elem_of_cons in Hv as [Hv _].
    rewrite fn_lookup_insert_ne by done. by apply Hframe.
  - apply PyDict.Forall_set; simpl.
    + by rewrite fn_lookup_insert.
    + eapply Forall_impl; [apply Hfound|]. intros [k e] Hke. simpl in *.
      destruct (decide (e = vuln)) as [->|Hne].
      * by rewrite fn_lookup_insert.
      * by rewrite fn_lookup_insert_ne.
  - intros k. rewrite PyDict.elem_of_keys_set, Hcover, fmap_app, elem_of_app.
    simpl. rewrite list_elem_of_singleton, Hkey. tauto.
  - done.
Qed.

Lemma trivy_inv_run h0 trivy_vulns :
  trivy_inv h0 trivy_vulns (foldl add_trivy (initial_state h0) trivy_vulns).
Proof.
  induction trivy_vulns as [|vuln seen IH] using rev_ind.
  - apply trivy_inv_init.
  - rewrite foldl_snoc. by apply trivy_inv_step.
Qed.

(** **** The loop over the second scanner's findings *)

(** How many of [vulns] carry the key [k]. *)
Definition count_key (h0 : loc → finding) (k : string * string * string)
    (vulns : list loc) : nat :=
  length (filter (λ l, key_in h0 l = k) vulns).

(** The provenance list of the entry under [k] once the second loop has run
    over [seen]: "trivy" when the first scanner reported the key, then one
    "grype" for each finding of [seen] with that key. *)
Definition expected_found_by (tkeys : list (string * string * string))
    (h0 : loc → finding) (seen : list loc) (k : string * string * string)
    : list string :=
  (if bool_decide (k ∈ tkeys) then ["trivy"] else [])
  ++ replicate (count_key h0 k seen) "grype".

Lemma count_key_snoc h0 k seen vuln :
  count_key h0 k (seen ++ [vuln]) =
  (count_key h0 k seen + (if decide (key_in h0 vuln = k) then 1 else 0))%nat.
Proof.
  unfold count_key. rewrite filter_app, length_app. f_equal.
  rewrite filter_cons, filter_nil. by destruct (decide _).
Qed.

Lemma count_key_zero h0 k seen :
  k ∉ (λ l, key_in h0 l) <$> seen → count_key h0 k seen = 0%nat.
Proof.
  intros Hk. unfold count_key.
  induction seen as [|l seen IH]; [done|].
  rewrite fmap_cons, not_elem_of_cons in Hk. destruct Hk as [Hne Hk].
  rewrite filter_cons_False by done. by apply IH.
Qed.

Lemma count_key_pos h0 k seen :
  k ∈ (λ l, key_in h0 l) <$> seen → (0 < count_key h0 k seen)%nat.
Proof.
  intros (l & -> & Hl)%list_elem_of_fmap. unfold count_key.
  induction Hl as [l seen|l l' seen _ IH].
  - rewrite filter_cons_True by done. simpl. lia.
  - rewrite filter_cons. destruct (decide _); simpl; lia.
Qed.

Lemma count_key_NoDup h0 k seen :
  NoDup ((λ l, key_in h0 l) <$> seen) → (count_key h0 k seen ≤ 1)%nat.
Proof.
  unfold count_key. induction seen as [|l seen IH]; [simpl; lia|].
  rewrite fmap_cons, NoDup_cons. intros [Hl Hnd].
  rewrite filter_cons. destruct (decide _) as [<-|]; [|by apply IH].
  simpl. fold (count_key h0 (key_in h0 l) seen).
  rewrite count_key_zero by done. lia.
Qed.

(** The state after the second loop has run over [seen], the first loop
    having ended in [s1]. *)
Record grype_inv (h0 : loc → finding) (trivy_vulns : list loc) (s1 : merge_state)
    (seen : list loc) (st : merge_state) : Prop := {
  g_core : ∀ l, same_core (heap st l) (h0 l);
  g_keys : Forall (λ ke, key_in h0 ke.2 = ke.1) (merged st);
  g_nodup : NoDup (PyDict.keys (merged st));
  g_values : ∀ e, e ∈ PyDict.values (merged st) → e ∈ trivy_vulns ∨ e ∈ seen;
  g_frame : ∀ l, l ∉ trivy_vulns → l ∉ PyDict.values (merged st) → heap st l = h0 l;
  g_found :
    Forall (λ ke, found_by (heap st ke.2) =
                  expected_found_by (PyDict.keys (merged s1)) h0 seen ke.1)
           (merged st);
  g_cover : ∀ k, k ∈ PyDict.keys (merged st) ↔
                 k ∈ PyDict.keys (merged s1) ∨ k ∈ (λ l, key_in h0 l) <$> seen;
  g_both : both (stats st) + grype_only (stats st) = Z.of_nat (length seen);
  g_only : grype_only (stats st) =
           Z.of_nat (length (merged st)) - Z.of_nat (length (merged s1))
}.

Lemma elem_of_keys {K V} (d : list (K * V)) k e : (k, e) ∈ d → k ∈ PyDict.keys d.
Proof. intros Hin. unfold PyDict.keys. apply list_elem_of_fmap. by exists (k, e). Qed.

Lemma grype_inv_init h0 trivy_vulns s1 :
  trivy_inv h0 trivy_vulns s1 → grype_inv h0 trivy_vulns s1 [] s1.
Proof.
  intros [Hcore Hkeys Hnodup Hvalues Hframe Hfound Hcover Hstats].
  split; try done.
  - auto.
  - auto.
  - apply Forall_forall. intros [k e] Hin.
    rewrite Forall_forall in Hfound. rewrite (Hfound _ Hin).
    unfold expected_found_by. simpl.
    by rewrite bool_decide_eq_true_2 by by eapply elem_of_keys.
  - intros k. rewrite fmap_nil, elem_of_nil. tauto.
  - by rewrite Hstats.
  - rewrite Hstats. simpl. lia.
Qed.

Lemma grype_inv_step h0 trivy_vulns s1 seen st vuln :
  grype_inv h0 trivy_vulns s1 seen st →
  grype_inv h0 trivy_vulns s1 (seen ++ [vuln]) (merge_grype st vuln).
Proof.
  intros [Hcore Hkeys Hnodup Hvalues Hframe Hfound Hcover Hboth Honly].
  assert (Hkey : key_in (heap st) vuln = key_in h0 vuln)
    by apply same_core_key, Hcore.
  rewrite Forall_forall in Hkeys. rewrite Forall_forall in Hfound.
  unfold merge_grype. rewrite Hkey.
  destruct (PyDict.get (key_in h0 vuln) (merged st)) as [existing|] eqn:Hget.
  - (* the key is already in [merged] *)
    pose proof (PyDict.get_Some_elem_of _ _ _ Hget) as Hex.
    split; simpl.
    + intros l. eapply same_core_trans; [apply merge_into_core | apply Hcore].
    + by apply Forall_forall.
    + done.
    + intros e He. rewrite elem_of_app. destruct (Hvalues e He); auto.
    + intros l Hl Hv. rewrite merge_into_other; [by apply Hframe|].
      intros ->. apply Hv, elem_of_values. eauto.
    + apply Forall_forall. intros [k e] Hin. simpl.
      unfold expected_found_by. rewrite count_key_snoc.
      destruct (decide (e = existing)) as [->|Hne].
      * pose proof (Hkeys _ Hin) as Hk1. pose proof (Hkeys _ Hex) as Hk2.
        pose proof (Hfound _ Hin) as Hf.
        simpl in Hk1, Hk2, Hf. rewrite merge_into_found_by, Hf.
        unfold expected_found_by. rewrite <- Hk1, Hk2.
        rewrite decide_True by done.
        by rewrite Nat.add_1_r, replicate_S_end, (assoc_L (++)).
      * pose proof (Hfound _ Hin) as Hf. simpl in Hf.
        rewrite merge_into_other by done. rewrite Hf.
        unfold expected_found_by. rewrite decide_False; [by rewrite Nat.add_0_r|].
        intros Heq. apply Hne.
        assert (PyDict.get k (merged st) = Some e) as Hge
          by by apply PyDict.elem_of_get.
        rewrite <- Heq, Hget in Hge. congruence.
    + intros k. rewrite Hcover, fmap_app, elem_of_app. simpl.
      rewrite list_elem_of_singleton. split; [tauto|].
      intros [?|[?| ->]]; auto.
      apply Hcover. eapply elem_of_keys, Hex.
    + rewrite length_app. simpl. lia.
    + done.
  - (* a key that [merged] does not hold yet *)
    pose proof Hget as Hnew. apply PyDict.get_None in Hnew.
    assert (Hfresh : ∀ k e, (k, e) ∈ merged st → e ≠ vuln ∧ k ≠ key_in h0 vuln).
    { intros k e Hin. pose proof (Hkeys _ Hin) as Hk. simpl in Hk.
      assert (k ≠ key_in h0 vuln) as Hkne.
      { intros ->. apply Hnew. by eapply elem_of_keys. }
      split; [|done]. intros ->. by apply Hkne. }
    split; simpl.
    + intros l. destruct (decide (l = vuln)) as [->|Hne].
      * rewrite fn_lookup_insert. eapply same_core_trans; [|apply Hcore].
        by repeat split.
      * rewrite fn_lookup_insert_ne by done. apply Hcore.
    + apply PyDict.Forall_set; [done | by apply Forall_forall].
    + by apply PyDict.keys_set_NoDup.
    + intros e. rewrite PyDict.elem_of_values_set by done.
      rewrite elem_of_app, list_elem_of_singleton.
      intros [->|He]; [auto|]. destruct (Hvalues e He); auto.
    + intros l Hl. rewrite PyDict.elem_of_values_set by done.
      intros Hv. rewrite fn_lookup_insert_ne by (intros ->; apply Hv; by left).
      apply Hframe; [done | intros ?; apply Hv; by right].
    + rewrite PyDict.set_absent by done. apply Forall_app. split.
      * apply Forall_forall. intros [k e] Hin. simpl.
        destruct (Hfresh k e Hin) as [Hne Hkne].
        pose proof (Hfound _ Hin) as Hf. simpl in Hf.
        rewrite fn_lookup_insert_ne by done. rewrite Hf.
        unfold expected_found_by. rewrite count_key_snoc.
        rewrite decide_False by done. by rewrite Nat.add_0_r.
      * apply Forall_singleton. simpl. rewrite fn_lookup_insert. simpl.
        unfold expected_found_by. rewrite count_key_snoc.
        rewrite decide_True by done.
        rewrite bool_decide_eq_false_2, count_key_zero; [done | |].
        -- intros Hk. apply Hnew, Hcover. by right.
        -- intros Hk. apply Hnew, Hcover. by left.
    + intros k. rewrite PyDict.elem_of_keys_set, Hcover, fmap_app, elem_of_app.
      simpl. rewrite list_elem_of_singleton. tauto.
    + rewrite length_app. simpl. lia.
    + rewrite PyDict.set_absent by done. rewrite length_app. simpl. lia.
Qed.

Lemma grype_inv_run h0 trivy_vulns grype_vulns :
  let s1 := foldl add_trivy (initial_state h0) trivy_vulns in
  grype_inv h0 trivy_vulns s1 grype_vulns (foldl merge_grype s1 grype_vulns).
Proof.
  intros s1. induction grype_vulns as [|vuln seen IH] using rev_ind.
  - apply grype_inv_init, trivy_inv_run.
  - rewrite foldl_snoc. by apply grype_inv_step.
Qed.

(** **** The result of the merge *)

Lemma merge_vulnerabilities_eq h trivy_vulns grype_vulns :
  let st := foldl merge_grype (foldl add_trivy (initial_state h) trivy_vulns)
              grype_vulns in
  merge_vulnerabilities h trivy_vulns grype_vulns =
  (heap st, PyDict.values (merged st),
   {| trivy_only :=
        Z.of_nat (length (filter (λ v, found_by (heap st v) = ["trivy"])
                            (PyDict.values (merged st))));
      grype_only := grype_only (stats st);
      both := both (stats st) |}).
Proof. intros st. unfold merge_vulnerabilities. fold st. by rewrite py_sum_ones. Qed.

Lemma values_keys {K V} (f : V → K) (d : list (K * V)) :
  Forall (λ ke, f ke.2 = ke.1) d → f <$> PyDict.values d = PyDict.keys d.
Proof.
  unfold PyDict.values, PyDict.keys.
  induction 1 as [|[k e] d Hke _ IH]; [done|].
  rewrite !fmap_cons. simpl in Hke |- *. rewrite Hke. f_equal. exact IH.
Qed.

Lemma filter_none {A} (P : A → Prop) `{∀ x, Decision (P x)} (l : list A) :
  (∀ x, x ∈ l → ¬ P x) → filter P l = [].
Proof.
  induction l as [|x l IH]; intros Hl; [done|].
  rewrite filter_cons_False by (apply Hl; left). apply IH.
  intros y Hy. apply Hl. by right.
Qed.

(** The keys of the returned findings are the keys of [merged]: pairwise
    distinct. *)
Lemma merge_output_keys h0 trivy_vulns s1 seen st :
  grype_inv h0 trivy_vulns s1 seen st →
  (λ l, key_in (heap st) l) <$> PyDict.values (merged st) = PyDict.keys (merged st).
Proof.
  intros Hinv. apply values_keys.
  eapply Forall_impl; [apply (g_keys _ _ _ _ _ Hinv)|].
  intros [k e] Hke. simpl in *. rewrite <- Hke.
  apply same_core_key, (g_core _ _ _ _ _ Hinv).
Qed.

(** Every returned finding carries the provenance list that
    [expected_found_by] describes. *)
Lemma merge_output_found_by h0 trivy_vulns s1 seen st e :
  trivy_inv h0 trivy_vulns s1 →
  grype_inv h0 trivy_vulns s1 seen st →
  e ∈ PyDict.values (merged st) →
  found_by (heap st e) =
    (if bool_decide (key_in h0 e ∈ (λ l, key_in h0 l) <$> trivy_vulns)
     then ["trivy"] else [])
    ++ replicate (count_key h0 (key_in h0 e) seen) "grype"
  ∧ (key_in h0 e ∈ (λ l, key_in h0 l) <$> trivy_vulns
     ∨ key_in h0 e ∈ (λ l, key_in h0 l) <$> seen).
Proof.
  intros Ht Hg (k & Hin)%elem_of_values.
  pose proof (g_keys _ _ _ _ _ Hg) as Hkeys.
  pose proof (g_found _ _ _ _ _ Hg) as Hfound.
  rewrite Forall_forall in Hkeys. rewrite Forall_forall in Hfound.
  pose proof (Hkeys _ Hin) as Hk. pose proof (Hfound _ Hin) as Hf.
  simpl in Hk, Hf. subst k. split.
  - rewrite Hf. unfold expected_found_by. f_equal.
    by rewrite (bool_decide_ext _ _ (t_cover _ _ _ Ht (key_in h0 e))).
  - rewrite <- (t_cover _ _ _ Ht). apply (g_cover _ _ _ _ _ Hg).
    by eapply elem_of_keys.
Qed.

(** When the second sequence brings no key that the first one lacks, no
    finding is Grype-only and every finding of the second sequence counts as
    found by both. *)
Lemma merge_no_new_keys h0 trivy_vulns s1 seen st :
  trivy_inv h0 trivy_vulns s1 →
  grype_inv h0 trivy_vulns s1 seen st →
  (∀ k, k ∈ (λ l, key_in h0 l) <$> seen → k ∈ (λ l, key_in h0 l) <$> trivy_vulns) →
  grype_only (stats st) = 0 ∧ both (stats st) = Z.of_nat (length seen).
Proof.
  intros Ht Hg Hsub.
  assert (length (merged st) = length (merged s1)) as Hlen.
  { rewrite <- (length_fmap fst (merged st)), <- (length_fmap fst (merged s1)).
    apply Permutation_length, NoDup_Permutation.
    - apply (g_nodup _ _ _ _ _ Hg).
    - apply (t_nodup _ _ _ Ht).
    - intros k. fold (PyDict.keys (merged st)). fold (PyDict.keys (merged s1)).
      rewrite (g_cover _ _ _ _ _ Hg). split; [|by left].
      intros [?|Hk]; [done|]. by apply (t_cover _ _ _ Ht), Hsub. }
  pose proof (g_only _ _ _ _ _ Hg) as Honly.
  pose proof (g_both _ _ _ _ _ Hg) as Hboth. lia.
Qed.

(** C5.  Merging a sequence of findings with itself: the returned findings
    have pairwise distinct MergeKeys, every finding of the sequence counts as
    found by both, and no finding is Trivy-only or Grype-only. *)
Theorem merge_vulnerabilities_with_itself (h : loc → finding) (vulns : list loc) :
  let '(h', out, st) := merge_vulnerabilities h vulns vulns in
  NoDup ((λ l, key_in h' l) <$> out)
  ∧ both st = Z.of_nat (length vulns)
  ∧ trivy_only st = 0
  ∧ grype_only st = 0.
Proof.
  rewrite merge_vulnerabilities_eq. cbv zeta.
  pose proof (trivy_inv_run h vulns) as Ht.
  pose proof (grype_inv_run h vulns vulns) as Hg. cbv zeta in Hg.
  set (s1 := foldl add_trivy (initial_state h) vulns) in *.
  set (st := foldl merge_grype s1 vulns) in *.
  destruct (merge_no_new_keys _ _ _ _ _ Ht Hg) as [Honly Hboth]; [done|].
  simpl. split_and!; [|done| |done].
  - rewrite (merge_output_keys _ _ _ _ _ Hg). apply (g_nodup _ _ _ _ _ Hg).
  - rewrite filter_none; [done|]. intros e He.
    destruct (merge_output_found_by _ _ _ _ _ e Ht Hg He) as [Hf Hk].
    rewrite Hf.
    assert (0 < count_key h (key_in h e) vulns)%nat as Hpos
      by (apply count_key_pos; tauto).
    destruct (count_key h (key_in h e) vulns) as [|n]; [lia|].
    by destruct (bool_decide _).
Qed.

Example merge_with_itself_sample :
  let '(h, out, st) := merge_vulnerabilities sample_store [0; 1; 3]%nat [0; 1; 3]%nat in
  out = [3%nat]
  ∧ found_by (h 3%nat) = ["trivy"; "grype"; "grype"; "grype"]
  ∧ st = {| trivy_only := 0; grype_only := 0; both := 3 |}.
Proof. vm_compute. by repeat split. Qed.

(** C7.  The provenance list is meant to be duplicate-free, and the code
    breaks this: when the second scanner's sequence holds two findings with
    equal MergeKeys, the branch [key in merged] runs for each of them and
    appends "grype" each time.  Here one Trivy finding meets two such Grype
    findings and ends with "grype" twice.  (The loop over the first scanner's
    findings leaves ["trivy"] once in the same situation, see
    [merge_with_itself_sample].) *)
Lemma found_by_duplicate_scanner :
  let '(h, out, _) := merge_vulnerabilities sample_store [0%nat] [1%nat; 2%nat] in
  create_vuln_key (sample_store 1%nat) = create_vuln_key (sample_store 2%nat)
  ∧ out = [0%nat]
  ∧ found_by (h 0%nat) = ["trivy"; "grype"; "grype"]
  ∧ ¬ NoDup (found_by (h 0%nat)).
Proof.
  vm_compute. split_and!; [done..|].
  intros Hnd. apply NoDup_cons in Hnd as [_ Hnd].
  apply NoDup_cons in Hnd as [Hnotin _]. apply Hnotin. left.
Qed.

(** The same happens without the first scanner: two Grype findings with
    equal keys give "grype" twice, and the second one is counted in [both]
    although no Trivy finding has the key. *)
Example found_by_duplicate_grype_only :
  let '(h, out, st) := merge_vulnerabilities sample_store [] [1%nat; 2%nat] in
  out = [1%nat]
  ∧ found_by (h 1%nat) = ["grype"; "grype"]
  ∧ st = {| trivy_only := 0; grype_only := 1; both := 1 |}.
Proof. vm_compute. by repeat split. Qed.

(** X1.  Provenance in discovery order.  When no two findings of the second
    scanner's sequence have equal MergeKeys (the first scanner's sequence is
    unrestricted), every returned finding has a non-empty, duplicate-free
    provenance list in discovery order: "trivy" when the first scanner
    reported its key, followed by "grype" when the second scanner reported
    it. *)
Theorem found_by_discovery_order
    (h : loc → finding) (trivy_vulns grype_vulns : list loc) :
  NoDup ((λ l, key_in h l) <$> grype_vulns) →
  let '(h', out, _) := merge_vulnerabilities h trivy_vulns grype_vulns in
  ∀ l, l ∈ out →
    found_by (h' l) =
      (if bool_decide (key_in h l ∈ (λ l, key_in h l) <$> trivy_vulns)
       then ["trivy"] else [])
      ++ (if bool_decide (key_in h l ∈ (λ l, key_in h l) <$> grype_vulns)
          then ["grype"] else [])
    ∧ found_by (h' l) ≠ []
    ∧ NoDup (found_by (h' l)).
Proof.
  intros Hnd. rewrite merge_vulnerabilities_eq. cbv zeta.
  pose proof (trivy_inv_run h trivy_vulns) as Ht.
  pose proof (grype_inv_run h trivy_vulns grype_vulns) as Hg. cbv zeta in Hg.
  set (s1 := foldl add_trivy (initial_state h) trivy_vulns) in *.
  set (st := foldl merge_grype s1 grype_vulns) in *.
  intros l Hl.
  destruct (merge_output_found_by _ _ _ _ _ l Ht Hg Hl) as [Hf Hk].
  pose proof (count_key_NoDup h (key_in h l) grype_vulns Hnd) as Hle.
  rewrite Hf.
  destruct (decide (key_in h l ∈ (λ l, key_in h l) <$> grype_vulns)) as [Hin|Hnin].
  - pose proof (count_key_pos _ _ _ Hin) as Hpos.
    assert (count_key h (key_in h l) grype_vulns = 1%nat) as -> by lia.
    rewrite (bool_decide_eq_true_2 _ Hin). split_and!; [done| |].
    + by destruct (bool_decide _).
    + destruct (bool_decide _); simpl.
      * apply (bool_decide_eq_true_1 _). reflexivity.
      * apply NoDup_singleton.
  - rewrite (count_key_zero _ _ _ Hnin), (bool_decide_eq_false_2 _ Hnin).
    destruct Hk as [Hin|]; [|done].
    rewrite (bool_decide_eq_true_2 _ Hin). split_and!; [done..|].
    apply NoDup_singleton.
Qed.

Lemma found_by_discovery_order_witness :
  let '(h', out, _) := merge_vulnerabilities sample_store [0%nat] [1%nat] in
  0%nat ∈ out ∧ found_by (h' 0%nat) = ["trivy"; "grype"].
Proof.
  assert (Hnd : NoDup ((λ l, key_in sample_store l) <$> [1%nat]))
    by apply NoDup_singleton.
  pose proof (found_by_discovery_order sample_store [0%nat] [1%nat] Hnd) as H.
  destruct (merge_vulnerabilities sample_store [0%nat] [1%nat]) as [[h' out] st] eqn:Heq.
  assert (out = [0%nat]) as -> by (vm_compute in Heq; congruence).
  split; [left|]. by destruct (H 0%nat) as [-> _]; [left|].
Defined.

(** C8, as stated, fails: the merge assigns to the input dictionaries.  The
    first scanner's finding that is merged with a second scanner's finding of
    the same key is not what it was before the call. *)
Lemma merge_mutates_source_finding :
  let '(h', out, _) := merge_vulnerabilities sample_store [0%nat] [1%nat] in
  description (sample_store 0%nat) = "short"
  ∧ description (h' 0%nat) = "a longer description"
  ∧ found_by (sample_store 0%nat) = []
  ∧ found_by (h' 0%nat) = ["trivy"; "grype"]
  ∧ h' 0%nat ≠ sample_store 0%nat.
Proof. vm_compute. split_and!; [done..|]. discriminate. Qed.

(** C8, amended.  The merge creates no finding: every returned finding is one
    of the input objects, updated in place.  The updates reach [found_by],
    [description], [fixed_version] and [references] only: the identifier,
    package, version, severity, title, CVSS fields, target, type and source
    of every object are what they were before the call.  An object that is
    neither in the first scanner's sequence nor returned is left as it
    was. *)
Theorem merge_vulnerabilities_updates_in_place
    (h : loc → finding) (trivy_vulns grype_vulns : list loc) :
  let '(h', out, _) := merge_vulnerabilities h trivy_vulns grype_vulns in
  (∀ l, l ∈ out → l ∈ trivy_vulns ∨ l ∈ grype_vulns)
  ∧ (∀ l, same_core (h' l) (h l))
  ∧ (∀ l, l ∉ trivy_vulns → l ∉ out → h' l = h l).
Proof.
  rewrite merge_vulnerabilities_eq. cbv zeta.
  pose proof (grype_inv_run h trivy_vulns grype_vulns) as Hg. cbv zeta in Hg.
  split_and!.
  - apply (g_values _ _ _ _ _ Hg).
  - apply (g_core _ _ _ _ _ Hg).
  - apply (g_frame _ _ _ _ _ Hg).
Qed.

(** *** Further properties of the merge *)

(** The keys of the returned findings, read before or after the call. *)
Lemma merge_output_keys_facts h trivy_vulns grype_vulns :
  let st := foldl merge_grype (foldl add_trivy (initial_state h) trivy_vulns)
              grype_vulns in
  (∀ l, key_in (heap st) l = key_in h l)
  ∧ NoDup ((λ l, key_in h l) <$> PyDict.values (merged st))
  ∧ (∀ k, k ∈ (λ l, key_in h l) <$> PyDict.values (merged st) ↔
          k ∈ (λ l, key_in h l) <$> trivy_vulns
          ∨ k ∈ (λ l, key_in h l) <$> grype_vulns).
Proof.
  intros st.
  pose proof (trivy_inv_run h trivy_vulns) as Ht.
  pose proof (grype_inv_run h trivy_vulns grype_vulns) as Hg. cbv zeta in Hg.
  fold st in Hg.
  assert (Hkey : ∀ l, key_in (heap st) l = key_in h l)
    by (intros l; apply same_core_key, (g_core _ _ _ _ _ Hg)).
  assert (Hkeys : (λ l, key_in h l) <$> PyDict.values (merged st)
                  = PyDict.keys (merged st)).
  { rewrite <- (merge_output_keys _ _ _ _ _ Hg).
    apply list_fmap_ext. intros _ l _. by rewrite Hkey. }
  split_and!; [done | |].
  - rewrite Hkeys. apply (g_nodup _ _ _ _ _ Hg).
  - intros k. rewrite Hkeys, (g_cover _ _ _ _ _ Hg), (t_cover _ _ _ Ht). tauto.
Qed.

(** X2.  Whatever the two input sequences hold, the findings that
    [merge_vulnerabilities] returns have pairwise distinct MergeKeys, and
    their keys are exactly the keys that occur in one of the two sequences:
    no reported vulnerability is lost and none is returned twice.  The merge
    leaves the key of every finding as it was. *)
Theorem merge_vulnerabilities_keys_union
    (h : loc → finding) (trivy_vulns grype_vulns : list loc) :
  let '(h', out, _) := merge_vulnerabilities h trivy_vulns grype_vulns in
  (∀ l, create_vuln_key (h' l) = create_vuln_key (h l))
  ∧ NoDup ((λ l, key_in h' l) <$> out)
  ∧ (∀ k, k ∈ (λ l, key_in h' l) <$> out ↔
          k ∈ (λ l, key_in h l) <$> trivy_vulns
          ∨ k ∈ (λ l, key_in h l) <$> grype_vulns).
Proof.
  rewrite merge_vulnerabilities_eq. cbv zeta.
  destruct (merge_output_keys_facts h trivy_vulns grype_vulns) as (Hkey & Hnd & Hmem).
  set (st := foldl merge_grype _ _) in *.
  assert (Heq : (λ l, key_in (heap st) l) <$> PyDict.values (merged st)
                = (λ l, key_in h l) <$> PyDict.values (merged st)).
  { apply list_fmap_ext. intros _ l _. apply Hkey. }
  rewrite Heq. by split_and!.
Qed.


Example merge_detection_symmetric_sample :
  let '(h1, out1, _) := merge_vulnerabilities sample_store [0%nat] [1%nat; 2%nat] in
  let '(h2, out2, _) := merge_vulnerabilities sample_store [1%nat; 2%nat] [0%nat] in
  out1 = [0%nat] ∧ out2 = [2%nat]
  ∧ create_vuln_key (h1 0%nat) = create_vuln_key (h2 2%nat).
Proof. vm_compute. by repeat split. Qed.

Lemma filter_ext_in {A} (P Q : A → Prop) `{∀ x, Decision (P x)} `{∀ x, Decision (Q x)}
    (l : list A) :
  (∀ x, x ∈ l → P x ↔ Q x) → filter P l = filter Q l.
Proof.
  induction l as [|x l IH]; intros Hl; [done|].
  rewrite !filter_cons, IH by (intros y Hy; apply Hl; by right).
  destruct (decide (P x)) as [HP|HP], (decide (Q x)) as [HQ|HQ]; try done.
  - exfalso. apply HQ, (Hl x); [left | done].
  - exfalso. apply HP, (Hl x); [left | done].
Qed.

Lemma length_filter_fmap {A B} (f : A → B) (P : B → Prop)
    `{∀ y, Decision (P y)} `{∀ x, Decision (P (f x))} (l : list A) :
  length (filter (λ x, P (f x)) l) = length (filter P (f <$> l)).
Proof.
  induction l as [|x l IH]; [done|].
  rewrite fmap_cons, !filter_cons.
  destruct (decide (P (f x))) as [?|?], (decide (P (f x))) as [?|?];
    simpl; by rewrite ?IH.
Qed.

(** In a duplicate-free list that contains the duplicate-free list [k], the
    elements outside [k] are [length l - length k] many. *)
Lemma length_filter_outside {A} `{EqDecision A} (l k : list A) :
  NoDup l → NoDup k → (∀ x, x ∈ k → x ∈ l) →
  length (filter (λ x, x ∉ k) l) = (length l - length k)%nat.
Proof.
  intros Hl Hk Hsub.
  destruct (submseteq_Permutation _ _ (NoDup_submseteq _ _ Hk Hsub)) as [rest Hperm].
  rewrite Hperm in Hl. apply NoDup_app in Hl as (_ & Hdisj & _).
  rewrite Hperm, filter_app, !length_app.
  rewrite (filter_none (λ x, x ∉ k) k) by (intros x Hx Hn; by apply Hn).
  rewrite (filter_ext_in (λ x, x ∉ k) (λ _, True) rest).
  - replace (filter (λ _, True) rest) with rest; [simpl; lia|].
    clear. induction rest as [|x rest IH]; [done|].
    by rewrite filter_cons_True, <- IH.
  - intros x Hx. split; [done|]. intros _ Hin. by apply (Hdisj x).
Qed.

(** A list whose elements all satisfy [P] or [Q] splits into those outside
    [Q], those outside [P] and those in both. *)
Lemma length_three_way {A} (P Q : A → Prop)
    `{∀ x, Decision (P x)} `{∀ x, Decision (Q x)} (l : list A) :
  (∀ x, x ∈ l → P x ∨ Q x) →
  length l = (length (filter (λ x, ¬ Q x) l) + length (filter (λ x, ¬ P x) l)
              + length (filter (λ x, P x ∧ Q x) l))%nat.
Proof.
  induction l as [|x l IH]; intros Hl; [done|].
  rewrite !filter_cons. simpl length at 1.
  rewrite IH by (intros y Hy; apply Hl; by right).
  assert (P x ∨ Q x) as HPQ by (apply Hl; left).
  destruct (decide (¬ Q x)), (decide (¬ P x)), (decide (P x ∧ Q x));
    simpl; try lia; exfalso; tauto.
Qed.

(** X4.  What the three counters count, for every input.  Every finding of
    the second sequence is counted once, in [grype_only] or in [both];
    [trivy_only] is the number of returned findings whose key no finding of
    the second sequence has, [grype_only] the number of returned findings
    whose key no finding of the first sequence has; so the returned findings
    split into Trivy-only ones, Grype-only ones and those whose key both
    sequences hold. *)
Theorem merge_vulnerabilities_statistics
    (h : loc → finding) (trivy_vulns grype_vulns : list loc) :
  let '(_, out, st) := merge_vulnerabilities h trivy_vulns grype_vulns in
  let tkeys := (λ l, key_in h l) <$> trivy_vulns in
  let gkeys := (λ l, key_in h l) <$> grype_vulns in
  grype_only st + both st = Z.of_nat (length grype_vulns)
  ∧ trivy_only st = Z.of_nat (length (filter (λ l, key_in h l ∉ gkeys) out))
  ∧ grype_only st = Z.of_nat (length (filter (λ l, key_in h l ∉ tkeys) out))
  ∧ Z.of_nat (length out) =
      trivy_only st + grype_only st
      + Z.of_nat (length (filter (λ l, key_in h l ∈ tkeys ∧ key_in h l ∈ gkeys) out)).
Proof.
  rewrite merge_vulnerabilities_eq. cbv zeta.
  pose proof (trivy_inv_run h trivy_vulns) as Ht.
  pose proof (grype_inv_run h trivy_vulns grype_vulns) as Hg. cbv zeta in Hg.
  destruct (merge_output_keys_facts h trivy_vulns grype_vulns) as (Hkey & Hnd & Hmem).
  set (s1 := foldl add_trivy (initial_state h) trivy_vulns) in *.
  set (st := foldl merge_grype s1 grype_vulns) in *.
  set (out := PyDict.values (merged st)) in *.
  set (tkeys := (λ l, key_in h l) <$> trivy_vulns) in *.
  set (gkeys := (λ l, key_in h l) <$> grype_vulns) in *.
  simpl.
  assert (Hcover : ∀ l, l ∈ out → key_in h l ∈ tkeys ∨ key_in h l ∈ gkeys).
  { intros l Hl. apply Hmem, list_elem_of_fmap. eauto. }
  assert (Htrivy : filter (λ v, found_by (heap st v) = ["trivy"]) out
                   = filter (λ l, key_in h l ∉ gkeys) out).
  { apply filter_ext_in. intros l Hl.
    destruct (merge_output_found_by _ _ _ _ _ l Ht Hg Hl) as [Hf _].
    fold tkeys in Hf. rewrite Hf. split.
    - intros Heq Hin. pose proof (count_key_pos _ _ _ Hin) as Hpos.
      destruct (count_key h (key_in h l) grype_vulns) as [|[|n]]; [lia | |];
        by destruct (bool_decide _).
    - intros Hnin. destruct (Hcover l Hl) as [Hin|]; [|done].
      by rewrite (count_key_zero _ _ _ Hnin), (bool_decide_eq_true_2 _ Hin). }
  assert (Hgrype : length (filter (λ l, key_in h l ∉ tkeys) out)
                   = (length (merged st) - length (merged s1))%nat).
  { etrans; [apply (length_filter_fmap (λ l, key_in h l) (λ k, k ∉ tkeys) out)|].
    assert ((λ l, key_in h l) <$> out = PyDict.keys (merged st)) as ->.
    { rewrite <- (merge_output_keys _ _ _ _ _ Hg).
      apply list_fmap_ext. intros _ l _. by rewrite Hkey. }
    rewrite (filter_ext_in (λ k, k ∉ tkeys) (λ k, k ∉ PyDict.keys (merged s1)))
      by (intros k _; by rewrite (t_cover _ _ _ Ht)).
    rewrite length_filter_outside.
    - unfold PyDict.keys. by rewrite !length_fmap.
    - apply (g_nodup _ _ _ _ _ Hg).
    - apply (t_nodup _ _ _ Ht).
    - intros k Hk. apply (g_cover _ _ _ _ _ Hg). by left. }
  pose proof (g_both _ _ _ _ _ Hg) as Hboth.
  pose proof (g_only _ _ _ _ _ Hg) as Honly.
  assert (length (merged s1) ≤ length (merged st))%nat as Hle.
  { unfold PyDict.keys. rewrite <- (length_fmap fst (merged s1)), <- (length_fmap fst (merged st)).
    apply submseteq_length, NoDup_submseteq; [apply (t_nodup _ _ _ Ht)|].
    intros k Hk. apply (g_cover _ _ _ _ _ Hg). by left. }
  split_and!.
  - lia.
  - by rewrite Htrivy.
  - rewrite Hgrype. lia.
  - rewrite Htrivy, Honly.
    rewrite (length_three_way (λ l, key_in h l ∈ tkeys) (λ l, key_in h l ∈ gkeys) out Hcover)
      at 1.
    rewrite Hgrype. lia.
Qed.

Example merge_statistics_sample :
  let '(_, out, st) := merge_vulnerabilities sample_store [0%nat] [1%nat; 2%nat] in
  out = [0%nat] ∧ st = {| trivy_only := 0; grype_only := 0; both := 2 |}.
Proof. vm_compute. by repeat split. Qed.

(** **** What the merge keeps of every finding *)

(** [f] still has what [f0] had: a description at least as long, the fixed
    version of [f0] if that was not empty, and every reference of [f0]. *)
Definition keeps (f0 f : finding) : Prop :=
  (py_len (description f0) ≤ py_len (description f))%nat
  ∧ (nonempty (fixed_version f0) = true → fixed_version f = fixed_version f0)
  ∧ (∀ url, url ∈ references f0 → url ∈ references f).

Lemma keeps_refl f : keeps f f.
Proof. by repeat split. Qed.

Lemma keeps_trans f g k : keeps f g → keeps g k → keeps f k.
Proof.
  intros (Hd1 & Hf1 & Hr1) (Hd2 & Hf2 & Hr2). split_and!.
  - lia.
  - intros Hne. rewrite Hf2; [by apply Hf1|]. by rewrite Hf1.
  - auto.
Qed.

Lemma elem_of_union_refs url a b : url ∈ union_refs a b ↔ url ∈ a ∨ url ∈ b.
Proof.
  unfold union_refs.
  by rewrite elem_of_reverse, elem_of_remove_dups, elem_of_reverse, elem_of_app.
Qed.

Lemma NoDup_union_refs a b : NoDup (union_refs a b).
Proof. unfold union_refs. rewrite reverse_Permutation. apply NoDup_remove_dups. Qed.

Lemma merge_into_keeps h existing vuln l :
  keeps (h l) (merge_into h existing vuln l).
Proof.
  destruct (decide (l = existing)) as [->|Hne];
    [|rewrite merge_into_other by done; apply keeps_refl].
  unfold merge_into. cbv zeta. rewrite fn_lookup_insert.
  set (h1 := <[existing := set_found_by (found_by (h existing) ++ ["grype"])
                             (h existing)]> h).
  assert (Hh1 : keeps (h existing) (h1 existing))
    by (unfold h1; rewrite fn_lookup_insert; by repeat split).
  destruct (py_len (description (h1 existing))
            <? py_len (description (h1 vuln)))%nat eqn:Hlen.
  - apply Nat.ltb_lt in Hlen.
    set (h2 := <[existing := set_description (description (h1 vuln)) (h1 existing)]> h1).
    assert (Hh2 : keeps (h existing) (h2 existing)).
    { eapply keeps_trans; [apply Hh1|]. unfold h2. rewrite fn_lookup_insert.
      split_and!; simpl; [lia | done..]. }
    destruct (negb (nonempty (fixed_version (h2 existing)))
              && nonempty (fixed_version (h2 vuln))) eqn:Hfix.
    + apply andb_true_iff in Hfix as [Hempty%negb_true_iff _].
      eapply keeps_trans; [apply Hh2|]. rewrite ?fn_lookup_insert.
      split_and!; simpl; [done | congruence |].
      intros url Hurl. apply elem_of_union_refs. by left.
    + eapply keeps_trans; [apply Hh2|]. rewrite ?fn_lookup_insert.
      split_and!; simpl; [done..|].
      intros url Hurl. apply elem_of_union_refs. by left.
  - destruct (negb (nonempty (fixed_version (h1 existing)))
              && nonempty (fixed_version (h1 vuln))) eqn:Hfix.
    + apply andb_true_iff in Hfix as [Hempty%negb_true_iff _].
      eapply keeps_trans; [apply Hh1|]. rewrite ?fn_lookup_insert.
      split_and!; simpl; [done | congruence |].
      intros url Hurl. apply elem_of_union_refs. by left.
    + eapply keeps_trans; [apply Hh1|]. rewrite ?fn_lookup_insert.
      split_and!; simpl; [done..|].
      intros url Hurl. apply elem_of_union_refs. by left.
Qed.

Lemma add_trivy_keeps st vuln l : keeps (heap st l) (heap (add_trivy st vuln) l).
Proof.
  simpl. destruct (decide (l = vuln)) as [->|Hne].
  - rewrite fn_lookup_insert. by repeat split.
  - rewrite fn_lookup_insert_ne by done. apply keeps_refl.
Qed.

Lemma merge_grype_keeps st vuln l : keeps (heap st l) (heap (merge_grype st vuln) l).
Proof.
  unfold merge_grype. destruct (PyDict.get _ _) as [existing|]; simpl.
  - apply merge_into_keeps.
  - destruct (decide (l = vuln)) as [->|Hne].
    + rewrite fn_lookup_insert. by repeat split.
    + rewrite fn_lookup_insert_ne by done. apply keeps_refl.
Qed.

Lemma foldl_keeps (step : merge_state → loc → merge_state) st vulns l :
  (∀ st vuln, keeps (heap st l) (heap (step st vuln) l)) →
  keeps (heap st l) (heap (foldl step st vulns) l).
Proof.
  intros Hstep. induction vulns as [|vuln vulns IH] using rev_ind.
  - apply keeps_refl.
  - rewrite foldl_snoc. eapply keeps_trans; [apply IH | apply Hstep].
Qed.

(** X5.  The merge never makes a finding poorer: after the call the
    description of every finding has at least as many characters (code
    points, as [len] counts them) as before, a fixed version that was not
    empty is unchanged, and every reference the finding had is still among
    its references. *)
Theorem merge_vulnerabilities_keeps_details
    (h : loc → finding) (trivy_vulns grype_vulns : list loc) (l : loc) :
  let '(h', _, _) := merge_vulnerabilities h trivy_vulns grype_vulns in
  (py_len (description (h l)) ≤ py_len (description (h' l)))%nat
  ∧ (nonempty (fixed_version (h l)) = true → fixed_version (h' l) = fixed_version (h l))
  ∧ (∀ url, url ∈ references (h l) → url ∈ references (h' l)).
Proof.
  rewrite merge_vulnerabilities_eq. cbv zeta.
  apply (keeps_trans _ (heap (foldl add_trivy (initial_state h) trivy_vulns) l)).
  - apply (foldl_keeps add_trivy (initial_state h)). intros. apply add_trivy_keeps.
  - apply (foldl_keeps merge_grype). intros. apply merge_grype_keeps.
Qed.

Lemma merge_vulnerabilities_keeps_details_witness :
  let f := sample_finding "foo" "short" "trivy" in
  let fixed := set_fixed_version "1.2" f in
  let store := λ l : loc, if decide (l = 0%nat) then fixed
                           else set_fixed_version "9.9" (sample_store l) in
  let '(h', _, _) := merge_vulnerabilities store [0%nat] [1%nat] in
  fixed_version (h' 0%nat) = "1.2".
Proof.
  intros f fixed store.
  pose proof (merge_vulnerabilities_keeps_details store [0%nat] [1%nat] 0%nat) as H.
  destruct (merge_vulnerabilities store [0%nat] [1%nat]) as [[h' out] st].
  destruct H as (_ & Hfix & _). by apply Hfix.
Defined.

(** The comparison of the descriptions counts characters, not bytes: the
    three letters of the Grype description replace the two accented letters
    (four bytes) of the Trivy description. *)
Example merge_description_counts_code_points :
  let store := λ l : loc,
    if decide (l = 0%nat) then sample_finding "foo" "éé" "trivy"
    else sample_finding "foo" "abc" "grype" in
  let '(h', _, _) := merge_vulnerabilities store [0%nat] [1%nat] in
  String.length "éé" = 4%nat ∧ py_len "éé" = 2%nat
  ∧ description (h' 0%nat) = "abc".
Proof. vm_compute. by repeat split. Qed.

(** **** The first loop on its own *)

Lemma filter_all {A} (P : A → Prop) `{∀ x, Decision (P x)} (l : list A) :
  (∀ x, x ∈ l → P x) → filter P l = l.
Proof.
  induction l as [|x l IH]; intros Hl; [done|].
  rewrite filter_cons_True by (apply Hl; left).
  f_equal. apply IH. intros y Hy. apply Hl. by right.
Qed.

Lemma trivy_run_heap h0 trivy_vulns l :
  heap (foldl add_trivy (initial_state h0) trivy_vulns) l =
  if decide (l ∈ trivy_vulns) then set_found_by ["trivy"] (h0 l) else h0 l.
Proof.
  induction trivy_vulns as [|vuln seen IH] using rev_ind.
  - simpl. destruct (decide (l ∈ [])) as [Hin|]; [by apply elem_of_nil in Hin | done].
  - rewrite foldl_snoc. simpl.
    destruct (decide (l = vuln)) as [->|Hne].
    + rewrite fn_lookup_insert, IH.
      rewrite (decide_True (P := vuln ∈ seen ++ [vuln]))
        by (apply elem_of_app; right; left).
      by destruct (decide (vuln ∈ seen)).
    + rewrite fn_lookup_insert_ne, IH by done.
      destruct (decide (l ∈ seen)) as [Hin|Hnin].
      * by rewrite decide_True by (apply elem_of_app; by left).
      * rewrite decide_False; [done|].
        rewrite elem_of_app, list_elem_of_singleton. tauto.
Qed.

(** X6.  With no finding from the second scanner (the case of a missing
    Grype report), the merge only deduplicates: every finding of the first
    sequence gets [found_by = ["trivy"]] and is otherwise untouched, no other
    object changes, every returned finding is one of the sequence, and all
    returned findings are counted as Trivy-only. *)
Theorem merge_vulnerabilities_without_grype
    (h : loc → finding) (trivy_vulns : list loc) :
  let '(h', out, st) := merge_vulnerabilities h trivy_vulns [] in
  (∀ l, h' l = if decide (l ∈ trivy_vulns)
               then set_found_by ["trivy"] (h l) else h l)
  ∧ (∀ l, l ∈ out → l ∈ trivy_vulns)
  ∧ (length out ≤ length trivy_vulns)%nat
  ∧ st = {| trivy_only := Z.of_nat (length out); grype_only := 0; both := 0 |}.
Proof.
  rewrite merge_vulnerabilities_eq. cbv zeta. simpl foldl.
  pose proof (trivy_inv_run h trivy_vulns) as Ht.
  set (s1 := foldl add_trivy (initial_state h) trivy_vulns) in *.
  split_and!.
  - intros l. apply trivy_run_heap.
  - apply (t_values _ _ _ Ht).
  - unfold PyDict.values. rewrite length_fmap, <- (length_fmap fst (merged s1)).
    rewrite <- (length_fmap (λ l, key_in h l) trivy_vulns).
    apply submseteq_length, NoDup_submseteq; [apply (t_nodup _ _ _ Ht)|].
    intros k Hk. by apply (t_cover _ _ _ Ht).
  - rewrite (t_stats _ _ _ Ht). simpl. f_equal. f_equal. f_equal.
    apply filter_all. intros e (k & Hin)%elem_of_values.
    pose proof (t_found _ _ _ Ht) as Hfound. rewrite Forall_forall in Hfound.
    apply (Hfound _ Hin).
Qed.

(** **** Which finding stands for a key *)

Lemma elem_of_set_NoDup {K V} `{EqDecision K} (k : K) (v : V) kv (d : list (K * V)) :
  NoDup (PyDict.keys d) → kv ∈ PyDict.set k v d →
  kv = (k, v) ∨ (kv ∈ d ∧ kv.1 ≠ k).
Proof.
  unfold PyDict.keys. induction d as [|[k' v'] d IH]; simpl.
  - intros _ ->%list_elem_of_singleton. by left.
  - rewrite NoDup_cons. intros [Hk Hd].
    destruct (decide (k' = k)) as [->|Hne]; intros [->|Hin]%elem_of_cons.
    + by left.
    + right. split; [by right|]. intros <-. apply Hk.
      apply list_elem_of_fmap. by exists kv.
    + right. split; [left | done].
    + destruct (IH Hd Hin) as [|[? ?]]; [by left | right]. split; [by right | done].
Qed.

(** After the first loop every entry of [merged] is the last finding of the
    sequence with its key. *)
Lemma trivy_run_last h0 trivy_vulns :
  Forall (λ ke, ∃ before after,
            trivy_vulns = before ++ ke.2 :: after
            ∧ ∀ l, l ∈ after → key_in h0 l ≠ ke.1)
         (merged (foldl add_trivy (initial_state h0) trivy_vulns)).
Proof.
  induction trivy_vulns as [|vuln seen IH] using rev_ind; [constructor|].
  pose proof (trivy_inv_run h0 seen) as Ht.
  rewrite foldl_snoc. set (st := foldl add_trivy (initial_state h0) seen) in *.
  assert (Hkey : key_in (heap st) vuln = key_in h0 vuln)
    by apply same_core_key, (t_core _ _ _ Ht).
  simpl. rewrite Hkey. rewrite Forall_forall in IH. apply Forall_forall.
  intros [k e] [[= -> ->]|[Hin Hne]]%elem_of_set_NoDup; [| |apply (t_nodup _ _ _ Ht)].
  - exists seen, []. split; [done|]. intros l Hl. by apply elem_of_nil in Hl.
  - destruct (IH _ Hin) as (before & after & -> & Hafter). simpl in *.
    exists before, (after ++ [vuln]). split; [by rewrite <- app_assoc|].
    intros l [Hl| ->%list_elem_of_singleton]%elem_of_app; [by apply Hafter|].
    by intros <-.
Qed.

(** During the second loop an entry of [merged] is either one that the first
    loop left, or the first finding of the second sequence with its key. *)
Lemma grype_run_first h0 trivy_vulns grype_vulns :
  let s1 := foldl add_trivy (initial_state h0) trivy_vulns in
  Forall (λ ke, ke ∈ merged s1
                ∨ ((ke.1 ∉ PyDict.keys (merged s1))
                   ∧ ∃ before after,
                       grype_vulns = before ++ ke.2 :: after
                       ∧ ∀ l, l ∈ before → key_in h0 l ≠ ke.1))
         (merged (foldl merge_grype s1 grype_vulns)).
Proof.
  intros s1. induction grype_vulns as [|vuln seen IH] using rev_ind.
  - apply Forall_forall. intros ke Hke. by left.
  - pose proof (grype_inv_run h0 trivy_vulns seen) as Hg. cbv zeta in Hg.
    fold s1 in Hg. rewrite foldl_snoc.
    set (st := foldl merge_grype s1 seen) in *.
    assert (Hkey : key_in (heap st) vuln = key_in h0 vuln)
      by apply same_core_key, (g_core _ _ _ _ _ Hg).
    assert (Hold : Forall (λ ke, ke ∈ merged s1
                ∨ ((ke.1 ∉ PyDict.keys (merged s1))
                   ∧ ∃ before after,
                       seen ++ [vuln] = before ++ ke.2 :: after
                       ∧ ∀ l, l ∈ before → key_in h0 l ≠ ke.1)) (merged st)).
    { eapply Forall_impl; [apply IH|]. intros ke [?|(Hk & before & after & -> & Hb)];
        [by left | right]. split; [done|].
      exists before, (after ++ [vuln]). split; [by rewrite <- app_assoc | done]. }
    unfold merge_grype. rewrite Hkey.
    destruct (PyDict.get (key_in h0 vuln) (merged st)) eqn:Hget; simpl; [done|].
    rewrite PyDict.set_absent by done. apply Forall_app. split; [done|].
    apply Forall_singleton. right. simpl.
    apply PyDict.get_None in Hget.
    split.
    + intros Hk. apply Hget, (g_cover _ _ _ _ _ Hg). by left.
    + exists seen, []. split; [done|]. intros l Hl Heq.
      apply Hget, (g_cover _ _ _ _ _ Hg). right.
      apply list_elem_of_fmap. by exists l.
Qed.

(** X7.  Which object stands for a key in the result.  A returned finding
    whose key the first sequence holds is the last finding of that sequence
    with the key (a later Trivy finding replaces an earlier one of the same
    key); a returned finding whose key only the second sequence holds is the
    first finding of that sequence with the key. *)
Theorem merge_vulnerabilities_representative
    (h : loc → finding) (trivy_vulns grype_vulns : list loc) :
  let '(_, out, _) := merge_vulnerabilities h trivy_vulns grype_vulns in
  ∀ e, e ∈ out →
    (∃ before after,
        trivy_vulns = before ++ e :: after
        ∧ ∀ l, l ∈ after → key_in h l ≠ key_in h e)
    ∨ ((key_in h e ∉ (λ l, key_in h l) <$> trivy_vulns)
       ∧ ∃ before after,
           grype_vulns = before ++ e :: after
           ∧ ∀ l, l ∈ before → key_in h l ≠ key_in h e).
Proof.
  rewrite merge_vulnerabilities_eq. cbv zeta.
  pose proof (trivy_inv_run h trivy_vulns) as Ht.
  pose proof (grype_inv_run h trivy_vulns grype_vulns) as Hg. cbv zeta in Hg.
  pose proof (trivy_run_last h trivy_vulns) as Hlast.
  pose proof (grype_run_first h trivy_vulns grype_vulns) as Hfirst.
  cbv zeta in Hfirst.
  set (s1 := foldl add_trivy (initial_state h) trivy_vulns) in *.
  set (st := foldl merge_grype s1 grype_vulns) in *.
  rewrite Forall_forall in Hlast. rewrite Forall_forall in Hfirst.
  pose proof (g_keys _ _ _ _ _ Hg) as Hkeys. rewrite Forall_forall in Hkeys.
  intros e (k & Hin)%elem_of_values.
  pose proof (Hkeys _ Hin) as Hk. simpl in Hk. subst k.
  destruct (Hfirst _ Hin) as [Hs1|[Hk Hex]]; simpl in *.
  - left. apply (Hlast _ Hs1).
  - right. split; [|done]. by rewrite <- (t_cover _ _ _ Ht).
Qed.

Example merge_representative_sample :
  let '(_, out1, _) := merge_vulnerabilities sample_store [0; 3]%nat [] in
  let '(_, out2, _) := merge_vulnerabilities sample_store [] [1; 2]%nat in
  out1 = [3%nat] ∧ out2 = [1%nat].
Proof. vm_compute. by repeat split. Qed.

(** *** The Grype parser *)

(** One entry of Grype's [matches] array with the fields that
    [parse_grype_results] reads.  A text field that is absent in the document
    holds the default [""] that [.get] substitutes; [fix_versions] is
    [vulnerability.fix.versions], the empty list when the key or the [fix]
    object is absent (the script tests the list for truth and treats both the
    same); [vulnerability_urls] is [[]] when absent. *)
Record grype_match := {
  vulnerability_id : string;
  vulnerability_severity : option string;
  vulnerability_description : string;
  fix_versions : list string;
  vulnerability_urls : list string;
  artifact_name : string;
  artifact_version : string;
  artifact_type : string
}.

(** The dictionary [normalized] built for one match. *)
Definition normalize_grype (m : grype_match) : finding :=
  {| id := vulnerability_id m;
     package := artifact_name m;
     version := artifact_version m;
     severity := normalize_severity (vulnerability_severity m);
     title := "";
     description := vulnerability_description m;
     fixed_version := match fix_versions m with v :: _ => v | [] => "" end;
     cvss_score := JNull;
     cvss_v2_score := JNull;
     cvss_v3_score := JNull;
     cvss_vector := JNull;
     references := vulnerability_urls m;
     target := artifact_type m;
     type := artifact_type m;
     source := "grype";
     found_by := [] |}.

(** The argument is [grype_data.get("matches", [])]. *)
Definition parse_grype_results (matches : list grype_match) : list finding :=
  normalize_grype <$> matches.

Lemma upper_upper_ascii c : upper_ascii (upper_ascii c) = upper_ascii c.
Proof. by destruct c as [[] [] [] [] [] [] [] []]. Qed.

Lemma upper_upper s : upper (upper s) = upper s.
Proof. induction s as [|c s IH]; simpl; [done|]. by rewrite upper_upper_ascii, IH. Qed.

Lemma upper_nonempty s : s ≠ "" → upper s ≠ "".
Proof. by destruct s. Qed.

(** Normalizing a normalized severity changes nothing. *)
Lemma normalize_severity_idempotent severity :
  normalize_severity (Some (normalize_severity severity)) = normalize_severity severity.
Proof.
  destruct severity as [s|]; [|done].
  destruct (decide (s = "")) as [->|Hs]; [done|].
  rewrite (normalize_severity_nonempty s Hs).
  rewrite (normalize_severity_nonempty (upper s)) by by apply upper_nonempty.
  apply upper_upper.
Qed.

Lemma normalize_severity_not_empty severity : normalize_severity severity ≠ "".
Proof.
  destruct severity as [s|]; [|done].
  destruct (decide (s = "")) as [->|Hs]; [done|].
  rewrite (normalize_severity_nonempty s Hs). by apply upper_nonempty.
Qed.

(** X8.  Both parsers leave every finding with a normalized severity: it is
    never empty, and normalizing it again gives the same text (so comparing
    the severities of a Trivy and a Grype finding compares upper-case text).
    The Grype parser yields one finding per match, in the order of the
    matches. *)
Theorem parsers_normalize_severity
    (results : list trivy_result) (matches : list grype_match) :
  let normalized f :=
    severity f ≠ "" ∧ normalize_severity (Some (severity f)) = severity f in
  Forall normalized (parse_trivy_results results)
  ∧ Forall normalized (parse_grype_results matches)
  ∧ length (parse_grype_results matches) = length matches
  ∧ length (parse_trivy_results results)
    = length (results ≫= Vulnerabilities).
Proof.
  intros normalized. split_and!.
  - apply Forall_forall.
    intros f (result & vuln & _ & _ & ->)%elem_of_parse_trivy_results.
    unfold normalize_trivy. destruct (select_cvss _) as [[v2 v3] vec]. simpl.
    split; [apply normalize_severity_not_empty | apply normalize_severity_idempotent].
  - apply Forall_fmap, Forall_forall. intros m _. simpl.
    split; [apply normalize_severity_not_empty | apply normalize_severity_idempotent].
  - apply length_fmap.
  - unfold parse_trivy_results.
    induction results as [|result results IH]; [done|].
    rewrite fmap_cons, bind_cons. simpl.
    rewrite !length_app, length_fmap. f_equal. exact IH.
Qed.

(** *** The Trivy-compatible output *)

(** The JSON objects of the output, with their keys as field names.  An
    optional key is [None] when the script does not set it. *)
Module Output.
Record vuln := {
  VulnerabilityID : string;
  PkgName : string;
  InstalledVersion : string;
  Severity : string;
  Title : string;
  Description : string;
  FixedVersion : string;
  References : list string;
  FoundBy : string;
  CVSSScore : option json;
  CVSSV2Score : option json;
  CVSSV3Score : option json;
  CVSSVector : option json
}.
Record result := {
  Target : string;
  Type_ : string;
  Vulnerabilities : list vuln
}.
Record merge_stats_json := {
  trivy_count : Z;
  grype_count : Z;
  merged_count : Z;
  trivy_only : Z;
  grype_only : Z;
  found_by_both : Z
}.
Record document := {
  SchemaVersion : json;
  ArtifactName : json;
  ArtifactType : json;
  Metadata : json;
  Results : list result;
  MergeStats : option merge_stats_json;
  BaseImage : option string
}.
End Output.

(** The Trivy document that the script loads: the four header values, [None]
    when the key is absent, and [trivy_data.get("Results", [])]. *)
Module Document.
Record t := {
  SchemaVersion : option json;
  ArtifactName : option json;
  ArtifactType : option json;
  Metadata : option json;
  Results : list trivy_result
}.
End Document.

(** [if v.get(key): out[key] = v[key]] *)
Definition if_truthy (v : json) : option json :=
  if truthy v then Some v else None.

(** The dictionary [trivy_vuln] built for one merged finding. *)
Definition to_trivy_vuln (v : finding) : Output.vuln :=
  {| Output.VulnerabilityID := id v;
     Output.PkgName := package v;
     Output.InstalledVersion := version v;
     Output.Severity := severity v;
     Output.Title := title v;
     Output.Description := description v;
     Output.FixedVersion := fixed_version v;
     Output.References := references v;
     Output.FoundBy := String.concat "," (found_by v);
     Output.CVSSScore := if_truthy (cvss_score v);
     Output.CVSSV2Score := if_truthy (cvss_v2_score v);
     Output.CVSSV3Score := if_truthy (cvss_v3_score v);
     Output.CVSSVector := if_truthy (cvss_vector v) |}.

(** The loop that fills [by_target], a [defaultdict(list)]: the finding is
    appended to the list under its target, which is created empty when the
    target is new. *)
Definition group_by_target (merged_vulns : list finding) : list (string * list finding) :=
  foldl (λ by_target vuln,
           PyDict.set (target vuln)
             (default [] (PyDict.get (target vuln) by_target) ++ [vuln])
             by_target)
        [] merged_vulns.

(** The [Results] array that [create_trivy_compatible_output] builds. *)
Definition output_results (merged_vulns : list finding) : list Output.result :=
  (λ item,
     {| Output.Target := item.1;
        Output.Type_ := match item.2 with v :: _ => type v | [] => "" end;
        Output.Vulnerabilities := to_trivy_vuln <$> item.2 |})
  <$> group_by_target merged_vulns.

Lemma group_by_target_snoc vulns vuln :
  group_by_target (vulns ++ [vuln]) =
  PyDict.set (target vuln)
    (default [] (PyDict.get (target vuln) (group_by_target vulns)) ++ [vuln])
    (group_by_target vulns).
Proof. unfold group_by_target. by rewrite foldl_app. Qed.

(** What [by_target] holds under a target: the findings with that target, in
    their order; nothing when there is none. *)
Lemma group_by_target_get vulns t :
  PyDict.get t (group_by_target vulns) =
  match filter (λ v, target v = t) vulns with
  | [] => None
  | g => Some g
  end.
Proof.
  induction vulns as [|vuln vulns IH] using rev_ind; [done|].
  rewrite group_by_target_snoc, filter_app, filter_cons, filter_nil.
  destruct (decide (target vuln = t)) as [->|Hne].
  - rewrite PyDict.get_set_eq, IH.
    destruct (filter _ vulns); simpl; [done|]. by destruct (_ ++ _) eqn:?.
  - rewrite PyDict.get_set_ne, IH, app_nil_r by done. done.
Qed.

Lemma group_by_target_NoDup vulns : NoDup (PyDict.keys (group_by_target vulns)).
Proof.
  induction vulns as [|vuln vulns IH] using rev_ind; [apply NoDup_nil_2|].
  rewrite group_by_target_snoc. by apply PyDict.keys_set_NoDup.
Qed.

Lemma group_by_target_groups vulns :
  Forall (λ item, item.2 = filter (λ v, target v = item.1) vulns ∧ item.2 ≠ [])
         (group_by_target vulns).
Proof.
  apply Forall_forall. intros [t g] Hin.
  apply PyDict.elem_of_get in Hin; [|apply group_by_target_NoDup].
  rewrite group_by_target_get in Hin. simpl.
  destruct (filter _ vulns); [done|]. by injection Hin as <-.
Qed.

Lemma set_append_values {K V} `{EqDecision K} (k : K) (x : V) (d : list (K * list V)) :
  mjoin (PyDict.values (PyDict.set k (default [] (PyDict.get k d) ++ [x]) d))
  ≡ₚ mjoin (PyDict.values d) ++ [x].
Proof.
  unfold PyDict.values. induction d as [|[k' g] d IH]; simpl; [done|].
  destruct (decide (k' = k)) as [->|Hne]; simpl.
  - rewrite <- !app_assoc. apply Permutation_app_head, Permutation_app_comm.
  - rewrite IH. by rewrite app_assoc.
Qed.

Lemma group_by_target_Permutation vulns :
  mjoin (PyDict.values (group_by_target vulns)) ≡ₚ vulns.
Proof.
  induction vulns as [|vuln vulns IH] using rev_ind; [done|].
  by rewrite group_by_target_snoc, set_append_values, IH.
Qed.

Lemma output_results_targets merged_vulns :
  Output.Target <$> output_results merged_vulns
  = PyDict.keys (group_by_target merged_vulns).
Proof.
  unfold output_results. rewrite <- list_fmap_compose. by apply list_fmap_ext.
Qed.

Lemma output_results_all merged_vulns :
  mjoin (Output.Vulnerabilities <$> output_results merged_vulns)
  ≡ₚ to_trivy_vuln <$> merged_vulns.
Proof.
  unfold output_results. rewrite <- list_fmap_compose.
  rewrite <- (group_by_target_Permutation merged_vulns) at 2.
  generalize (group_by_target merged_vulns). intros d. unfold PyDict.values.
  induction d as [|[t g] d IH]; [done|]. simpl. by rewrite fmap_app, IH.
Qed.

(** X9.  [create_trivy_compatible_output] groups the merged findings by
    target without losing or repeating one: the targets of the results are
    pairwise distinct and are the targets of the findings; each result holds
    the findings of its target, all of them, in their order, and is never
    empty; its [Type] is the type of the first of them; and all results
    together hold every merged finding exactly once. *)
Theorem output_results_group_by_target (merged_vulns : list finding) :
  let results := output_results merged_vulns in
  NoDup (Output.Target <$> results)
  ∧ (∀ t, t ∈ Output.Target <$> results ↔ t ∈ target <$> merged_vulns)
  ∧ Forall (λ r, ∃ v rest,
              filter (λ v, target v = Output.Target r) merged_vulns = v :: rest
              ∧ Output.Vulnerabilities r = to_trivy_vuln <$> (v :: rest)
              ∧ Output.Type_ r = type v) results
  ∧ mjoin (Output.Vulnerabilities <$> results) ≡ₚ to_trivy_vuln <$> merged_vulns.
Proof.
  intros results. subst results.
  split_and!; [| | |apply output_results_all].
  - rewrite output_results_targets. apply group_by_target_NoDup.
  - intros t. rewrite output_results_targets, PyDict.elem_of_keys_get,
      group_by_target_get, list_elem_of_fmap. split.
    + intros [g Hg]. destruct (filter _ merged_vulns) as [|v rest] eqn:Hf; [done|].
      assert (v ∈ filter (λ v, target v = t) merged_vulns) as Hv
        by (rewrite Hf; left).
      apply list_elem_of_filter in Hv as [Ht Hv]. by exists v.
    + intros (v & -> & Hv).
      assert (v ∈ filter (λ v', target v' = target v) merged_vulns) as Hin
        by by apply list_elem_of_filter.
      destruct (filter _ merged_vulns); [by apply elem_of_nil in Hin | eauto].
  - unfold output_results. apply Forall_fmap.
    eapply Forall_impl; [apply group_by_target_groups|].
    intros [t g] [Hg Hne]. simpl in *. destruct g as [|v rest]; [done|].
    exists v, rest. by rewrite <- Hg.
Qed.

Example output_results_sample :
  let a := sample_finding "a" "" "trivy" in
  let b := set_found_by ["trivy"; "grype"] (sample_finding "b" "" "trivy") in
  (λ r, (Output.Target r, Output.FoundBy <$> Output.Vulnerabilities r))
    <$> output_results [a; b]
  = [("app", [""; "trivy,grype"])].
Proof. reflexivity. Qed.

(** [create_trivy_compatible_output(merged_vulns, original_trivy_data)] *)
Definition create_trivy_compatible_output (merged_vulns : list finding)
    (original_trivy_data : Document.t) : Output.document :=
  {| Output.SchemaVersion := default (JInt 2) (Document.SchemaVersion original_trivy_data);
     Output.ArtifactName := default (JStr "") (Document.ArtifactName original_trivy_data);
     Output.ArtifactType := default (JStr "") (Document.ArtifactType original_trivy_data);
     Output.Metadata := default (JDict []) (Document.Metadata original_trivy_data);
     Output.Results := output_results merged_vulns;
     Output.MergeStats := None;
     Output.BaseImage := None |}.

(** *** The script as a whole *)

(** Each parser builds new dictionaries.  [store_of] puts a list of findings
    at the identities 0, 1, 2, ...; the other identities hold an empty
    finding that nothing refers to. *)
Definition empty_finding : finding :=
  {| id := ""; package := ""; version := ""; severity := ""; title := "";
     description := ""; fixed_version := ""; cvss_score := JNull;
     cvss_v2_score := JNull; cvss_v3_score := JNull; cvss_vector := JNull;
     references := []; target := ""; type := ""; source := ""; found_by := [] |}.

Definition store_of (objects : list finding) : loc → finding :=
  λ l, default empty_finding (objects !! l).

(** [main] between loading the two documents and writing the output:
    [grype_matches] is [grype_data.get("matches", [])] (no match at all when
    the Grype file is missing) and [base_image] the optional fourth
    argument. *)
Definition merge_main (trivy_data : Document.t) (grype_matches : list grype_match)
    (base_image : option string) : Output.document :=
  let trivy_vulns := parse_trivy_results (Document.Results trivy_data) in
  let grype_vulns := parse_grype_results grype_matches in
  let h := store_of (trivy_vulns ++ grype_vulns) in
  let '(h', merged_vulns, stats) :=
    merge_vulnerabilities h (seq 0 (length trivy_vulns))
      (seq (length trivy_vulns) (length grype_vulns)) in
  let output := create_trivy_compatible_output (h' <$> merged_vulns) trivy_data in
  {| Output.SchemaVersion := Output.SchemaVersion output;
     Output.ArtifactName := Output.ArtifactName output;
     Output.ArtifactType := Output.ArtifactType output;
     Output.Metadata := Output.Metadata output;
     Output.Results := Output.Results output;
     Output.MergeStats :=
       Some {| Output.trivy_count := Z.of_nat (length trivy_vulns);
               Output.grype_count := Z.of_nat (length grype_vulns);
               Output.merged_count := Z.of_nat (length merged_vulns);
               Output.trivy_only := trivy_only stats;
               Output.grype_only := grype_only stats;
               Output.found_by_both := both stats |};
     Output.BaseImage :=
       match base_image with
       | Some b => if nonempty b then Some b else None
       | None => None
       end |}.

Lemma both_nonneg h trivy_vulns grype_vulns :
  0 ≤ both (stats (foldl merge_grype (foldl add_trivy (initial_state h) trivy_vulns)
                     grype_vulns)).
Proof.
  pose proof (trivy_inv_run h trivy_vulns) as Ht.
  induction grype_vulns as [|vuln seen IH] using rev_ind.
  - simpl. by rewrite (t_stats _ _ _ Ht).
  - rewrite foldl_snoc. unfold merge_grype at 1.
    destruct (PyDict.get _ _); simpl; lia.
Qed.

(** X10.  The statistics that [main] writes agree with the document it
    writes: [merged_count] is the number of vulnerabilities in the output's
    results and never exceeds [trivy_count + grype_count]; [trivy_count] and
    [grype_count] are the numbers of vulnerability entries and matches read;
    every Grype match is counted once, in [grype_only] or in [found_by_both];
    and no counter is negative. *)
Theorem merge_main_statistics
    (trivy_data : Document.t) (grype_matches : list grype_match)
    (base_image : option string) :
  let output := merge_main trivy_data grype_matches base_image in
  ∃ s, Output.MergeStats output = Some s
    ∧ Output.trivy_count s
      = Z.of_nat (length (Document.Results trivy_data ≫= Vulnerabilities))
    ∧ Output.grype_count s = Z.of_nat (length grype_matches)
    ∧ Output.merged_count s
      = Z.of_nat (length (mjoin (Output.Vulnerabilities <$> Output.Results output)))
    ∧ Output.merged_count s ≤ Output.trivy_count s + Output.grype_count s
    ∧ Output.grype_only s + Output.found_by_both s = Output.grype_count s
    ∧ 0 ≤ Output.trivy_only s ∧ 0 ≤ Output.grype_only s
    ∧ 0 ≤ Output.found_by_both s.
Proof.
  intros output. subst output. unfold merge_main.
  set (trivy_vulns := parse_trivy_results (Document.Results trivy_data)).
  set (grype_vulns := parse_grype_results grype_matches).
  set (h := store_of (trivy_vulns ++ grype_vulns)).
  set (T := seq 0 (length trivy_vulns)).
  set (G := seq (length trivy_vulns) (length grype_vulns)).
  rewrite merge_vulnerabilities_eq. cbv zeta.
  pose proof (trivy_inv_run h T) as Ht.
  pose proof (grype_inv_run h T G) as Hg. cbv zeta in Hg.
  destruct (merge_output_keys_facts h T G) as (_ & Hnd & Hmem).
  set (s1 := foldl add_trivy (initial_state h) T) in *.
  set (st := foldl merge_grype s1 G) in *.
  eexists. split; [reflexivity|]. simpl.
  pose proof (g_both _ _ _ _ _ Hg) as Hboth.
  pose proof (g_only _ _ _ _ _ Hg) as Honly.
  pose proof (both_nonneg h T G) as Hpos. fold s1 st in Hpos.
  assert (length (merged s1) ≤ length (merged st))%nat as Hle.
  { rewrite <- (length_fmap fst (merged s1)), <- (length_fmap fst (merged st)).
    apply submseteq_length, NoDup_submseteq; [apply (t_nodup _ _ _ Ht)|].
    intros k Hk. apply (g_cover _ _ _ _ _ Hg). by left. }
  assert (length G = length grype_vulns) as HG by apply length_seq.
  assert (length T = length trivy_vulns) as HT by apply length_seq.
  assert (length (PyDict.values (merged st)) ≤ length T + length G)%nat as Hcount.
  { rewrite <- (length_fmap (λ l, key_in h l) (PyDict.values (merged st))).
    rewrite <- length_app, <- (length_fmap (λ l, key_in h l) (T ++ G)).
    apply submseteq_length, NoDup_submseteq; [done|].
    intros k Hk. rewrite fmap_app, elem_of_app. by apply Hmem. }
  split_and!.
  - unfold trivy_vulns, parse_trivy_results. f_equal.
    generalize (Document.Results trivy_data). intros results.
    induction results as [|result results IH]; [done|].
    rewrite fmap_cons, bind_cons. simpl.
    rewrite !length_app, length_fmap. f_equal. exact IH.
  - unfold grype_vulns, parse_grype_results. by rewrite length_fmap.
  - rewrite output_results_all, !length_fmap. done.
  - lia.
  - lia.
  - apply Nat2Z.is_nonneg.
  - lia.
  - lia.
Qed.

Example merge_main_sample :
  let trivy_data :=
    {| Document.SchemaVersion := None; Document.ArtifactName := Some (JStr "app:1");
       Document.ArtifactType := None; Document.Metadata := None;
       Document.Results := sample_trivy_results sample_cvss |} in
  let grype_matches :=
    [ {| vulnerability_id := "CVE-2024-1"; vulnerability_severity := Some "high";
         vulnerability_description := "a longer description";
         fix_versions := ["1.1"; "2.0"]; vulnerability_urls := ["https://x"];
         artifact_name := "Foo"; artifact_version := "1.0"; artifact_type := "deb" |};
      {| vulnerability_id := "CVE-2024-2"; vulnerability_severity := None;
         vulnerability_description := ""; fix_versions := [];
         vulnerability_urls := []; artifact_name := "bar";
         artifact_version := "2"; artifact_type := "npm" |} ] in
  let output := merge_main trivy_data grype_matches (Some "") in
  Output.MergeStats output
  = Some {| Output.trivy_count := 1; Output.grype_count := 2;
            Output.merged_count := 2; Output.trivy_only := 0;
            Output.grype_only := 1; Output.found_by_both := 1 |}
  ∧ Output.BaseImage output = None
  ∧ Output.SchemaVersion output = JInt 2
  ∧ (λ r, (Output.Target r, Output.Type_ r,
           (λ v, (Output.VulnerabilityID v, Output.Severity v, Output.Description v,
                  Output.FixedVersion v, Output.FoundBy v))
             <$> Output.Vulnerabilities r)) <$> Output.Results output
    = [ ("app", "debian",
         [("CVE-2024-1", "HIGH", "a longer description", "1.1", "trivy,grype")]);
        ("npm", "npm", [("CVE-2024-2", "UNKNOWN", "", "", "grype")]) ].
Proof. vm_compute. by repeat split. Qed.

End Merge.

(** ** scripts/compare.py *)

Module Compare.

(** [d.get(key, 0)] and [d.get(key, {})]. *)
Definition get0 (k : string) (d : list (string * Z)) : Z :=
  default 0 (PyDict.get k d).

Definition getd (k : string) (d : list (string * list (string * Z)))
    : list (string * Z) :=
  default [] (PyDict.get k d).

(** The order of [sorted] on strings.  Python compares code points; on UTF-8
    text the byte-wise order used here is the same order. *)
Definition str_le (a b : string) : Prop := String.leb a b = true.

#[global] Instance str_le_dec : RelDecision str_le.
Proof. intros a b. unfold str_le. apply _. Defined.

(** [sorted(set(a) | set(b))] *)
Definition sorted_union (a b : list string) : list string :=
  merge_sort str_le (elements ((list_to_set a : gset string) ∪ list_to_set b)).

(** [{img["image"]: img for img in images}] *)
Definition index_images (images : list Snapshot.image_entry)
    : list (string * Snapshot.image_entry) :=
  foldl (λ d img, PyDict.set (Snapshot.image img) img d) [] images.

Record image_diff := {
  image : string;
  status : string;
  os_level_change : list (string * Z);
  app_level_change : list (string * Z);
  total_change : list (string * Z)
}.

Record diff := {
  previous_timestamp : option string;
  current_timestamp : option string;
  images : list image_diff;
  summary : list (string * list (string * Z))
}.

(** One of the loops over the six severities: the dictionary of
    [curr.get(severity, 0) - prev.get(severity, 0)]. *)
Definition level_change (prev curr : list (string * Z)) : list (string * Z) :=
  foldl (λ d severity,
           PyDict.set severity (get0 severity curr - get0 severity prev) d)
        [] severities.

(** Body of the loop over [sorted(all_images)].  An image entry is a
    dictionary with at least the key ["image"], hence true in a condition:
    [prev_img and curr_img] tests that both lookups found an entry. *)
Definition diff_image (prev_images curr_images : list (string * Snapshot.image_entry))
    (image : string) : image_diff :=
  match PyDict.get image prev_images, PyDict.get image curr_images with
  | Some prev_img, Some curr_img =>
      {| image := image;
         status := "compared";
         os_level_change :=
           level_change (Snapshot.os_level prev_img) (Snapshot.os_level curr_img);
         app_level_change :=
           level_change (Snapshot.app_level prev_img) (Snapshot.app_level curr_img);
         total_change :=
           level_change (Snapshot.total prev_img) (Snapshot.total curr_img) |}
  | Some _, None =>
      {| image := image; status := "removed";
         os_level_change := []; app_level_change := []; total_change := [] |}
  | None, Some _ =>
      {| image := image; status := "new";
         os_level_change := []; app_level_change := []; total_change := [] |}
  | None, None =>
      {| image := image; status := "unknown";
         os_level_change := []; app_level_change := []; total_change := [] |}
  end.

Definition categories : list string := ["os_level"; "app_level"; "total"].

Definition calculate_diff (previous current : Snapshot.t) : diff :=
  let prev_images := index_images (Snapshot.images previous) in
  let curr_images := index_images (Snapshot.images current) in
  let all_images := sorted_union (PyDict.keys prev_images) (PyDict.keys curr_images) in
  let prev_summary := Snapshot.summary previous in
  let curr_summary := Snapshot.summary current in
  {| previous_timestamp := Snapshot.timestamp previous;
     current_timestamp := Snapshot.timestamp current;
     images := diff_image prev_images curr_images <$> all_images;
     summary :=
       foldl (λ d category,
                PyDict.set category
                  (level_change (getd category prev_summary)
                     (getd category curr_summary)) d)
             [] categories |}.

(** The change dictionary of one image entry for a level name. *)
Definition change_of (category : string) (e : image_diff) : list (string * Z) :=
  if (category =? "os_level")%string then os_level_change e
  else if (category =? "app_level")%string then app_level_change e
  else total_change e.

(** The delta that a reader of the drift finds for a level and severity, in
    the summary and in one image entry (an absent key reads as 0). *)
Definition summary_delta (d : diff) (category severity : string) : Z :=
  get0 severity (getd category (summary d)).

Definition image_delta (category severity : string) (e : image_diff) : Z :=
  get0 severity (change_of category e).

Example calculate_diff_sample :
  let previous := Scan.save_results_to_json "t0"
    [ {| Scan.image_name := "app:1"; Scan.os_level := Scan.mkStats 5 0 0 0 0 0;
         Scan.app_level := Scan.new_stats |};
      {| Scan.image_name := "old:1"; Scan.os_level := Scan.new_stats;
         Scan.app_level := Scan.new_stats |} ] in
  let current := Scan.save_results_to_json "t1"
    [ {| Scan.image_name := "db:2"; Scan.os_level := Scan.new_stats;
         Scan.app_level := Scan.mkStats 0 1 0 0 0 0 |};
      {| Scan.image_name := "app:1"; Scan.os_level := Scan.mkStats 2 0 0 0 0 0;
         Scan.app_level := Scan.new_stats |} ] in
  let d := calculate_diff previous current in
  (λ e, (image e, status e, image_delta "total" "critical" e)) <$> images d
  = [("app:1", "compared", -3); ("db:2", "new", 0); ("old:1", "removed", 0)]
  ∧ summary_delta d "total" "critical" = -3
  ∧ summary_delta d "total" "high" = 1.
Proof. vm_compute. by repeat split. Qed.

(** *** Status classification *)

Lemma elem_of_sorted_union a b x : x ∈ sorted_union a b ↔ x ∈ a ∨ x ∈ b.
Proof.
  unfold sorted_union. rewrite merge_sort_Permutation, elem_of_elements.
  by rewrite elem_of_union, !elem_of_list_to_set.
Qed.

Lemma NoDup_sorted_union a b : NoDup (sorted_union a b).
Proof. unfold sorted_union. rewrite merge_sort_Permutation. apply NoDup_elements. Qed.

Lemma index_images_snoc images img :
  index_images (images ++ [img]) =
  PyDict.set (Snapshot.image img) img (index_images images).
Proof. unfold index_images. by rewrite foldl_app. Qed.

Lemma elem_of_keys_index_images images name :
  name ∈ PyDict.keys (index_images images) ↔ name ∈ Snapshot.image <$> images.
Proof.
  induction images as [|img images IH] using rev_ind.
  - done.
  - rewrite index_images_snoc, PyDict.elem_of_keys_set, IH, fmap_app, elem_of_app.
    simpl. rewrite list_elem_of_singleton. tauto.
Qed.

Lemma get_index_images_is_Some images name :
  is_Some (PyDict.get name (index_images images)) ↔ name ∈ Snapshot.image <$> images.
Proof. by rewrite <- PyDict.elem_of_keys_get, elem_of_keys_index_images. Qed.

Lemma diff_image_image prev_images curr_images name :
  image (diff_image prev_images curr_images name) = name.
Proof. unfold diff_image. by repeat case_match. Qed.

Lemma diff_image_status prev_images curr_images name :
  status (diff_image prev_images curr_images name) =
  match PyDict.get name prev_images, PyDict.get name curr_images with
  | Some _, Some _ => "compared"
  | Some _, None => "removed"
  | None, Some _ => "new"
  | None, None => "unknown"
  end.
Proof. unfold diff_image. by repeat case_match. Qed.

Lemma calculate_diff_image_names previous current :
  image <$> images (calculate_diff previous current) =
  sorted_union (PyDict.keys (index_images (Snapshot.images previous)))
    (PyDict.keys (index_images (Snapshot.images current))).
Proof.
  unfold calculate_diff. simpl. rewrite <- list_fmap_compose.
  rewrite <- (list_fmap_id (sorted_union _ _)) at 2.
  apply list_fmap_ext. intros _ name _. apply diff_image_image.
Qed.

Lemma elem_of_calculate_diff_image_names previous current name :
  name ∈ image <$> images (calculate_diff previous current) ↔
  name ∈ Snapshot.image <$> Snapshot.images previous
  ∨ name ∈ Snapshot.image <$> Snapshot.images current.
Proof.
  by rewrite calculate_diff_image_names, elem_of_sorted_union,
    !elem_of_keys_index_images.
Qed.

(** The status of the entry for an identifier that some snapshot holds. *)
Lemma diff_image_status_presence prev curr name :
  name ∈ Snapshot.image <$> prev ∨ name ∈ Snapshot.image <$> curr →
  status (diff_image (index_images prev) (index_images curr) name) =
  if bool_decide (name ∈ Snapshot.image <$> prev)
  then if bool_decide (name ∈ Snapshot.image <$> curr)
       then "compared" else "removed"
  else "new".
Proof.
  intros Hin. rewrite diff_image_status.
  pose proof (get_index_images_is_Some prev name) as Hp.
  pose proof (get_index_images_is_Some curr name) as Hc.
  destruct (PyDict.get name (index_images prev)),
    (PyDict.get name (index_images curr)).
  - rewrite !bool_decide_eq_true_2; [done | apply Hc | apply Hp]; eauto.
  - rewrite bool_decide_eq_true_2, bool_decide_eq_false_2;
      [done | | apply Hp; eauto].
    intros [? [=]]%Hc.
  - rewrite bool_decide_eq_false_2; [done|]. intros [? [=]]%Hp.
  - destruct Hin as [[? [=]]%Hp | [? [=]]%Hc].
Qed.

Lemma calculate_diff_statuses previous current :
  Forall (λ e, status e =
               if bool_decide (image e ∈ Snapshot.image <$> Snapshot.images previous)
               then if bool_decide (image e ∈ Snapshot.image <$> Snapshot.images current)
                    then "compared" else "removed"
               else "new") (images (calculate_diff previous current)).
Proof.
  apply Forall_forall. intros e He.
  assert (image e ∈ image <$> images (calculate_diff previous current)) as Hin
    by (apply list_elem_of_fmap; eauto).
  apply elem_of_calculate_diff_image_names in Hin.
  unfold calculate_diff in He. simpl in He.
  apply list_elem_of_fmap in He as (name & -> & _).
  rewrite diff_image_image in *. by apply diff_image_status_presence.
Qed.

(** C6.  Every image identifier of either snapshot appears exactly once in
    the drift's image list (the identifiers of the list are pairwise distinct
    and are exactly those of the two snapshots), and each entry carries the
    status that presence decides: compared when the identifier is in both
    snapshots, removed when it is only in the previous one, new when it is
    only in the current one. *)
Theorem calculate_diff_status_classification (previous current : Snapshot.t) :
  let d := calculate_diff previous current in
  let prev_names := Snapshot.image <$> Snapshot.images previous in
  let curr_names := Snapshot.image <$> Snapshot.images current in
  NoDup (image <$> images d)
  ∧ (∀ name, name ∈ image <$> images d ↔ name ∈ prev_names ∨ name ∈ curr_names)
  ∧ Forall (λ e, status e =
                 if bool_decide (image e ∈ prev_names)
                 then if bool_decide (image e ∈ curr_names)
                      then "compared" else "removed"
                 else "new") (images d).
Proof.
  intros d prev_names curr_names. split_and!.
  - unfold d. rewrite calculate_diff_image_names. apply NoDup_sorted_union.
  - intros name. apply elem_of_calculate_diff_image_names.
  - apply calculate_diff_statuses.
Qed.

(** *** The summary of the drift *)

(** The level of a snapshot image entry for a level name. *)
Definition level_of (category : string) (img : Snapshot.image_entry)
    : list (string * Z) :=
  if (category =? "os_level")%string then Snapshot.os_level img
  else if (category =? "app_level")%string then Snapshot.app_level img
  else Snapshot.total img.

(** The count that a snapshot stores for an image, level and severity; 0 when
    the snapshot has no entry for the image. *)
Definition stored (snap : Snapshot.t) (category severity name : string) : Z :=
  match PyDict.get name (index_images (Snapshot.images snap)) with
  | Some img => get0 severity (level_of category img)
  | None => 0
  end.

Lemma level_change_get0 prev curr severity :
  severity ∈ severities →
  get0 severity (level_change prev curr) = get0 severity curr - get0 severity prev.
Proof.
  unfold severities. rewrite !elem_of_cons, elem_of_nil.
  intros [->|[->|[->|[->|[->|[->|[]]]]]]]; reflexivity.
Qed.

Lemma summary_delta_eq previous current category severity :
  category ∈ categories → severity ∈ severities →
  summary_delta (calculate_diff previous current) category severity =
  get0 severity (getd category (Snapshot.summary current))
  - get0 severity (getd category (Snapshot.summary previous)).
Proof.
  intros Hcat Hsev. rewrite <- level_change_get0 by done.
  unfold categories in Hcat. rewrite !elem_of_cons, elem_of_nil in Hcat.
  destruct Hcat as [->|[->|[->|[]]]]; reflexivity.
Qed.

Lemma written_summary now results category severity :
  category ∈ categories → severity ∈ severities →
  get0 severity (getd category (Snapshot.summary (Scan.save_results_to_json now results)))
  = Scan.sum_over (λ r, get0 severity (level_of category (Scan.image_data r))) results.
Proof.
  unfold categories, severities. rewrite !elem_of_cons, !elem_of_nil.
  intros [->|[->|[->|[]]]] [->|[->|[->|[->|[->|[->|[]]]]]]]; reflexivity.
Qed.

(** With pairwise distinct identifiers the index holds the entries in list
    order. *)
Lemma index_images_NoDup images :
  NoDup (Snapshot.image <$> images) →
  index_images images = (λ img, (Snapshot.image img, img)) <$> images.
Proof.
  induction images as [|img images IH] using rev_ind; [done|].
  rewrite fmap_app, NoDup_app. intros (Hnd & Hdisj & _).
  rewrite index_images_snoc, IH by done. rewrite PyDict.set_absent.
  - by rewrite fmap_app.
  - apply PyDict.get_None. unfold PyDict.keys.
    rewrite <- list_fmap_compose. intros Hin. apply (Hdisj _ Hin). simpl. left.
Qed.

(** Summing, over distinct keys that cover a dictionary, what the dictionary
    holds under each key sums the values of the dictionary. *)
Lemma py_sum_lookup {V} (g : V → Z) (d : list (string * V)) (ks : list string) :
  NoDup ks → NoDup (PyDict.keys d) → (∀ k, k ∈ PyDict.keys d → k ∈ ks) →
  py_sum ((λ k, match PyDict.get k d with Some v => g v | None => 0 end) <$> ks)
  = py_sum (g <$> PyDict.values d).
Proof.
  intros Hks Hd Hsub.
  destruct (submseteq_Permutation _ _ (NoDup_submseteq _ _ Hd Hsub)) as [rest Hperm].
  rewrite Hperm in Hks. apply NoDup_app in Hks as (_ & Hdisj & _).
  rewrite Hperm, fmap_app, py_sum_app.
  rewrite (py_sum_fmap_zero _ rest).
  - rewrite Z.add_0_r. clear Hsub Hperm Hdisj rest ks.
    unfold PyDict.keys, PyDict.values in *.
    induction d as [|[k v] d IH]; [done|].
    rewrite !fmap_cons in *. apply NoDup_cons in Hd as [Hk Hd].
    rewrite !py_sum_cons. simpl. rewrite decide_True by done. f_equal.
    rewrite <- IH by done. apply py_sum_fmap_ext. intros k' Hk'.
    rewrite decide_False; [done|]. by intros ->.
  - intros k Hk. destruct (PyDict.get k d) eqn:Hg; [|done].
    exfalso. apply (Hdisj k); [|done]. apply PyDict.elem_of_keys_get. eauto.
Qed.

Lemma stored_sum now results category severity ks :
  NoDup (Scan.image_name <$> results) → NoDup ks →
  (∀ k, k ∈ Scan.image_name <$> results → k ∈ ks) →
  py_sum (stored (Scan.save_results_to_json now results) category severity <$> ks)
  = Scan.sum_over (λ r, get0 severity (level_of category (Scan.image_data r))) results.
Proof.
  intros Hnd Hks Hsub. unfold stored. simpl.
  assert (Hnames : Snapshot.image <$> (Scan.image_data <$> results)
                   = Scan.image_name <$> results).
  { rewrite <- list_fmap_compose. by apply list_fmap_ext. }
  rewrite index_images_NoDup by by rewrite Hnames.
  rewrite (py_sum_lookup (λ img, get0 severity (level_of category img))).
  - unfold PyDict.values, Scan.sum_over. f_equal.
    rewrite <- !list_fmap_compose. by apply list_fmap_ext.
  - done.
  - unfold PyDict.keys. rewrite <- list_fmap_compose.
    change (fst ∘ _) with Snapshot.image. by rewrite Hnames.
  - unfold PyDict.keys. rewrite <- list_fmap_compose.
    change (fst ∘ _) with Snapshot.image. by rewrite Hnames.
Qed.

Lemma change_of_diff_image prev_images curr_images name category severity :
  severity ∈ severities →
  image_delta category severity (diff_image prev_images curr_images name) =
  match PyDict.get name prev_images, PyDict.get name curr_images with
  | Some p, Some c =>
      get0 severity (level_of category c) - get0 severity (level_of category p)
  | _, _ => 0
  end.
Proof.
  intros Hsev. unfold image_delta, diff_image, change_of, level_of.
  destruct (PyDict.get name prev_images), (PyDict.get name curr_images);
    simpl; repeat case_match; try done; by apply level_change_get0.
Qed.

(** What one image entry adds to the balance of the summary: its delta, plus
    the current count of a new image, minus the previous count of a removed
    one. *)
Definition image_balance (previous current : Snapshot.t)
    (category severity : string) (e : image_diff) : Z :=
  image_delta category severity e
  + (if (status e =? "new")%string
     then stored current category severity (image e) else 0)
  - (if (status e =? "removed")%string
     then stored previous category severity (image e) else 0).

Lemma image_balance_diff_image previous current category severity name :
  severity ∈ severities →
  image_balance previous current category severity
    (diff_image (index_images (Snapshot.images previous))
       (index_images (Snapshot.images current)) name)
  = stored current category severity name - stored previous category severity name.
Proof.
  intros Hsev. unfold image_balance.
  rewrite change_of_diff_image, diff_image_status, diff_image_image by done.
  unfold stored.
  destruct (PyDict.get name (index_images (Snapshot.images previous))),
    (PyDict.get name (index_images (Snapshot.images current))); simpl; lia.
Qed.

Definition one_image (name : string) (os app : Scan.VulnerabilityStats)
    : Scan.ImageVulnerabilities :=
  {| Scan.image_name := name; Scan.os_level := os; Scan.app_level := app |}.

(** C1, as stated, fails.  The summary of the drift is the difference of the
    two snapshots' summary blocks, which count every image; an image that is
    only in the current snapshot has status new and no per-image delta, so the
    per-image deltas do not add up to the summary. *)
Lemma calculate_diff_summary_not_sum_of_image_deltas :
  let previous := Scan.save_results_to_json "t0" [] in
  let current := Scan.save_results_to_json "t1"
    [one_image "db:2" (Scan.mkStats 1 0 0 0 0 0) Scan.new_stats] in
  let d := calculate_diff previous current in
  (λ e, (image e, status e)) <$> images d = [("db:2", "new")]
  ∧ summary_delta d "os_level" "critical" = 1
  ∧ py_sum (image_delta "os_level" "critical" <$> images d) = 0
  ∧ summary_delta d "os_level" "critical"
    ≠ py_sum (image_delta "os_level" "critical" <$> images d).
Proof. vm_compute. by repeat split. Qed.

(** C1, amended.  For two snapshots written by [save_results_to_json] from
    results with pairwise distinct image names, and for each level and
    severity: the summary delta of the drift equals the sum, over all
    per-image entries, of the image's delta plus the current count of an
    image with status new minus the previous count of an image with status
    removed; an entry whose status is not compared has delta zero; and when
    the two snapshots hold the same image identifiers the summary delta is
    the sum of the per-image deltas. *)
Theorem calculate_diff_summary_of_written_snapshots
    (now0 now1 : string)
    (prev_results curr_results : list Scan.ImageVulnerabilities)
    (category severity : string) :
  NoDup (Scan.image_name <$> prev_results) →
  NoDup (Scan.image_name <$> curr_results) →
  category ∈ categories →
  severity ∈ severities →
  let previous := Scan.save_results_to_json now0 prev_results in
  let current := Scan.save_results_to_json now1 curr_results in
  let d := calculate_diff previous current in
  summary_delta d category severity
    = py_sum (image_balance previous current category severity <$> images d)
  ∧ Forall (λ e, status e ≠ "compared" → image_delta category severity e = 0)
      (images d)
  ∧ ((∀ name, name ∈ Scan.image_name <$> prev_results ↔
              name ∈ Scan.image_name <$> curr_results) →
     summary_delta d category severity
       = py_sum (image_delta category severity <$> images d)).
Proof.
  intros Hprev Hcurr Hcat Hsev previous current d.
  assert (Hnames : ∀ now results,
            Snapshot.image <$> Snapshot.images (Scan.save_results_to_json now results)
            = Scan.image_name <$> results).
  { intros now results. simpl. rewrite <- list_fmap_compose.
    by apply list_fmap_ext. }
  pose proof (elem_of_calculate_diff_image_names previous current) as Hmem.
  pose proof (calculate_diff_statuses previous current) as Hstatus.
  pose proof (calculate_diff_image_names previous current) as Hall.
  fold d in Hmem, Hstatus, Hall.
  unfold previous, current in Hmem, Hstatus. rewrite !Hnames in Hmem, Hstatus.
  set (prev_images := index_images (Snapshot.images previous)) in *.
  set (curr_images := index_images (Snapshot.images current)) in *.
  set (all_images := sorted_union (PyDict.keys prev_images) (PyDict.keys curr_images)) in *.
  assert (Hnd : NoDup all_images) by apply NoDup_sorted_union.
  assert (Himages : images d = diff_image prev_images curr_images <$> all_images)
    by done.
  assert (Hbalance : summary_delta d category severity
            = py_sum (image_balance previous current category severity <$> images d)).
  { unfold d at 1. rewrite summary_delta_eq by done.
    unfold previous at 1, current at 1. rewrite !written_summary by done.
    rewrite Himages, <- list_fmap_compose.
    rewrite (py_sum_fmap_ext _
               (λ name, stored current category severity name
                        - stored previous category severity name))
      by (intros name _; by apply image_balance_diff_image).
    rewrite py_sum_fmap_sub. unfold previous, current.
    rewrite !stored_sum; try done.
    - rewrite <- Hall. intros k Hk. apply Hmem. by left.
    - rewrite <- Hall. intros k Hk. apply Hmem. by right. }
  split_and!; [done | |].
  - rewrite Himages. apply Forall_fmap, Forall_forall. intros name _. simpl.
    rewrite change_of_diff_image, diff_image_status by done.
    by destruct (PyDict.get name prev_images), (PyDict.get name curr_images).
  - intros Hsame. rewrite Hbalance. apply py_sum_fmap_ext. intros e He.
    rewrite Forall_forall in Hstatus.
    unfold image_balance.
    assert (image e ∈ Scan.image_name <$> prev_results
            ∧ image e ∈ Scan.image_name <$> curr_results) as [Hp Hc].
    { assert (image e ∈ image <$> images d) as Hin
        by (apply list_elem_of_fmap; eauto).
      apply Hmem in Hin as [Hin|Hin]; split; try done; by apply Hsame. }
    rewrite (Hstatus e He), !bool_decide_eq_true_2 by done. simpl. lia.
Qed.

Lemma calculate_diff_summary_of_written_snapshots_witness :
  let prev_results := [one_image "app:1" (Scan.mkStats 5 0 0 0 0 0) Scan.new_stats] in
  let curr_results := [one_image "app:1" (Scan.mkStats 2 0 0 0 0 0) Scan.new_stats] in
  let d := calculate_diff (Scan.save_results_to_json "t0" prev_results)
             (Scan.save_results_to_json "t1" curr_results) in
  summary_delta d "total" "critical"
  = py_sum (image_delta "total" "critical" <$> images d).
Proof.
  intros prev_results curr_results d.
  assert (Hp : NoDup (Scan.image_name <$> prev_results)) by apply NoDup_singleton.
  assert (Hc : NoDup (Scan.image_name <$> curr_results)) by apply NoDup_singleton.
  assert (Hcat : "total" ∈ categories) by (apply (bool_decide_eq_true_1 _); reflexivity).
  assert (Hsev : "critical" ∈ severities) by (apply (bool_decide_eq_true_1 _); reflexivity).
  destruct (calculate_diff_summary_of_written_snapshots "t0" "t1"
              prev_results curr_results "total" "critical" Hp Hc Hcat Hsev)
    as (_ & _ & Hsame).
  by apply Hsame.
Defined.

(** *** The Markdown report *)

(** [full_image.split('/')[-1]]: the text after the last slash. *)
Fixpoint last_component (cur s : string) : string :=
  match s with
  | EmptyString => cur
  | String c s' =>
      if Ascii.eqb c "/" then last_component "" s'
      else last_component (cur +:+ String c "") s'
  end.

Definition get_image_name (full_image : string) : string :=
  last_component "" full_image.

(** [{get_image_name(full_path): (img, full_path)
      for full_path, img in images.items()}] *)
Definition by_name (images : list (string * Snapshot.image_entry))
    : list (string * (Snapshot.image_entry * string)) :=
  foldl (λ d item, PyDict.set (get_image_name item.1) (item.2, item.1) d) [] images.

(** The lines appended to [markdown].  A line keeps the values that its
    f-string formats; [render] is the f-string. *)
Inductive md_line :=
| MdText (text : string)
| MdSummaryRow (prev_full_path curr_full_path : string)
    (prev_total curr_total : list (string * Z))
| MdHeading (prev_full_path curr_full_path : string)
| MdSeverityRow (severity : string) (before after : Z)
| MdTotalRow (before_total after_total : Z).

(** The severities that the report shows. *)
Definition breakdown_severities : list string :=
  ["critical"; "high"; "medium"; "low"; "negligible"].

(** The loop that sets [has_changes]. *)
Definition has_changes (prev_total curr_total : list (string * Z)) : bool :=
  existsb (λ severity,
             negb (get0 severity prev_total =? get0 severity curr_total))
          breakdown_severities.

Definition summary_rows
    (prev_by_name curr_by_name : list (string * (Snapshot.image_entry * string)))
    (all_image_names : list string) : list md_line :=
  all_image_names ≫= λ image_name,
    match PyDict.get image_name prev_by_name, PyDict.get image_name curr_by_name with
    | Some (prev_img, prev_full_path), Some (curr_img, curr_full_path) =>
        [MdSummaryRow prev_full_path curr_full_path
           (Snapshot.total prev_img) (Snapshot.total curr_img)]
    | _, _ => []
    end.

Definition breakdown
    (prev_by_name curr_by_name : list (string * (Snapshot.image_entry * string)))
    (all_image_names : list string) : list md_line :=
  all_image_names ≫= λ image_name,
    match PyDict.get image_name prev_by_name, PyDict.get image_name curr_by_name with
    | Some (prev_img, prev_full_path), Some (curr_img, curr_full_path) =>
        let prev_total := Snapshot.total prev_img in
        let curr_total := Snapshot.total curr_img in
        if has_changes prev_total curr_total then
          [MdHeading prev_full_path curr_full_path;
           MdText "| Severity | Before | After | Delta |";
           MdText "|---|---:|---:|---:|"]
          ++ ((λ severity,
                 MdSeverityRow severity (get0 severity prev_total)
                   (get0 severity curr_total)) <$> breakdown_severities)
          ++ [MdTotalRow (get0 "total" prev_total) (get0 "total" curr_total);
              MdText ""]
        else []
    | _, _ => []
    end.

Definition nl : string := String "010"%char "".

(** The list [markdown] at the end of [generate_markdown_report]. *)
Definition markdown_lines (previous current : Snapshot.t) : list md_line :=
  let prev_images := index_images (Snapshot.images previous) in
  let curr_images := index_images (Snapshot.images current) in
  let prev_by_name := by_name prev_images in
  let curr_by_name := by_name curr_images in
  let all_image_names :=
    sorted_union (PyDict.keys prev_by_name) (PyDict.keys curr_by_name) in
  [MdText ("## 🔎 Vulnerability Summary" +:+ nl);
   MdText "| Image | Before | After | Change |";
   MdText "|---|---:|---:|---:|"]
  ++ summary_rows prev_by_name curr_by_name all_image_names
  ++ [MdText ""; MdText ("### Breakdown by Severity" +:+ nl)]
  ++ breakdown prev_by_name curr_by_name all_image_names.

(** [f"{z}"] and [f"{z:+d}"] *)
Definition fmt (z : Z) : string := pretty z.

Definition fmt_signed (z : Z) : string :=
  if 0 <=? z then "+" +:+ pretty z else pretty z.

(** [severity.capitalize()] on ASCII text. *)
Definition capitalize (s : string) : string :=
  match s with
  | EmptyString => EmptyString
  | String c s' => String (upper_ascii c) (lower s')
  end.

Definition image_display (prev_full_path curr_full_path : string) : string :=
  if decide (prev_full_path ≠ curr_full_path)
  then "`" +:+ prev_full_path +:+ "` → `" +:+ curr_full_path +:+ "`"
  else "`" +:+ curr_full_path +:+ "`".

Definition totals_str (total : list (string * Z)) : string :=
  "**" +:+ fmt (get0 "total" total) +:+ " total** ("
  +:+ fmt (get0 "critical" total) +:+ "C / " +:+ fmt (get0 "high" total) +:+ "H / "
  +:+ fmt (get0 "medium" total) +:+ "M / " +:+ fmt (get0 "low" total) +:+ "L)".

Definition change_str (prev_total curr_total : list (string * Z)) : string :=
  let c_change := get0 "critical" curr_total - get0 "critical" prev_total in
  let h_change := get0 "high" curr_total - get0 "high" prev_total in
  let m_change := get0 "medium" curr_total - get0 "medium" prev_total in
  let l_change := get0 "low" curr_total - get0 "low" prev_total in
  "**" +:+ fmt_signed (get0 "total" curr_total - get0 "total" prev_total) +:+ "** total"
  +:+ (if negb (c_change =? 0) || negb (h_change =? 0)
          || negb (m_change =? 0) || negb (l_change =? 0)
       then " (**" +:+ fmt_signed c_change +:+ "C / " +:+ fmt_signed h_change
            +:+ "H / " +:+ fmt_signed m_change +:+ "M / " +:+ fmt_signed l_change
            +:+ "L**)"
       else "").

Definition render (line : md_line) : string :=
  match line with
  | MdText text => text
  | MdSummaryRow prev_full_path curr_full_path prev_total curr_total =>
      "| " +:+ image_display prev_full_path curr_full_path
      +:+ " | " +:+ totals_str prev_total +:+ " | " +:+ totals_str curr_total
      +:+ " | " +:+ change_str prev_total curr_total +:+ " |"
  | MdHeading prev_full_path curr_full_path =>
      "#### " +:+ image_display prev_full_path curr_full_path
  | MdSeverityRow severity before after =>
      "| " +:+ capitalize severity +:+ " | " +:+ fmt before +:+ " | " +:+ fmt after
      +:+ " | **" +:+ fmt_signed (after - before) +:+ "** |"
  | MdTotalRow before_total after_total =>
      "| **Total** | **" +:+ fmt before_total +:+ "** | **" +:+ fmt after_total
      +:+ "** | **" +:+ fmt_signed (after_total - before_total) +:+ "** |"
  end.

(** The text written to the output file: [nl.join(markdown)]. *)
Definition report_content (previous current : Snapshot.t) : string :=
  String.concat nl (render <$> markdown_lines previous current).

(** Image [app:1] is in both snapshots; between them only its count of
    unknown-severity findings changes, from 0 to 1. *)
Definition unknown_only_previous : Snapshot.t :=
  Scan.save_results_to_json "t0" [one_image "app:1" Scan.new_stats Scan.new_stats].

Definition unknown_only_current : Snapshot.t :=
  Scan.save_results_to_json "t1"
    [one_image "app:1" Scan.new_stats (Scan.mkStats 0 0 0 0 0 1)].

Example get_image_name_samples :
  get_image_name "postgres:18" = "postgres:18"
  ∧ get_image_name "cgr.dev/dylans-donuts.com/postgres:18" = "postgres:18"
  ∧ get_image_name "node:24-dev" = "node:24-dev".
Proof. by repeat split. Qed.

Example markdown_lines_sample :
  render <$> markdown_lines
    (Scan.save_results_to_json "t0"
       [one_image "docker.io/app:1" (Scan.mkStats 5 1 0 0 0 0) Scan.new_stats])
    (Scan.save_results_to_json "t1"
       [one_image "cgr.dev/app:1" (Scan.mkStats 2 1 0 0 0 0) Scan.new_stats])
  = [ "## 🔎 Vulnerability Summary" +:+ nl;
      "| Image | Before | After | Change |";
      "|---|---:|---:|---:|";
      "| `docker.io/app:1` → `cgr.dev/app:1` | **6 total** (5C / 1H / 0M / 0L) | **3 total** (2C / 1H / 0M / 0L) | **-3** total (**-3C / +0H / +0M / +0L**) |";
      "";
      "### Breakdown by Severity" +:+ nl;
      "#### `docker.io/app:1` → `cgr.dev/app:1`";
      "| Severity | Before | After | Delta |";
      "|---|---:|---:|---:|";
      "| Critical | 5 | 2 | **-3** |";
      "| High | 1 | 1 | **+0** |";
      "| Medium | 0 | 0 | **+0** |";
      "| Low | 0 | 0 | **+0** |";
      "| Negligible | 0 | 0 | **+0** |";
      "| **Total** | **6** | **3** | **-3** |";
      "" ].
Proof. vm_compute. reflexivity. Qed.

Lemma by_name_snoc images item :
  by_name (images ++ [item]) =
  PyDict.set (get_image_name item.1) (item.2, item.1) (by_name images).
Proof. unfold by_name. by rewrite foldl_app. Qed.

(** Every entry of a by-name index stands under the name of its own full
    path. *)
Lemma by_name_keys images :
  Forall (λ e, e.1 = get_image_name e.2.2) (by_name images).
Proof.
  induction images as [|item images IH] using rev_ind; [constructor|].
  rewrite by_name_snoc. by apply PyDict.Forall_set.
Qed.

Lemma by_name_get images image_name img full_path :
  PyDict.get image_name (by_name images) = Some (img, full_path) →
  image_name = get_image_name full_path.
Proof.
  intros Hget%PyDict.get_Some_elem_of.
  pose proof (by_name_keys images) as Hall. rewrite Forall_forall in Hall.
  apply (Hall _ Hget).
Qed.

Lemma has_changes_spec prev_total curr_total :
  has_changes prev_total curr_total = true ↔
  ∃ severity, severity ∈ breakdown_severities
              ∧ get0 severity prev_total ≠ get0 severity curr_total.
Proof.
  unfold has_changes. rewrite existsb_exists. split.
  - intros (severity & Hin%list_elem_of_In & Hne).
    exists severity. split; [done|].
    by apply negb_true_iff, Z.eqb_neq in Hne.
  - intros (severity & Hin%list_elem_of_In & Hne).
    exists severity. split; [done|].
    by apply negb_true_iff, Z.eqb_neq.
Qed.

Lemma elem_of_summary_rows prev_by_name curr_by_name all_image_names line :
  line ∈ summary_rows prev_by_name curr_by_name all_image_names ↔
  ∃ image_name prev_img prev_full_path curr_img curr_full_path,
    image_name ∈ all_image_names
    ∧ PyDict.get image_name prev_by_name = Some (prev_img, prev_full_path)
    ∧ PyDict.get image_name curr_by_name = Some (curr_img, curr_full_path)
    ∧ line = MdSummaryRow prev_full_path curr_full_path
               (Snapshot.total prev_img) (Snapshot.total curr_img).
Proof.
  unfold summary_rows. rewrite list_elem_of_bind. split.
  - intros (image_name & Hline & Hin).
    destruct (PyDict.get image_name prev_by_name) as [[prev_img pf]|] eqn:Hp;
      [|by apply elem_of_nil in Hline].
    destruct (PyDict.get image_name curr_by_name) as [[curr_img cf]|] eqn:Hc;
      [|by apply elem_of_nil in Hline].
    apply list_elem_of_singleton in Hline.
    by exists image_name, prev_img, pf, curr_img, cf.
  - intros (image_name & prev_img & pf & curr_img & cf & Hin & Hp & Hc & ->).
    exists image_name. rewrite Hp, Hc. split; [left | done].
Qed.

Lemma heading_elem_of_breakdown prev_by_name curr_by_name all_image_names pf cf :
  MdHeading pf cf ∈ breakdown prev_by_name curr_by_name all_image_names ↔
  ∃ image_name prev_img curr_img,
    image_name ∈ all_image_names
    ∧ PyDict.get image_name prev_by_name = Some (prev_img, pf)
    ∧ PyDict.get image_name curr_by_name = Some (curr_img, cf)
    ∧ has_changes (Snapshot.total prev_img) (Snapshot.total curr_img) = true.
Proof.
  unfold breakdown. rewrite list_elem_of_bind. split.
  - intros (image_name & Hline & Hin).
    destruct (PyDict.get image_name prev_by_name) as [[prev_img pf']|] eqn:Hp;
      [|by apply elem_of_nil in Hline].
    destruct (PyDict.get image_name curr_by_name) as [[curr_img cf']|] eqn:Hc;
      [|by apply elem_of_nil in Hline].
    cbv zeta in Hline.
    destruct (has_changes _ _) eqn:Hch; [|by apply elem_of_nil in Hline].
    exists image_name, prev_img, curr_img.
    rewrite !elem_of_app, !elem_of_cons, list_elem_of_fmap, !elem_of_nil in Hline.
    destruct Hline as [[[= -> ->]|[[=]|[[=]|[]]]]|[(? & [=] & _)|[[=]|[[=]|[]]]]].
    done.
  - intros (image_name & prev_img & curr_img & Hin & Hp & Hc & Hch).
    exists image_name. rewrite Hp, Hc. cbv zeta. rewrite Hch. split; [left | done].
Qed.

(** C9, as stated, fails: the check that decides on a breakdown section
    looks at five severities and leaves the unknown count out, so a matched
    image whose only change is in its unknown count gets no section, although
    its per-severity counts changed.  It still has its row in the summary
    table. *)
Lemma markdown_no_breakdown_for_unknown_change :
  let lines := markdown_lines unknown_only_previous unknown_only_current in
  "unknown" ∈ severities
  ∧ (Snapshot.total <$> Snapshot.images unknown_only_previous)
      = [Scan.level_json 0 0 0 0 0 0 0]
  ∧ (Snapshot.total <$> Snapshot.images unknown_only_current)
      = [Scan.level_json 0 0 0 0 0 1 1]
  ∧ lines =
      [ MdText ("## 🔎 Vulnerability Summary" +:+ nl);
        MdText "| Image | Before | After | Change |";
        MdText "|---|---:|---:|---:|";
        MdSummaryRow "app:1" "app:1" (Scan.level_json 0 0 0 0 0 0 0)
          (Scan.level_json 0 0 0 0 0 1 1);
        MdText "";
        MdText ("### Breakdown by Severity" +:+ nl) ]
  ∧ MdHeading "app:1" "app:1" ∉ lines.
Proof.
  split_and!; [apply (bool_decide_eq_true_1 _); reflexivity | reflexivity..|].
  vm_compute. intros Hin.
  repeat (apply elem_of_cons in Hin as [[=]|Hin]). by apply elem_of_nil in Hin.
Qed.

(** C9, amended.  For an image matched by name in both snapshots, the report
    holds its row of the summary table, and it holds a breakdown section for
    the image exactly when one of the counts of the five severities critical,
    high, medium, low and negligible differs between the two snapshots (the
    unknown count is not looked at).  Every breakdown section of the report
    belongs to such a matched image. *)
Theorem markdown_breakdown_only_for_changes
    (previous current : Snapshot.t) (image_name : string)
    (prev_img curr_img : Snapshot.image_entry)
    (prev_full_path curr_full_path : string) :
  let prev_by_name := by_name (index_images (Snapshot.images previous)) in
  let curr_by_name := by_name (index_images (Snapshot.images current)) in
  let lines := markdown_lines previous current in
  PyDict.get image_name prev_by_name = Some (prev_img, prev_full_path) →
  PyDict.get image_name curr_by_name = Some (curr_img, curr_full_path) →
  MdSummaryRow prev_full_path curr_full_path
    (Snapshot.total prev_img) (Snapshot.total curr_img) ∈ lines
  ∧ (MdHeading prev_full_path curr_full_path ∈ lines ↔
     ∃ severity, severity ∈ breakdown_severities
       ∧ get0 severity (Snapshot.total prev_img)
         ≠ get0 severity (Snapshot.total curr_img))
  ∧ (∀ pf cf, MdHeading pf cf ∈ lines →
       ∃ name p c,
         PyDict.get name prev_by_name = Some (p, pf)
         ∧ PyDict.get name curr_by_name = Some (c, cf)
         ∧ has_changes (Snapshot.total p) (Snapshot.total c) = true).
Proof.
  intros prev_by_name curr_by_name lines Hp Hc.
  set (all_image_names :=
         sorted_union (PyDict.keys prev_by_name) (PyDict.keys curr_by_name)).
  assert (Hlines : lines =
    [MdText ("## 🔎 Vulnerability Summary" +:+ nl);
     MdText "| Image | Before | After | Change |";
     MdText "|---|---:|---:|---:|"]
    ++ summary_rows prev_by_name curr_by_name all_image_names
    ++ [MdText ""; MdText ("### Breakdown by Severity" +:+ nl)]
    ++ breakdown prev_by_name curr_by_name all_image_names) by done.
  assert (Hname : image_name ∈ all_image_names).
  { apply elem_of_sorted_union. left. apply PyDict.elem_of_keys_get. eauto. }
  assert (Hheading : ∀ pf cf, MdHeading pf cf ∈ lines ↔
            MdHeading pf cf ∈ breakdown prev_by_name curr_by_name all_image_names).
  { intros pf cf. rewrite Hlines, !elem_of_app, !elem_of_cons, !elem_of_nil.
    rewrite elem_of_summary_rows. split; [|tauto].
    intros [[[=]|[[=]|[[=]|[]]]]|[(? & ? & ? & ? & ? & _ & _ & _ & [=])
                                 |[[[=]|[[=]|[]]]|?]]]. done. }
  split_and!.
  - rewrite Hlines, !elem_of_app. right. left.
    apply elem_of_summary_rows. by eexists _, _, _, _, _.
  - rewrite Hheading, heading_elem_of_breakdown, <- has_changes_spec. split.
    + intros (name & p & c & _ & Hp' & Hc' & Hch).
      assert (name = image_name) as ->.
      { rewrite (by_name_get _ _ _ _ Hc'). symmetry. by eapply by_name_get. }
      rewrite Hp in Hp'. rewrite Hc in Hc'. by simplify_eq.
    + intros Hch. by exists image_name, prev_img, curr_img.
  - intros pf cf (name & p & c & _ & Hp' & Hc' & Hch)%Hheading%heading_elem_of_breakdown.
    by exists name, p, c.
Qed.

Lemma markdown_breakdown_only_for_changes_witness :
  let previous := Scan.save_results_to_json "t0"
    [one_image "docker.io/app:1" (Scan.mkStats 5 1 0 0 0 0) Scan.new_stats] in
  let current := Scan.save_results_to_json "t1"
    [one_image "cgr.dev/app:1" (Scan.mkStats 2 1 0 0 0 0) Scan.new_stats] in
  MdHeading "docker.io/app:1" "cgr.dev/app:1" ∈ markdown_lines previous current.
Proof.
  intros previous current.
  destruct (markdown_breakdown_only_for_changes previous current "app:1"
              (Scan.image_data (one_image "docker.io/app:1"
                                  (Scan.mkStats 5 1 0 0 0 0) Scan.new_stats))
              (Scan.image_data (one_image "cgr.dev/app:1"
                                  (Scan.mkStats 2 1 0 0 0 0) Scan.new_stats))
              "docker.io/app:1" "cgr.dev/app:1" eq_refl eq_refl)
    as (_ & Hiff & _).
  apply Hiff. exists "critical". split.
  - apply (bool_decide_eq_true_1 _). reflexivity.
  - discriminate.
Defined.

(** *** Image names without the registry path *)

Fixpoint has_slash (s : string) : bool :=
  match s with
  | EmptyString => false
  | String c s' => Ascii.eqb c "/" || has_slash s'
  end.

Lemma string_app_cons c (s t : string) : String c s +:+ t = String c (s +:+ t).
Proof. reflexivity. Qed.

Lemma has_slash_app s t : has_slash (s +:+ t) = has_slash s || has_slash t.
Proof.
  induction s as [|c s IH]; [done|].
  rewrite string_app_cons. simpl. by rewrite IH, orb_assoc.
Qed.

Lemma string_app_nil_r (s : string) : s +:+ "" = s.
Proof. induction s as [|c s IH]; [done|]. by rewrite string_app_cons, IH. Qed.

Lemma string_app_assoc (s t u : string) : (s +:+ t) +:+ u = s +:+ (t +:+ u).
Proof. induction s as [|c s IH]; [done|]. by rewrite !string_app_cons, IH. Qed.

Lemma last_component_no_slash cur s :
  has_slash s = false → last_component cur s = cur +:+ s.
Proof.
  revert cur. induction s as [|c s IH]; intros cur; simpl.
  - by rewrite string_app_nil_r.
  - intros [Hc Hs]%orb_false_iff. rewrite Hc, IH by done.
    by rewrite string_app_assoc.
Qed.

Lemma last_component_after_slash cur prefix s :
  last_component cur (prefix +:+ String "/" s) = last_component "" s.
Proof.
  revert cur. induction prefix as [|c prefix IH]; intros cur; [done|].
  rewrite string_app_cons. simpl. by destruct (Ascii.eqb c "/").
Qed.

Lemma last_component_has_slash cur s :
  has_slash cur = false → has_slash (last_component cur s) = false.
Proof.
  revert cur. induction s as [|c s IH]; intros cur Hcur; simpl; [done|].
  destruct (Ascii.eqb c "/") eqn:Hc; [by apply IH|].
  apply IH. rewrite has_slash_app, Hcur. simpl. by rewrite Hc.
Qed.

(** X14.  [get_image_name] returns the text after the last slash: its result
    holds no slash; a reference without a slash is returned as it is; any
    registry or repository path before the last slash is dropped; and
    applying it twice is the same as applying it once. *)
Theorem get_image_name_strips_path (full_image path name : string) :
  has_slash (get_image_name full_image) = false
  ∧ get_image_name (get_image_name full_image) = get_image_name full_image
  ∧ (has_slash name = false →
     get_image_name name = name
     ∧ get_image_name (path +:+ "/" +:+ name) = name).
Proof.
  unfold get_image_name. split_and!.
  - by apply last_component_has_slash.
  - by rewrite (last_component_no_slash "" (last_component "" full_image))
      by by apply last_component_has_slash.
  - intros Hname. split.
    + by rewrite last_component_no_slash.
    + change ("/" +:+ name) with (String "/" name).
      rewrite last_component_after_slash. by rewrite last_component_no_slash.
Qed.

Lemma get_image_name_strips_path_witness :
  get_image_name ("cgr.dev/dylans-donuts.com" +:+ "/" +:+ "postgres:18") = "postgres:18".
Proof.
  destruct (get_image_name_strips_path "" "cgr.dev/dylans-donuts.com" "postgres:18")
    as (_ & _ & H).
  by apply H.
Defined.

(** *** The drift read in the other direction *)

Lemma level_change_keys prev curr : PyDict.keys (level_change prev curr) = severities.
Proof. reflexivity. Qed.

Lemma level_change_other prev curr severity :
  severity ∉ severities → get0 severity (level_change prev curr) = 0.
Proof.
  intros Hsev. unfold get0.
  rewrite (proj2 (PyDict.get_None severity (level_change prev curr))); [done|].
  by rewrite level_change_keys.
Qed.

Lemma level_change_neg prev curr severity :
  get0 severity (level_change curr prev) = - get0 severity (level_change prev curr).
Proof.
  destruct (decide (severity ∈ severities)) as [Hsev|Hsev].
  - rewrite !level_change_get0 by done. lia.
  - by rewrite !level_change_other.
Qed.

Lemma level_change_self level severity :
  get0 severity (level_change level level) = 0.
Proof.
  destruct (decide (severity ∈ severities)) as [Hsev|Hsev].
  - rewrite level_change_get0 by done. lia.
  - by rewrite level_change_other.
Qed.

Lemma sorted_union_comm a b : sorted_union a b = sorted_union b a.
Proof. unfold sorted_union. by rewrite (comm_L (∪)). Qed.

(** What the summary of the drift holds under a key. *)
Lemma summary_get previous current category :
  PyDict.get category (summary (calculate_diff previous current)) =
  if bool_decide (category ∈ categories)
  then Some (level_change (getd category (Snapshot.summary previous))
               (getd category (Snapshot.summary current)))
  else None.
Proof.
  unfold calculate_diff, categories. simpl.
  repeat (case_decide; [subst; reflexivity|]).
  rewrite bool_decide_eq_false_2; [done|].
  rewrite !elem_of_cons, elem_of_nil. intros [?|[?|[?|[]]]]; congruence.
Qed.

(** [new] and [removed] change places. *)
Definition mirror_status (s : string) : string :=
  if (s =? "new")%string then "removed"
  else if (s =? "removed")%string then "new" else s.

Lemma diff_image_mirror prev_images curr_images name :
  let e := diff_image prev_images curr_images name in
  let e' := diff_image curr_images prev_images name in
  image e' = image e
  ∧ status e' = mirror_status (status e)
  ∧ ∀ category severity,
      image_delta category severity e' = - image_delta category severity e.
Proof.
  unfold diff_image, image_delta, change_of.
  destruct (PyDict.get name prev_images), (PyDict.get name curr_images); simpl;
    (split_and!; [done..|]); intros category severity;
    repeat case_match; try done; apply level_change_neg.
Qed.

(** X15.  Comparing in the opposite direction mirrors the drift:
    [calculate_diff(current, previous)] lists the same images in the same
    order, with [new] and [removed] exchanged, every per-image delta and every
    summary delta negated, and the two timestamps exchanged. *)
Theorem calculate_diff_mirror (previous current : Snapshot.t) :
  let d := calculate_diff previous current in
  let d' := calculate_diff current previous in
  previous_timestamp d' = current_timestamp d
  ∧ current_timestamp d' = previous_timestamp d
  ∧ Forall2 (λ e e',
               image e' = image e
               ∧ status e' = mirror_status (status e)
               ∧ ∀ category severity,
                   image_delta category severity e'
                   = - image_delta category severity e)
            (images d) (images d')
  ∧ ∀ category severity,
      summary_delta d' category severity = - summary_delta d category severity.
Proof.
  intros d d'. split_and!; [done..| |].
  - unfold d, d', calculate_diff. simpl.
    rewrite (sorted_union_comm
               (PyDict.keys (index_images (Snapshot.images current)))).
    apply Forall2_fmap, Forall_Forall2_diag, Forall_forall.
    intros name _. apply diff_image_mirror.
  - intros category severity. unfold summary_delta, getd, d, d'.
    rewrite !summary_get. destruct (bool_decide _); simpl; [|done].
    apply level_change_neg.
Qed.

(** X16.  A snapshot compared with itself shows no drift: every image of
    the snapshot is listed with status [compared], and every per-image delta
    and every summary delta is zero. *)
Theorem calculate_diff_self (snapshot : Snapshot.t) :
  let d := calculate_diff snapshot snapshot in
  (∀ name, name ∈ image <$> images d ↔
           name ∈ Snapshot.image <$> Snapshot.images snapshot)
  ∧ Forall (λ e, status e = "compared"
                 ∧ ∀ category severity, image_delta category severity e = 0)
           (images d)
  ∧ ∀ category severity, summary_delta d category severity = 0.
Proof.
  intros d. split_and!.
  - intros name. unfold d. rewrite elem_of_calculate_diff_image_names. tauto.
  - unfold d, calculate_diff. simpl. apply Forall_fmap, Forall_forall.
    intros name Hin. apply elem_of_sorted_union in Hin.
    assert (is_Some (PyDict.get name (index_images (Snapshot.images snapshot))))
      as [img Himg] by (apply PyDict.elem_of_keys_get; tauto).
    simpl. unfold diff_image, image_delta, change_of. rewrite Himg. simpl.
    split; [done|]. intros category severity.
    repeat case_match; apply level_change_self.
  - intros category severity. unfold summary_delta, getd, d.
    rewrite summary_get. destruct (bool_decide _); simpl; [|done].
    apply level_change_self.
Qed.

(** *** The drift of written snapshots, level by level *)

Lemma index_images_get_elem_of images name img :
  PyDict.get name (index_images images) = Some img →
  img ∈ images ∧ Snapshot.image img = name.
Proof.
  revert img. induction images as [|x images IH] using rev_ind; intros img; [done|].
  rewrite index_images_snoc.
  destruct (decide (Snapshot.image x = name)) as [<-|Hne].
  - rewrite PyDict.get_set_eq. intros [= <-]. split; [|done].
    apply elem_of_app. right. left.
  - rewrite PyDict.get_set_ne by done. intros [Hin Hn]%IH. split; [|done].
    apply elem_of_app. by left.
Qed.

Lemma image_data_levels_sum result severity :
  severity ∈ severities →
  get0 severity (Snapshot.total (Scan.image_data result)) =
  get0 severity (Snapshot.os_level (Scan.image_data result))
  + get0 severity (Snapshot.app_level (Scan.image_data result)).
Proof.
  unfold severities. rewrite !elem_of_cons, elem_of_nil.
  intros [->|[->|[->|[->|[->|[->|[]]]]]]]; reflexivity.
Qed.

Lemma written_entry_levels_sum now results name img severity :
  severity ∈ severities →
  PyDict.get name (index_images (Snapshot.images (Scan.save_results_to_json now results)))
  = Some img →
  get0 severity (Snapshot.total img) =
  get0 severity (Snapshot.os_level img) + get0 severity (Snapshot.app_level img).
Proof.
  intros Hsev [Hin _]%index_images_get_elem_of. simpl in Hin.
  apply list_elem_of_fmap in Hin as (result & -> & _).
  by apply image_data_levels_sum.
Qed.

(** X17.  In the drift of two snapshots written by [save_results_to_json],
    the total delta of every image entry is its OS-level delta plus its
    application-level delta, for each of the six severities, and the same
    holds for the summary deltas. *)
Theorem calculate_diff_written_total_delta
    (now0 now1 : string)
    (prev_results curr_results : list Scan.ImageVulnerabilities) :
  let d := calculate_diff (Scan.save_results_to_json now0 prev_results)
             (Scan.save_results_to_json now1 curr_results) in
  Forall (λ severity,
            Forall (λ e, image_delta "total" severity e =
                         image_delta "os_level" severity e
                         + image_delta "app_level" severity e) (images d)
            ∧ summary_delta d "total" severity =
              summary_delta d "os_level" severity
              + summary_delta d "app_level" severity) severities.
Proof.
  intros d. apply Forall_forall. intros severity Hsev. split.
  - unfold d, calculate_diff. cbn [images].
    set (prev_images := index_images _). set (curr_images := index_images _).
    apply Forall_fmap, Forall_forall. intros name _. unfold compose.
    rewrite !change_of_diff_image by done.
    destruct (PyDict.get name prev_images) as [p|] eqn:Hp; [|done].
    destruct (PyDict.get name curr_images) as [c|] eqn:Hc; [|done].
    pose proof (written_entry_levels_sum _ _ _ _ _ Hsev Hp) as Hps.
    pose proof (written_entry_levels_sum _ _ _ _ _ Hsev Hc) as Hcs.
    unfold level_of. simpl. lia.
  - assert (Hos : "os_level" ∈ categories)
      by (apply (bool_decide_eq_true_1 _); reflexivity).
    assert (Happ : "app_level" ∈ categories)
      by (apply (bool_decide_eq_true_1 _); reflexivity).
    assert (Htot : "total" ∈ categories)
      by (apply (bool_decide_eq_true_1 _); reflexivity).
    unfold d. rewrite !summary_delta_eq, !written_summary by done.
    assert (Hsum : ∀ results,
      Scan.sum_over (λ r, get0 severity (level_of "total" (Scan.image_data r))) results
      = Scan.sum_over (λ r, get0 severity (level_of "os_level" (Scan.image_data r))) results
        + Scan.sum_over (λ r, get0 severity (level_of "app_level" (Scan.image_data r))) results).
    { intros results. induction results as [|r results IH]; [done|].
      rewrite !Scan.sum_over_cons, IH.
      pose proof (image_data_levels_sum r severity Hsev) as Hr.
      change (level_of "total" (Scan.image_data r))
        with (Snapshot.total (Scan.image_data r)).
      change (level_of "os_level" (Scan.image_data r))
        with (Snapshot.os_level (Scan.image_data r)).
      change (level_of "app_level" (Scan.image_data r))
        with (Snapshot.app_level (Scan.image_data r)).
      lia. }
    rewrite !Hsum. lia.
Qed.

(** *** The order of the image list *)

#[global] Instance str_le_total : Total str_le.
Proof. intros a b. apply String.leb_total. Qed.

(** X18.  The image entries of the drift are in ascending order of their
    identifiers (the order in which the console report lists them). *)
Theorem calculate_diff_images_sorted (previous current : Snapshot.t) :
  Sorted str_le (image <$> images (calculate_diff previous current)).
Proof.
  rewrite calculate_diff_image_names. unfold sorted_union.
  apply (Sorted_merge_sort str_le).
Qed.

(** *** The class [VulnChange] *)

Record VulnChange := {
  critical : Z;
  high : Z;
  medium : Z;
  low : Z;
  negligible : Z;
  unknown : Z
}.

Definition total (c : VulnChange) : Z :=
  critical c + high c + medium c + low c + negligible c + unknown c.

Definition has_remediations (c : VulnChange) : bool :=
  (critical c <? 0) || (high c <? 0) || (medium c <? 0)
  || (low c <? 0) || (negligible c <? 0) || (unknown c <? 0).

Definition has_new_vulns (c : VulnChange) : bool :=
  (0 <? critical c) || (0 <? high c) || (0 <? medium c)
  || (0 <? low c) || (0 <? negligible c) || (0 <? unknown c).

(** X19.  The two flags of a [VulnChange] and its total agree: a positive
    total needs a new vulnerability and a negative total a remediation;
    neither flag is set exactly when all six changes are zero; and without
    remediations the total is zero only if nothing changed. *)
Theorem VulnChange_flags (c : VulnChange) :
  (0 < total c → has_new_vulns c = true)
  ∧ (total c < 0 → has_remediations c = true)
  ∧ (has_new_vulns c = false ∧ has_remediations c = false ↔
     critical c = 0 ∧ high c = 0 ∧ medium c = 0 ∧ low c = 0
     ∧ negligible c = 0 ∧ unknown c = 0)
  ∧ (has_remediations c = false → total c = 0 → has_new_vulns c = false).
Proof.
  destruct c as [c h m l n u].
  unfold total, has_new_vulns, has_remediations. simpl.
  rewrite !orb_false_iff, !orb_true_iff, !Z.ltb_lt, !Z.ltb_ge. lia.
Qed.

Lemma VulnChange_flags_witness :
  has_new_vulns {| critical := -3; high := 4; medium := 0; low := 0;
                   negligible := 0; unknown := 0 |} = true.
Proof.
  destruct (VulnChange_flags {| critical := -3; high := 4; medium := 0; low := 0;
                                negligible := 0; unknown := 0 |}) as (H & _).
  apply H. reflexivity.
Defined.

(** *** What the Markdown report leaves out *)

(** Every entry of a by-name index comes from the index of the snapshot. *)
Lemma by_name_entries images :
  Forall (λ e, (e.2.2, e.2.1) ∈ images) (by_name images).
Proof.
  induction images as [|item images IH] using rev_ind; [constructor|].
  rewrite by_name_snoc. apply PyDict.Forall_set; simpl.
  - apply elem_of_app. right. destruct item. left.
  - eapply Forall_impl; [apply IH|]. intros e He. apply elem_of_app. by left.
Qed.

Lemma by_name_get_full_path snapshot image_name img full_path :
  PyDict.get image_name (by_name (index_images (Snapshot.images snapshot)))
  = Some (img, full_path) →
  full_path ∈ Snapshot.image <$> Snapshot.images snapshot
  ∧ get_image_name full_path = image_name.
Proof.
  intros Hget. split; [|symmetry; by eapply by_name_get].
  apply PyDict.get_Some_elem_of in Hget.
  pose proof (by_name_entries (index_images (Snapshot.images snapshot))) as Hall.
  rewrite Forall_forall in Hall. specialize (Hall _ Hget). simpl in Hall.
  apply elem_of_keys_index_images. by eapply Merge.elem_of_keys.
Qed.

(** X20.  The Markdown report only shows images matched by name in both
    snapshots: every row of the summary table and every breakdown heading
    pairs an identifier of the previous snapshot with an identifier of the
    current snapshot that has the same name after the last slash.  An image
    whose name is in only one snapshot (new or removed) has no line in the
    report. *)
Theorem markdown_report_only_matched_images
    (previous current : Snapshot.t) (line : md_line)
    (prev_full_path curr_full_path : string) :
  line ∈ markdown_lines previous current →
  (line = MdHeading prev_full_path curr_full_path
   ∨ ∃ prev_total curr_total,
       line = MdSummaryRow prev_full_path curr_full_path prev_total curr_total) →
  prev_full_path ∈ Snapshot.image <$> Snapshot.images previous
  ∧ curr_full_path ∈ Snapshot.image <$> Snapshot.images current
  ∧ get_image_name prev_full_path = get_image_name curr_full_path.
Proof.
  unfold markdown_lines. cbv zeta.
  set (prev_by_name := by_name (index_images (Snapshot.images previous))).
  set (curr_by_name := by_name (index_images (Snapshot.images current))).
  set (all_image_names := sorted_union _ _).
  intros Hin Hline.
  assert (∃ name p c,
            PyDict.get name prev_by_name = Some (p, prev_full_path)
            ∧ PyDict.get name curr_by_name = Some (c, curr_full_path))
    as (name & p & c & Hp & Hc).
  { rewrite !elem_of_app, !elem_of_cons, !elem_of_nil in Hin.
    destruct Hline as [->|(pt & ct & ->)].
    - destruct Hin as [[[=]|[[=]|[[=]|[]]]]|[Hs|[[[=]|[[=]|[]]]|Hb]]].
      + apply elem_of_summary_rows in Hs as (? & ? & ? & ? & ? & _ & _ & _ & [=]).
      + apply heading_elem_of_breakdown in Hb as (name & p & c & _ & Hp & Hc & _).
        by exists name, p, c.
    - destruct Hin as [[[=]|[[=]|[[=]|[]]]]|[Hs|[[[=]|[[=]|[]]]|Hb]]].
      + apply elem_of_summary_rows in Hs
          as (name & p & pf & c & cf & _ & Hp & Hc & [= -> -> _ _]).
        by exists name, p, c.
      + exfalso. unfold breakdown in Hb.
        apply list_elem_of_bind in Hb as (name & Hb & _).
        destruct (PyDict.get name prev_by_name) as [[p pf]|];
          [|by apply elem_of_nil in Hb].
        destruct (PyDict.get name curr_by_name) as [[c cf]|];
          [|by apply elem_of_nil in Hb].
        cbv zeta in Hb. destruct (has_changes _ _); [|by apply elem_of_nil in Hb].
        rewrite !elem_of_app, !elem_of_cons, list_elem_of_fmap, !elem_of_nil in Hb.
        destruct Hb as [[[=]|[[=]|[[=]|[]]]]|[(? & [=] & _)|[[=]|[[=]|[]]]]]. }
  apply by_name_get_full_path in Hp as [Hp Hpn].
  apply by_name_get_full_path in Hc as [Hc Hcn].
  split_and!; [done..|]. by rewrite Hpn, Hcn.
Qed.

Lemma markdown_report_only_matched_images_witness :
  let previous := Scan.save_results_to_json "t0"
    [one_image "docker.io/app:1" (Scan.mkStats 5 1 0 0 0 0) Scan.new_stats;
     one_image "old:1" Scan.new_stats Scan.new_stats] in
  let current := Scan.save_results_to_json "t1"
    [one_image "cgr.dev/app:1" (Scan.mkStats 2 1 0 0 0 0) Scan.new_stats] in
  get_image_name "docker.io/app:1" = get_image_name "cgr.dev/app:1".
Proof.
  intros previous current.
  assert (Hin : MdHeading "docker.io/app:1" "cgr.dev/app:1"
                ∈ markdown_lines previous current).
  { vm_compute. do 6 right. left. }
  destruct (markdown_report_only_matched_images previous current _
              "docker.io/app:1" "cgr.dev/app:1" Hin (or_introl eq_refl))
    as (_ & _ & H).
  exact H.
Defined.

Example markdown_omits_removed_image :
  let previous := Scan.save_results_to_json "t0"
    [one_image "app:1" (Scan.mkStats 5 1 0 0 0 0) Scan.new_stats;
     one_image "old:1" (Scan.mkStats 9 0 0 0 0 0) Scan.new_stats] in
  let current := Scan.save_results_to_json "t1"
    [one_image "app:1" (Scan.mkStats 5 1 0 0 0 0) Scan.new_stats;
     one_image "new:1" (Scan.mkStats 7 0 0 0 0 0) Scan.new_stats] in
  render <$> markdown_lines previous current
  = [ "## 🔎 Vulnerability Summary" +:+ nl;
      "| Image | Before | After | Change |";
      "|---|---:|---:|---:|";
      "| `app:1` | **6 total** (5C / 1H / 0M / 0L) | **6 total** (5C / 1H / 0M / 0L) | **+0** total |";
      "";
      "### Breakdown by Severity" +:+ nl ].
Proof. vm_compute. reflexivity. Qed.

(** *** The console report *)

(** [sum(v for v in changes.values())] *)
Definition values_total (changes : list (string * Z)) : Z :=
  py_sum (PyDict.values changes).

(** [any(v != 0 for v in change.values())] *)
Definition any_nonzero (change : list (string * Z)) : bool :=
  existsb (λ v, negb (v =? 0)) (PyDict.values change).

(** [c * n], [f"{s:<width}"] and [f"{z:+6d}"] on ASCII text. *)
Fixpoint str_repeat (c : string) (n : nat) : string :=
  match n with
  | O => ""
  | S n' => c +:+ str_repeat c n'
  end.

Definition ljust (width : nat) (s : string) : string :=
  s +:+ str_repeat " " (width - py_len s).

Definition rjust (width : nat) (s : string) : string :=
  str_repeat " " (width - py_len s) +:+ s.

Definition format_num (num : Z) : string :=
  if 0 <? num then "+" +:+ fmt num
  else if num <? 0 then fmt num
  else "0".

Definition format_severity_row (severity : string) (values : list (string * Z))
    : string :=
  let critical := get0 "critical" values in
  let high := get0 "high" values in
  let medium := get0 "medium" values in
  let low := get0 "low" values in
  let negligible := get0 "negligible" values in
  ljust 15 severity +:+ " | "
  +:+ ljust 6 (format_num critical) +:+ " " +:+ ljust 6 (format_num high) +:+ " "
  +:+ ljust 6 (format_num medium) +:+ " "
  +:+ ljust 6 (format_num low) +:+ " " +:+ ljust 6 (format_num negligible).

(** The severities that the report lists for an image. *)
Definition console_severities : list string :=
  ["critical"; "high"; "medium"; "low"; "negligible"].

(** The arguments of the calls of [print] in [print_comparison].  A line of
    the per-image section or of the key findings keeps the values that its
    f-string formats; [render_out] is the f-string. *)
Inductive out_line :=
| OutText (text : string)
| OutImage (symbol image suffix : string)
| OutLevel (title : string)
| OutChange (sev : string) (val : Z)
| OutNoChanges
| OutRemediated (count : Z) (what : string)
| OutIntroduced (count : Z) (what : string)
| OutOverall (overall_total : Z).

Definition rule (c : string) : string := str_repeat c 110.

Definition columns : string :=
  ljust 15 "Severity" +:+ " | " +:+ ljust 6 "Critical" +:+ " " +:+ ljust 6 "High"
  +:+ " " +:+ ljust 6 "Medium" +:+ " " +:+ ljust 6 "Low" +:+ " "
  +:+ ljust 6 "Negligible".

(** One of the three blocks of the overall summary. *)
Definition level_summary (title : string) (changes : list (string * Z))
    : list out_line :=
  [OutText (nl +:+ title); OutText (rule "-"); OutText columns; OutText (rule "-");
   OutText (format_severity_row "Changes" changes);
   OutText (ljust 15 "TOTAL" +:+ " | " +:+ rjust 6 (fmt_signed (values_total changes)))].

(** The loop over the five severities under a level heading. *)
Definition severity_changes (change : list (string * Z)) : list out_line :=
  console_severities ≫= λ sev,
    let val := get0 sev change in
    if negb (val =? 0) then [OutChange sev val] else [].

(** Body of the loop over [diff.get("images", [])]. *)
Definition image_lines (img_diff : image_diff) : list out_line :=
  if (status img_diff =? "removed")%string then
    [OutImage "❌" (image img_diff) " (REMOVED)"]
  else if (status img_diff =? "new")%string then
    [OutImage "✨" (image img_diff) " (NEW)"]
  else if (status img_diff =? "compared")%string then
    let os_change := os_level_change img_diff in
    let os_has_changes := any_nonzero os_change in
    let app_change := app_level_change img_diff in
    let app_has_changes := any_nonzero app_change in
    [OutImage "🔄" (image img_diff) ""]
    ++ (if os_has_changes
        then OutLevel "🔧 OS/Container-Level:" :: severity_changes os_change
        else [])
    ++ (if app_has_changes
        then OutLevel "📦 Application-Level:" :: severity_changes app_change
        else [])
    ++ (if negb os_has_changes && negb app_has_changes then [OutNoChanges] else [])
  else [].

(** One [if change < 0: ... elif change > 0: ...] of the key findings. *)
Definition finding_lines (change : Z) (what : string) : list out_line :=
  if change <? 0 then [OutRemediated (Z.abs change) what]
  else if 0 <? change then [OutIntroduced change what]
  else [].

Definition key_findings (d : diff) : list out_line :=
  let os_total := values_total (getd "os_level" (summary d)) in
  let app_total := values_total (getd "app_level" (summary d)) in
  let total_changes := getd "total" (summary d) in
  let overall_total := values_total total_changes in
  finding_lines (get0 "critical" total_changes) "Critical"
  ++ finding_lines (get0 "high" total_changes) "High"
  ++ finding_lines os_total "OS/Container-level"
  ++ finding_lines app_total "Application-level"
  ++ [OutOverall overall_total].

(** The arguments of the calls of [print], in order.  The two timestamp keys
    are always in a drift, so the default of their lookups is not used; a
    timestamp that the snapshot lacks is [None]. *)
Definition print_comparison (d : diff) : list out_line :=
  [OutText (nl +:+ rule "=");
   OutText "VULNERABILITY SCAN COMPARISON REPORT";
   OutText (rule "=");
   OutText (nl +:+ "📊 Previous Scan: " +:+ default "None" (previous_timestamp d));
   OutText ("📊 Current Scan:  " +:+ default "None" (current_timestamp d));
   OutText (nl +:+ rule "="); OutText "OVERALL SUMMARY"; OutText (rule "=")]
  ++ level_summary "🔧 OS/Container-Level Changes:" (getd "os_level" (summary d))
  ++ level_summary "📦 Application-Level Changes:" (getd "app_level" (summary d))
  ++ level_summary "📈 Overall Changes:" (getd "total" (summary d))
  ++ [OutText (nl +:+ rule "="); OutText "PER-IMAGE CHANGES"; OutText (rule "=")]
  ++ (images d ≫= image_lines)
  ++ [OutText (nl +:+ rule "="); OutText "KEY FINDINGS"; OutText (rule "=")]
  ++ key_findings d
  ++ [OutText ""].

Definition render_out (line : out_line) : string :=
  match line with
  | OutText text => text
  | OutImage symbol image suffix => nl +:+ symbol +:+ " " +:+ image +:+ suffix
  | OutLevel title => "   " +:+ title
  | OutChange sev val =>
      "      " +:+ (if 0 <? val then "🚨" else "✅") +:+ " " +:+ ljust 12 sev
      +:+ ": " +:+ fmt_signed val
  | OutNoChanges => "   ✅ No changes"
  | OutRemediated count what =>
      "✅ Remediated " +:+ fmt count +:+ " " +:+ what +:+ " vulnerability(ies)"
  | OutIntroduced count what =>
      "🚨 Introduced " +:+ fmt count +:+ " new " +:+ what +:+ " vulnerability(ies)"
  | OutOverall overall_total =>
      if overall_total =? 0 then "✅ No change in total vulnerability count"
      else if overall_total <? 0 then
        "✅ Overall: " +:+ fmt (Z.abs overall_total) +:+ " vulnerability(ies) remediated"
      else
        "🚨 Overall: " +:+ fmt overall_total +:+ " new vulnerability(ies) introduced"
  end.

Example print_comparison_sample :
  let previous := Scan.save_results_to_json "t0"
    [one_image "app:1" (Scan.mkStats 5 1 0 0 0 0) (Scan.mkStats 0 0 1 0 0 0);
     one_image "old:1" Scan.new_stats Scan.new_stats] in
  let current := Scan.save_results_to_json "t1"
    [one_image "app:1" (Scan.mkStats 2 1 0 0 0 0) (Scan.mkStats 0 0 1 0 0 1)] in
  drop 26 (render_out <$> print_comparison (calculate_diff previous current))
  = [ nl +:+ rule "="; "PER-IMAGE CHANGES"; rule "=";
      nl +:+ "🔄 app:1";
      "   🔧 OS/Container-Level:";
      "      ✅ critical    : -3";
      "   📦 Application-Level:";
      nl +:+ "❌ old:1 (REMOVED)";
      nl +:+ rule "="; "KEY FINDINGS"; rule "=";
      "✅ Remediated 3 Critical vulnerability(ies)";
      "✅ Remediated 3 OS/Container-level vulnerability(ies)";
      "🚨 Introduced 1 new Application-level vulnerability(ies)";
      "✅ Overall: 2 vulnerability(ies) remediated";
      "" ]
  ∧ take 6 (drop 8 (render_out <$> print_comparison (calculate_diff previous current)))
    = [ nl +:+ "🔧 OS/Container-Level Changes:"; rule "-";
        "Severity        | Critical High   Medium Low    Negligible";
        rule "-";
        "Changes         | -3     0      0      0      0     ";
        "TOTAL           |     -3" ].
Proof. vm_compute. by split. Qed.
(** What the console report reads from a drift. *)
Lemma summary_getd previous current category :
  category ∈ categories →
  getd category (summary (calculate_diff previous current)) =
  level_change (getd category (Snapshot.summary previous))
    (getd category (Snapshot.summary current)).
Proof.
  intros Hcat. unfold getd at 1. rewrite summary_get.
  by rewrite bool_decide_eq_true_2.
Qed.

Lemma values_total_level_change prev curr :
  values_total (level_change prev curr) =
  py_sum ((λ severity, get0 severity curr - get0 severity prev) <$> severities).
Proof. reflexivity. Qed.

Lemma any_nonzero_level_change prev curr :
  any_nonzero (level_change prev curr) = false ↔
  ∀ severity, severity ∈ severities → get0 severity curr = get0 severity prev.
Proof.
  change (any_nonzero (level_change prev curr))
    with (existsb (λ v, negb (v =? 0))
            ((λ severity, get0 severity curr - get0 severity prev) <$> severities)).
  rewrite <- not_true_iff_false, existsb_exists. split.
  - intros Hno severity Hsev.
    destruct (decide (get0 severity curr = get0 severity prev)) as [|Hne]; [done|].
    destruct Hno. exists (get0 severity curr - get0 severity prev). split.
    + apply list_elem_of_In, list_elem_of_fmap. by exists severity.
    + apply negb_true_iff, Z.eqb_neq. lia.
  - intros Hall (v & Hin & Hv).
    apply list_elem_of_In, list_elem_of_fmap in Hin as (severity & -> & Hsev).
    apply negb_true_iff, Z.eqb_neq in Hv. specialize (Hall _ Hsev). lia.
Qed.

Lemma written_summary_levels_sum now results severity :
  severity ∈ severities →
  get0 severity (getd "total" (Snapshot.summary (Scan.save_results_to_json now results)))
  = get0 severity (getd "os_level" (Snapshot.summary (Scan.save_results_to_json now results)))
    + get0 severity (getd "app_level" (Snapshot.summary (Scan.save_results_to_json now results))).
Proof.
  intros Hsev.
  rewrite !written_summary by (done || apply (bool_decide_eq_true_1 _); reflexivity).
  induction results as [|r results IH]; [done|].
  rewrite !Scan.sum_over_cons, IH.
  pose proof (image_data_levels_sum r severity Hsev).
  change (level_of "total" (Scan.image_data r))
    with (Snapshot.total (Scan.image_data r)).
  change (level_of "os_level" (Scan.image_data r))
    with (Snapshot.os_level (Scan.image_data r)).
  change (level_of "app_level" (Scan.image_data r))
    with (Snapshot.app_level (Scan.image_data r)).
  lia.
Qed.

Lemma py_sum_fmap_add {A} (f g : A → Z) (l : list A) :
  py_sum ((λ x, f x + g x) <$> l) = py_sum (f <$> l) + py_sum (g <$> l).
Proof.
  induction l as [|x l IH]; [done|]. rewrite !fmap_cons, !py_sum_cons, IH. lia.
Qed.

(** The three totals of the overall summary, for written snapshots. *)
Lemma written_diff_totals now0 now1 prev_results curr_results :
  let d := calculate_diff (Scan.save_results_to_json now0 prev_results)
             (Scan.save_results_to_json now1 curr_results) in
  values_total (getd "total" (summary d)) =
  values_total (getd "os_level" (summary d))
  + values_total (getd "app_level" (summary d)).
Proof.
  intros d. unfold d.
  rewrite !summary_getd by (apply (bool_decide_eq_true_1 _); reflexivity).
  rewrite !values_total_level_change, <- py_sum_fmap_add.
  apply py_sum_fmap_ext. intros severity Hsev.
  rewrite !written_summary_levels_sum by done. lia.
Qed.
(** Only the key findings print the closing line and the findings. *)
Lemma level_summary_texts title changes line :
  line ∈ level_summary title changes → ∃ text, line = OutText text.
Proof.
  unfold level_summary. rewrite !elem_of_cons, elem_of_nil.
  intros [->|[->|[->|[->|[->|[->|[]]]]]]]; by eexists.
Qed.

Lemma severity_changes_lines change line :
  line ∈ severity_changes change ↔
  ∃ sev, sev ∈ console_severities ∧ get0 sev change ≠ 0
         ∧ line = OutChange sev (get0 sev change).
Proof.
  unfold severity_changes. rewrite list_elem_of_bind. split.
  - intros (sev & Hline & Hsev). exists sev. cbv zeta in Hline.
    destruct (get0 sev change =? 0) eqn:Hz; simpl in Hline.
    + by apply elem_of_nil in Hline.
    + apply Z.eqb_neq in Hz. by apply list_elem_of_singleton in Hline.
  - intros (sev & Hsev & Hne & ->). exists sev. split; [|done]. cbv zeta.
    apply Z.eqb_neq in Hne. rewrite Hne. simpl. left.
Qed.

Lemma image_lines_no_findings img_diff line :
  line ∈ image_lines img_diff →
  (∃ symbol image suffix, line = OutImage symbol image suffix)
  ∨ (∃ title, line = OutLevel title)
  ∨ (∃ sev val, line = OutChange sev val)
  ∨ line = OutNoChanges.
Proof.
  unfold image_lines.
  destruct (status img_diff =? "removed")%string.
  { intros ->%list_elem_of_singleton. left. by eexists _, _, _. }
  destruct (status img_diff =? "new")%string.
  { intros ->%list_elem_of_singleton. left. by eexists _, _, _. }
  destruct (status img_diff =? "compared")%string; [|by intros ?%elem_of_nil].
  cbv zeta. rewrite !elem_of_app.
  intros [->%list_elem_of_singleton|[Hos|[Happ|Hno]]].
  - left. by eexists _, _, _.
  - destruct (any_nonzero (os_level_change img_diff)); [|by apply elem_of_nil in Hos].
    apply elem_of_cons in Hos as [->|(sev & _ & _ & ->)%severity_changes_lines].
    + right. left. by eexists.
    + right. right. left. by eexists _, _.
  - destruct (any_nonzero (app_level_change img_diff)); [|by apply elem_of_nil in Happ].
    apply elem_of_cons in Happ as [->|(sev & _ & _ & ->)%severity_changes_lines].
    + right. left. by eexists.
    + right. right. left. by eexists _, _.
  - destruct (_ && _); [|by apply elem_of_nil in Hno].
    apply list_elem_of_singleton in Hno as ->. by do 3 right.
Qed.

Lemma finding_lines_elem_of change what line :
  line ∈ finding_lines change what ↔
  (change < 0 ∧ line = OutRemediated (Z.abs change) what)
  ∨ (0 < change ∧ line = OutIntroduced change what).
Proof.
  unfold finding_lines.
  destruct (Z.ltb_spec change 0); [|destruct (Z.ltb_spec 0 change)];
    rewrite ?list_elem_of_singleton, ?elem_of_nil; intuition lia.
Qed.

Lemma key_findings_in_report d line :
  line ∈ key_findings d → line ∈ print_comparison d.
Proof.
  intros Hin. unfold print_comparison. rewrite !elem_of_app. do 7 right. by left.
Qed.

Lemma overall_in_report d n :
  OutOverall n ∈ print_comparison d → n = values_total (getd "total" (summary d)).
Proof.
  unfold print_comparison. rewrite !elem_of_app.
  intros [Hin|[Hin|[Hin|[Hin|[Hin|[Hin|[Hin|[Hin|Hin]]]]]]]].
  - rewrite !elem_of_cons, elem_of_nil in Hin.
    repeat (destruct Hin as [Hin|Hin]; [discriminate Hin|]). destruct Hin.
  - by apply level_summary_texts in Hin as [? [=]].
  - by apply level_summary_texts in Hin as [? [=]].
  - by apply level_summary_texts in Hin as [? [=]].
  - rewrite !elem_of_cons, elem_of_nil in Hin.
    repeat (destruct Hin as [Hin|Hin]; [discriminate Hin|]). destruct Hin.
  - apply list_elem_of_bind in Hin as (e & Hin & _).
    apply image_lines_no_findings in Hin
      as [(? & ? & ? & [=])|[(? & [=])|[(? & ? & [=])|[=]]]].
  - rewrite !elem_of_cons, elem_of_nil in Hin.
    repeat (destruct Hin as [Hin|Hin]; [discriminate Hin|]). destruct Hin.
  - unfold key_findings in Hin. cbv zeta in Hin.
    rewrite !elem_of_app, !finding_lines_elem_of, list_elem_of_singleton in Hin.
    destruct Hin as [[[_ [=]]|[_ [=]]]|[[[_ [=]]|[_ [=]]]|[[[_ [=]]|[_ [=]]]
                    |[[[_ [=]]|[_ [=]]]|[= ->]]]]].
    done.
  - by apply list_elem_of_singleton in Hin.
Qed.

(** X21.  Key findings of the report on two snapshots written by
    [save_results_to_json]: when the closing line reports new vulnerabilities
    overall, the report also has an "Introduced" finding for the OS level or
    for the application level, and when it reports remediated
    vulnerabilities overall, it also has a "Remediated" finding for one of
    the two levels.  The overall total is the sum of the two level totals. *)
Theorem print_comparison_overall_explained
    (now0 now1 : string)
    (prev_results curr_results : list Scan.ImageVulnerabilities) (n : Z) :
  let d := calculate_diff (Scan.save_results_to_json now0 prev_results)
             (Scan.save_results_to_json now1 curr_results) in
  OutOverall n ∈ print_comparison d →
  n = values_total (getd "os_level" (summary d))
      + values_total (getd "app_level" (summary d))
  ∧ (0 < n → ∃ count what,
       what ∈ ["OS/Container-level"; "Application-level"]
       ∧ OutIntroduced count what ∈ print_comparison d)
  ∧ (n < 0 → ∃ count what,
       what ∈ ["OS/Container-level"; "Application-level"]
       ∧ OutRemediated count what ∈ print_comparison d).
Proof.
  intros d ->%overall_in_report.
  pose proof (written_diff_totals now0 now1 prev_results curr_results) as Hsum.
  fold d in Hsum. rewrite Hsum. clear Hsum.
  set (os_total := values_total (getd "os_level" (summary d))).
  set (app_total := values_total (getd "app_level" (summary d))).
  assert (Hos : ∀ line, line ∈ finding_lines os_total "OS/Container-level" →
                        line ∈ print_comparison d).
  { intros line Hl. apply key_findings_in_report. unfold key_findings. cbv zeta.
    rewrite !elem_of_app. right. right. by left. }
  assert (Happ : ∀ line, line ∈ finding_lines app_total "Application-level" →
                         line ∈ print_comparison d).
  { intros line Hl. apply key_findings_in_report. unfold key_findings. cbv zeta.
    rewrite !elem_of_app. right. right. right. by left. }
  split; [done|]. split; intros Hn.
  - destruct (decide (0 < os_total)) as [Hpos|Hnpos].
    + exists os_total, "OS/Container-level". split; [left|].
      apply Hos, finding_lines_elem_of. by right.
    + exists app_total, "Application-level". split; [right; left|].
      apply Happ, finding_lines_elem_of. right. split; [lia|done].
  - destruct (decide (os_total < 0)) as [Hneg|Hnneg].
    + exists (Z.abs os_total), "OS/Container-level". split; [left|].
      apply Hos, finding_lines_elem_of. by left.
    + exists (Z.abs app_total), "Application-level". split; [right; left|].
      apply Happ, finding_lines_elem_of. left. split; [lia|done].
Qed.

Lemma print_comparison_overall_explained_witness :
  let d := calculate_diff
    (Scan.save_results_to_json "t0"
       [one_image "app:1" (Scan.mkStats 5 1 0 0 0 0) (Scan.mkStats 0 0 1 0 0 0)])
    (Scan.save_results_to_json "t1"
       [one_image "app:1" (Scan.mkStats 2 1 0 0 0 0) (Scan.mkStats 0 0 1 0 0 1)]) in
  OutOverall (-2) ∈ print_comparison d
  ∧ -2 = values_total (getd "os_level" (summary d))
         + values_total (getd "app_level" (summary d)).
Proof.
  intros d.
  assert (Hin : OutOverall (-2) ∈ print_comparison d).
  { vm_compute. do 39 right. left. }
  split; [exact Hin|].
  exact (proj1 (print_comparison_overall_explained "t0" "t1" _ _ (-2) Hin)).
Defined.

(** The change dictionaries of an entry of a drift. *)
Lemma calculate_diff_entry previous current e :
  e ∈ images (calculate_diff previous current) →
  ∃ name, e = diff_image (index_images (Snapshot.images previous))
                (index_images (Snapshot.images current)) name.
Proof.
  unfold calculate_diff. cbn [images].
  intros (name & -> & _)%list_elem_of_fmap. by exists name.
Qed.

Ltac no_change_line H :=
  rewrite ?elem_of_cons, ?severity_changes_lines, ?elem_of_nil in H;
  repeat match type of H with
         | _ ∨ _ => destruct H as [H|H]
         | ∃ _, _ => destruct H as (? & ? & ? & H)
         end;
  solve [discriminate H | destruct H].

(** X22.  For an image entry of a drift, the console report prints
    "No changes" exactly when the image is in both snapshots and none of the
    six severity counts, the unknown one included, differs at the OS level
    or at the application level. *)
Theorem print_comparison_no_changes
    (previous current : Snapshot.t) (e : image_diff) :
  e ∈ images (calculate_diff previous current) →
  (OutNoChanges ∈ image_lines e ↔
   status e = "compared"
   ∧ ∀ severity, severity ∈ severities →
       image_delta "os_level" severity e = 0
       ∧ image_delta "app_level" severity e = 0).
Proof.
  intros (name & ->)%calculate_diff_entry.
  set (prev_images := index_images _). set (curr_images := index_images _).
  unfold diff_image, image_delta.
  destruct (PyDict.get name prev_images) as [p|], (PyDict.get name curr_images) as [c|];
    cbn [image_lines status os_level_change app_level_change change_of String.eqb Ascii.eqb Bool.eqb image].
  2-4: unfold image_lines; simpl;
       rewrite ?list_elem_of_singleton, ?elem_of_nil; split; [done|by intros [[=] _]].
  unfold image_lines. cbn [status os_level_change app_level_change image].
  change ("compared" =? "removed")%string with false.
  change ("compared" =? "new")%string with false.
  change ("compared" =? "compared")%string with true. cbv iota zeta.
  change (change_of "os_level" ?x) with (os_level_change x).
  change (change_of "app_level" ?x) with (app_level_change x).
  cbn [os_level_change app_level_change].
  set (os := level_change (Snapshot.os_level p) (Snapshot.os_level c)).
  set (app := level_change (Snapshot.app_level p) (Snapshot.app_level c)).
  assert (Hos := any_nonzero_level_change (Snapshot.os_level p) (Snapshot.os_level c)).
  assert (Happ := any_nonzero_level_change (Snapshot.app_level p) (Snapshot.app_level c)).
  fold os in Hos. fold app in Happ.
  assert (Hdelta : ∀ a b severity, severity ∈ severities →
            (get0 severity (level_change a b) = 0 ↔ get0 severity b = get0 severity a)).
  { intros a b severity Hsev. rewrite level_change_get0 by done. lia. }
  split.
  - intros Hin. split; [done|]. intros severity Hsev.
    rewrite !elem_of_app in Hin.
    assert (any_nonzero os = false ∧ any_nonzero app = false) as [Ho Ha].
    { destruct (any_nonzero os), (any_nonzero app); try done; exfalso;
        simpl in Hin; no_change_line Hin. }
    split; apply Hdelta; try done; [by apply Hos|by apply Happ].
  - intros [_ Hall].
    assert (any_nonzero os = false) as ->.
    { apply Hos. intros severity Hsev. apply Hdelta; [done|]. by apply Hall. }
    assert (any_nonzero app = false) as ->.
    { apply Happ. intros severity Hsev. apply Hdelta; [done|]. by apply Hall. }
    simpl. rewrite !elem_of_cons. right. by left.
Qed.

Lemma print_comparison_no_changes_witness :
  let previous := Scan.save_results_to_json "t0"
    [one_image "app:1" (Scan.mkStats 5 1 0 0 0 0) Scan.new_stats] in
  let current := Scan.save_results_to_json "t1"
    [one_image "app:1" (Scan.mkStats 5 1 0 0 0 0) Scan.new_stats] in
  let e := diff_image (index_images (Snapshot.images previous))
             (index_images (Snapshot.images current)) "app:1" in
  e ∈ images (calculate_diff previous current) ∧ OutNoChanges ∈ image_lines e.
Proof.
  intros previous current e.
  assert (Hin : e ∈ images (calculate_diff previous current)).
  { vm_compute. left. }
  split; [exact Hin|].
  apply (proj2 (print_comparison_no_changes previous current e Hin)).
  split; [reflexivity|].
  intros severity Hsev. unfold severities in Hsev.
  rewrite !elem_of_cons, elem_of_nil in Hsev.
  destruct Hsev as [->|[->|[->|[->|[->|[->|[]]]]]]]; by vm_compute.
Defined.


End Compare.

(** * load-artifact-to-database.py *)

Module Artifact.

(** [':' in s] *)
Fixpoint has_colon (s : string) : bool :=
  match s with
  | EmptyString => false
  | String c s' => Ascii.eqb c ":" || has_colon s'
  end.

(** The two parts around the last colon of [s], if it has one. *)
Fixpoint around_last_colon (s : string) : option (string * string) :=
  match s with
  | EmptyString => None
  | String c s' =>
      match around_last_colon s' with
      | Some (before, after) => Some (String c before, after)
      | None => if Ascii.eqb c ":" then Some (EmptyString, s') else None
      end
  end.

(** [s.rsplit(':', 1)] *)
Definition rsplit_colon (s : string) : list string :=
  match around_last_colon s with
  | Some (before, after) => [before; after]
  | None => [s]
  end.

(** [parse_image_name]; [None] stands for the [ValueError] of unpacking a
    list that does not have two items. *)
Definition parse_image_name (full_image_name : string) : option (string * string) :=
  if has_colon full_image_name then
    match rsplit_colon full_image_name with
    | [image_name; image_tag] => Some (image_name, image_tag)
    | _ => None
    end
  else Some (full_image_name, "latest").

(** [full_name] in [get_or_create_image]. *)
Definition full_name (image_name image_tag : string) : string :=
  image_name +:+ ":" +:+ image_tag.

(** The counts among the parameters of the [INSERT INTO scans] of
    [create_scan_from_artifact]. *)
Record scan_counts := {
  total_vulnerabilities : Z;
  critical_count : Z;
  high_count : Z;
  medium_count : Z;
  low_count : Z
}.

Definition create_scan_from_artifact (image_data : Snapshot.image_entry)
    : scan_counts :=
  let total_data := Snapshot.total image_data in
  let critical := Compare.get0 "critical" total_data in
  let high := Compare.get0 "high" total_data in
  let medium := Compare.get0 "medium" total_data in
  let low := Compare.get0 "low" total_data + Compare.get0 "negligible" total_data in
  let total := Compare.get0 "total" total_data in
  {| total_vulnerabilities := total;
     critical_count := critical;
     high_count := high;
     medium_count := medium;
     low_count := low |}.

Example parse_image_name_samples :
  parse_image_name "postgres:18" = Some ("postgres", "18")
  ∧ parse_image_name "nginx" = Some ("nginx", "latest")
  ∧ parse_image_name "localhost:5000/app" = Some ("localhost", "5000/app")
  ∧ parse_image_name "cgr.dev/org/node:24-dev" = Some ("cgr.dev/org/node", "24-dev").
Proof. by repeat split. Qed.

Lemma around_last_colon_is_Some s :
  has_colon s = true → is_Some (around_last_colon s).
Proof.
  induction s as [|c s IH]; [done|]. simpl.
  destruct (around_last_colon s) as [[before after]|]; [by eexists|].
  destruct (Ascii.eqb c ":"); [by eexists|]. simpl. intros Hs.
  by destruct (IH Hs).
Qed.

Lemma around_last_colon_Some s before after :
  around_last_colon s = Some (before, after) →
  s = before +:+ ":" +:+ after ∧ has_colon after = false.
Proof.
  revert before. induction s as [|c s IH]; intros before; [done|]. simpl.
  destruct (around_last_colon s) as [[b a]|] eqn:Hs.
  - intros [= <- <-]. destruct (IH _ eq_refl) as [-> Ha]. by split.
  - destruct (Ascii.eqb c ":") eqn:Hc; [|done]. intros [= <- <-].
    apply Ascii.eqb_eq in Hc as ->. split; [done|].
    destruct (has_colon s) eqn:Hcolon; [|done].
    destruct (around_last_colon_is_Some s Hcolon) as [? Hsome]. congruence.
Qed.

(** X23.  [parse_image_name] always returns a name and a tag, and the tag
    holds no colon.  The full name that [get_or_create_image] builds from
    them is the parsed reference itself when the reference has a colon, and
    the reference followed by [:latest] otherwise. *)
Theorem parse_image_name_full_name (full_image_name : string) :
  ∃ image_name image_tag,
    parse_image_name full_image_name = Some (image_name, image_tag)
    ∧ has_colon image_tag = false
    ∧ full_name image_name image_tag =
      if has_colon full_image_name then full_image_name
      else full_image_name +:+ ":latest".
Proof.
  unfold parse_image_name, rsplit_colon, full_name.
  destruct (has_colon full_image_name) eqn:Hcolon.
  - destruct (around_last_colon_is_Some _ Hcolon) as [[before after] Hsome].
    rewrite Hsome. exists before, after.
    apply around_last_colon_Some in Hsome as [-> Hafter]. by split_and!.
  - by exists full_image_name, "latest".
Qed.

(** X24.  The scan row of an image entry written by [save_results_to_json]:
    its four severity columns add up to the total column less the image's
    unknown-severity findings, the low column being the low and the
    negligible findings together. *)
Theorem create_scan_from_artifact_counts (result : Scan.ImageVulnerabilities) :
  let row := create_scan_from_artifact (Scan.image_data result) in
  let os := Scan.os_level result in
  let app := Scan.app_level result in
  total_vulnerabilities row =
    critical_count row + high_count row + medium_count row + low_count row
    + (Scan.unknown os + Scan.unknown app)
  ∧ low_count row =
    Scan.low os + Scan.low app + (Scan.negligible os + Scan.negligible app)
  ∧ total_vulnerabilities row = Scan.total os + Scan.total app.
Proof.
  intros row os app. unfold row, create_scan_from_artifact. cbn [total_vulnerabilities
    critical_count high_count medium_count low_count].
  change (Compare.get0 "total" (Snapshot.total (Scan.image_data result)))
    with (Scan.total os + Scan.total app).
  change (Compare.get0 "critical" (Snapshot.total (Scan.image_data result)))
    with (Scan.critical os + Scan.critical app).
  change (Compare.get0 "high" (Snapshot.total (Scan.image_data result)))
    with (Scan.high os + Scan.high app).
  change (Compare.get0 "medium" (Snapshot.total (Scan.image_data result)))
    with (Scan.medium os + Scan.medium app).
  change (Compare.get0 "low" (Snapshot.total (Scan.image_data result)))
    with (Scan.low os + Scan.low app).
  change (Compare.get0 "negligible" (Snapshot.total (Scan.image_data result)))
    with (Scan.negligible os + Scan.negligible app).
  unfold Scan.total. lia.
Qed.

End Artifact.

(** * load-to-database.py *)

Module Database.

Definition os_types : list string :=
  ["debian"; "ubuntu"; "alpine"; "rhel"; "centos"; "fedora"; "amazonlinux";
   "photon"; "rocky"; "almalinux"; "oraclelinux"; "suse"; "opensuse"; "arch";
   "wolfi"].

Definition app_types : list string :=
  ["python-pkg"; "python"; "npm"; "nodejs"; "yarn"; "pnpm"; "go-module"; "gomod";
   "java"; "jar"; "maven"; "gradle"; "ruby"; "gem"; "bundler"; "php"; "composer";
   "rust"; "cargo"; "nuget"; "dotnet"; "swift"; "cocoapods"; "hex"; "mix"].

Definition binary_types : list string := ["binary"; "gobinary"].

Definition categorize_package_type (package_type : string) : string :=
  let package_type_lower := lower package_type in
  if bool_decide (package_type_lower ∈ os_types) then "os"
  else if bool_decide (package_type_lower ∈ app_types) then "application"
  else if bool_decide (package_type_lower ∈ binary_types) then "binary"
  else "unknown".

(** One tuple of the list [vulnerabilities] that [load_vulnerabilities] hands
    to [execute_values]; the two dates are always [None] and
    [exploit_available] is always [False]. *)
Record vuln_record := {
  scan_id : Z;
  image_id : Z;
  cve_id : string;
  package_name : string;
  package_version : string;
  package_type : string;
  package_category : string;
  package_path : string;
  severity : string;
  title : string;
  description : string;
  fixed_version : string;
  found_by : string;
  reference_urls : list string;
  cvss_score : option Merge.json;
  cvss_vector : option Merge.json;
  cvss_v2_score : option Merge.json;
  cvss_v3_score : option Merge.json;
  patch_available : bool
}.

Definition record_of (scan image : Z) (result : Merge.Output.result)
    (vuln : Merge.Output.vuln) : vuln_record :=
  {| scan_id := scan;
     image_id := image;
     cve_id := Merge.Output.VulnerabilityID vuln;
     package_name := Merge.Output.PkgName vuln;
     package_version := Merge.Output.InstalledVersion vuln;
     package_type := Merge.Output.Type_ result;
     package_category := categorize_package_type (Merge.Output.Type_ result);
     package_path := Merge.Output.Target result;
     severity := upper (Merge.Output.Severity vuln);
     title := Merge.Output.Title vuln;
     description := Merge.Output.Description vuln;
     fixed_version := Merge.Output.FixedVersion vuln;
     found_by := Merge.Output.FoundBy vuln;
     reference_urls := Merge.Output.References vuln;
     cvss_score := Merge.Output.CVSSScore vuln;
     cvss_vector := Merge.Output.CVSSVector vuln;
     cvss_v2_score := Merge.Output.CVSSV2Score vuln;
     cvss_v3_score := Merge.Output.CVSSV3Score vuln;
     patch_available := Merge.nonempty (Merge.Output.FixedVersion vuln) |}.

(** The list [vulnerabilities] of [load_vulnerabilities], for a merged
    document written by merge-scan-results.py. *)
Definition load_vulnerabilities (scan image : Z) (merged_data : Merge.Output.document)
    : list vuln_record :=
  Merge.Output.Results merged_data ≫= λ result,
    record_of scan image result <$> Merge.Output.Vulnerabilities result.

(** The counts among the parameters of the [INSERT INTO scans] of
    [create_scan_record]. *)
Record scan_counts := {
  total_vulnerabilities : Z;
  critical_count : Z;
  high_count : Z;
  medium_count : Z;
  low_count : Z;
  trivy_only_count : Z;
  grype_only_count : Z;
  both_tools_count : Z
}.

Definition initial_counts : list (string * Z) :=
  [("CRITICAL", 0); ("HIGH", 0); ("MEDIUM", 0); ("LOW", 0)].

(** Body of the inner loop of [create_scan_record]. *)
Definition count_severity (counts : list (string * Z)) (vuln : Merge.Output.vuln)
    : list (string * Z) :=
  let severity := upper (Merge.Output.Severity vuln) in
  if PyDict.mem severity counts
  then PyDict.set severity (Compare.get0 severity counts + 1) counts
  else counts.

Definition severity_counts (merged_data : Merge.Output.document) : list (string * Z) :=
  foldl (λ counts result,
           foldl count_severity counts (Merge.Output.Vulnerabilities result))
        initial_counts (Merge.Output.Results merged_data).

Definition create_scan_record (merged_data : Merge.Output.document) : scan_counts :=
  let counts := severity_counts merged_data in
  let total := py_sum (PyDict.values counts) in
  let stat (f : Merge.Output.merge_stats_json → Z) :=
    from_option f 0 (Merge.Output.MergeStats merged_data) in
  {| total_vulnerabilities := total;
     critical_count := Compare.get0 "CRITICAL" counts;
     high_count := Compare.get0 "HIGH" counts;
     medium_count := Compare.get0 "MEDIUM" counts;
     low_count := Compare.get0 "LOW" counts;
     trivy_only_count := stat Merge.Output.trivy_only;
     grype_only_count := stat Merge.Output.grype_only;
     both_tools_count := stat Merge.Output.found_by_both |}.

Definition counted_severities : list string := ["CRITICAL"; "HIGH"; "MEDIUM"; "LOW"].

(** All vulnerability entries of a merged document, in order. *)
Definition all_vulnerabilities (merged_data : Merge.Output.document)
    : list Merge.Output.vuln :=
  mjoin (Merge.Output.Vulnerabilities <$> Merge.Output.Results merged_data).

Lemma load_vulnerabilities_keys scan image merged_data :
  (λ r, (cve_id r, package_name r, package_version r))
    <$> load_vulnerabilities scan image merged_data
  = (λ v, (Merge.Output.VulnerabilityID v, Merge.Output.PkgName v,
           Merge.Output.InstalledVersion v)) <$> all_vulnerabilities merged_data.
Proof.
  unfold load_vulnerabilities, all_vulnerabilities.
  induction (Merge.Output.Results merged_data) as [|result results IH]; [done|].
  rewrite bind_cons, fmap_cons. cbn [mjoin list_join]. rewrite !fmap_app, IH. f_equal.
  rewrite <- list_fmap_compose. by apply list_fmap_ext.
Qed.

Lemma load_vulnerabilities_length scan image merged_data :
  length (load_vulnerabilities scan image merged_data)
  = length (all_vulnerabilities merged_data).
Proof.
  rewrite <- (length_fmap (λ r, (cve_id r, package_name r, package_version r))).
  by rewrite load_vulnerabilities_keys, length_fmap.
Qed.

Lemma severity_counts_eq merged_data :
  severity_counts merged_data =
  foldl count_severity initial_counts (all_vulnerabilities merged_data).
Proof.
  unfold severity_counts, all_vulnerabilities.
  generalize initial_counts.
  induction (Merge.Output.Results merged_data) as [|result results IH];
    intros counts; [done|].
  rewrite fmap_cons. cbn [mjoin list_join]. rewrite foldl_app. simpl. apply IH.
Qed.

Lemma py_sum_values_incr (k : string) (v : Z) (d : list (string * Z)) :
  PyDict.get k d = Some v →
  py_sum (PyDict.values (PyDict.set k (v + 1) d)) = py_sum (PyDict.values d) + 1.
Proof.
  unfold PyDict.values. induction d as [|[k' v'] d IH]; [done|].
  cbn [PyDict.get PyDict.set].
  destruct (decide (k' = k)) as [->|Hne].
  - intros [= ->]. rewrite !fmap_cons, !py_sum_cons. simpl. lia.
  - intros Hget. rewrite !fmap_cons, !py_sum_cons, IH by done. lia.
Qed.

(** The counters after the loop: the four keys, and under each the number of
    entries whose upper-cased severity is the key. *)
Lemma count_severity_run vulns :
  let counts := foldl count_severity initial_counts vulns in
  PyDict.keys counts = counted_severities
  ∧ py_sum (PyDict.values counts) =
    Z.of_nat (length (filter (λ v, upper (Merge.Output.Severity v) ∈ counted_severities)
                        vulns)).
Proof.
  induction vulns as [|vuln vulns IH] using rev_ind; [done|].
  rewrite Merge.foldl_snoc. cbv zeta in *. destruct IH as [Hkeys Hsum].
  set (counts := foldl count_severity initial_counts vulns) in *.
  rewrite filter_app, filter_cons, filter_nil, length_app.
  unfold count_severity. cbv zeta. unfold PyDict.mem, Compare.get0.
  destruct (PyDict.get (upper (Merge.Output.Severity vuln)) counts) as [n|] eqn:Hget.
  - assert (upper (Merge.Output.Severity vuln) ∈ counted_severities) as Hin.
    { rewrite <- Hkeys. apply PyDict.elem_of_keys_get. by eexists. }
    rewrite decide_True by done. split.
    + rewrite PyDict.keys_set. unfold PyDict.mem. by rewrite Hget.
    + simpl. rewrite py_sum_values_incr, Hsum by done. simpl. lia.
  - assert (upper (Merge.Output.Severity vuln) ∉ counted_severities) as Hin.
    { rewrite <- Hkeys. by apply PyDict.get_None. }
    rewrite decide_False by done. split; [done|]. rewrite Hsum. simpl. lia.
Qed.

(** X25.  The scan row that [create_scan_record] builds from a merged
    document: [total_vulnerabilities] is the sum of the four severity
    columns and counts the entries whose severity is, in upper case,
    CRITICAL, HIGH, MEDIUM or LOW; entries of any other severity are left
    out of it, so it never exceeds the number of records that
    [load_vulnerabilities] builds from the same document. *)
Theorem create_scan_record_total (scan image : Z) (merged_data : Merge.Output.document) :
  let row := create_scan_record merged_data in
  total_vulnerabilities row =
    critical_count row + high_count row + medium_count row + low_count row
  ∧ total_vulnerabilities row =
    Z.of_nat (length (filter (λ v, upper (Merge.Output.Severity v) ∈ counted_severities)
                        (all_vulnerabilities merged_data)))
  ∧ total_vulnerabilities row
    ≤ Z.of_nat (length (load_vulnerabilities scan image merged_data)).
Proof.
  intros row. subst row. unfold create_scan_record. cbv zeta.
  cbn [total_vulnerabilities critical_count high_count medium_count low_count].
  rewrite severity_counts_eq.
  destruct (count_severity_run (all_vulnerabilities merged_data)) as [Hkeys Hsum].
  cbv zeta in *.
  set (counts := foldl count_severity initial_counts _) in *.
  split_and!.
  - clear Hsum. unfold PyDict.keys, counted_severities in Hkeys.
    destruct counts as [|[k1 v1] [|[k2 v2] [|[k3 v3] [|[k4 v4] [|? ?]]]]];
      try discriminate Hkeys.
    simpl in Hkeys. injection Hkeys as -> -> -> ->.
    unfold PyDict.values, py_sum. simpl. unfold Compare.get0. simpl. lia.
  - done.
  - rewrite Hsum, load_vulnerabilities_length. apply inj_le, length_filter.
Qed.

(** X26.  The vulnerability records built from a document that
    merge-scan-results.py writes: there is one record per merged finding
    ([merged_count] of them), and no two records share the triple of CVE
    identifier, package name and package version, the columns on which the
    insert statement skips conflicting rows. *)
Theorem load_vulnerabilities_distinct
    (scan image : Z) (trivy_data : Merge.Document.t)
    (grype_matches : list Merge.grype_match) (base_image : option string) :
  let merged_data := Merge.merge_main trivy_data grype_matches base_image in
  let rows := load_vulnerabilities scan image merged_data in
  NoDup ((λ r, (cve_id r, package_name r, package_version r)) <$> rows)
  ∧ (Merge.Output.merged_count <$> Merge.Output.MergeStats merged_data)
    = Some (Z.of_nat (length rows)).
Proof.
  intros merged_data rows. subst rows.
  rewrite load_vulnerabilities_length, load_vulnerabilities_keys.
  subst merged_data. unfold all_vulnerabilities, Merge.merge_main.
  set (trivy_vulns := Merge.parse_trivy_results _).
  set (grype_vulns := Merge.parse_grype_results _).
  set (h := Merge.store_of _).
  set (T := seq 0 _). set (G := seq _ _).
  rewrite Merge.merge_vulnerabilities_eq. cbv zeta.
  destruct (Merge.merge_output_keys_facts h T G) as (Hkey & Hnd & _).
  set (st := foldl Merge.merge_grype _ G) in *.
  cbn [Merge.Output.Results Merge.Output.MergeStats Merge.create_trivy_compatible_output].
  rewrite Merge.output_results_all. split.
  - rewrite <- !list_fmap_compose.
    apply (NoDup_fmap_1 (λ k : string * string * string, (k.1.1, lower k.1.2, k.2))).
    rewrite <- list_fmap_compose.
    erewrite list_fmap_ext; [exact Hnd|].
    intros _ l _. simpl. by rewrite <- Hkey.
  - simpl. by rewrite !length_fmap.
Qed.

Example categorize_package_type_samples :
  categorize_package_type "Debian" = "os"
  ∧ categorize_package_type "npm" = "application"
  ∧ categorize_package_type "gobinary" = "binary"
  ∧ categorize_package_type "deb" = "unknown".
Proof. by repeat split. Qed.

End Database.
